(** * Verification of the Markdown-to-JSON converter [md_to_json.py]

    A shallow embedding of the conversion engine of [src/exampleCode.py]:
    the inline span converter, the line-oriented block parser, the section
    splitter and the date extractor, together with the fragment of Python's
    [str], [re] and [datetime] libraries these functions run on. *)

From Stdlib Require Import String Ascii NArith ZArith Bool Arith Lia List.
Import ListNotations.

(** ** Python strings

    A Python [str] is a sequence of Unicode code points.  A code point is a
    number; a string is a list of them. *)

Definition char := N.
Definition str := list char.

(** String literals are written as Rocq strings and read with [lit].  Two
    escapes are understood: a backslash followed by [n] is a line feed and a
    backslash followed by [q] is a double quote. *)
Fixpoint lit (s : string) : str :=
  match s with
  | EmptyString => []
  | String "\"%char (String "n"%char t) => 10%N :: lit t
  | String "\"%char (String "q"%char t) => 34%N :: lit t
  | String a t => N_of_ascii a :: lit t
  end.

Definition ch (a : ascii) : char := N_of_ascii a.

Definition LF : char := 10%N.

Fixpoint str_eqb (a b : str) : bool :=
  match a, b with
  | [], [] => true
  | x :: a', y :: b' => N.eqb x y && str_eqb a' b'
  | _, _ => false
  end.

Module Unicode.

(** [str.isspace] for one code point, which is also the class [\s] of [re]
    on [str] patterns. *)
Definition isspace (c : char) : bool :=
  ((9 <=? c) && (c <=? 13) || (28 <=? c) && (c <=? 32)
   || (c =? 133) || (c =? 160) || (c =? 5760)
   || (8192 <=? c) && (c <=? 8202)
   || (c =? 8232) || (c =? 8233) || (c =? 8239) || (c =? 8287)
   || (c =? 12288))%N.

(** First code points of the ten-digit runs of general category Nd
    (Unicode 15). *)
Definition decimal_blocks : list N :=
  [ 48; 1632; 1776; 1984; 2406; 2534; 2662; 2790; 2918; 3046; 3174;
    3302; 3430; 3558; 3664; 3792; 3872; 4160; 4240; 6112; 6160; 6470;
    6608; 6784; 6800; 6992; 7088; 7232; 7248; 42528; 43216; 43264;
    43472; 43504; 43600; 44016; 65296; 66720; 68912; 69734; 69872;
    69942; 70096; 70384; 70736; 70864; 71248; 71360; 71472; 71904;
    72016; 72784; 73040; 73120; 73552; 92768; 92864; 93008;
    120782; 120792; 120802; 120812; 120822;
    123200; 123632; 124144; 125264; 130032 ]%N.

(** The decimal value of a code point, when it is a decimal digit. *)
Definition decimal (c : char) : option Z :=
  match find (fun b => (b <=? c) && (c <? b + 10))%N decimal_blocks with
  | Some b => Some (Z.of_N (c - b))
  | None => None
  end.

(** [\d] of [re] on [str] patterns. *)
Definition isdecimal (c : char) : bool :=
  match decimal c with Some _ => true | None => false end.

(** Case-insensitive comparison of a code point with a lower-case ASCII
    letter of a pattern compiled with [re.IGNORECASE]: the letter itself, its
    upper case, and the code points whose lower case is the letter or that
    the [re] compiler lists as equivalent (dotless and dotted I, long S and
    the Kelvin sign). *)
Definition ieq (x c : char) : bool :=
  ((c =? x) || ((97 <=? x) && (x <=? 122) && (c =? x - 32))
   || ((x =? 105) && ((c =? 304) || (c =? 305)))
   || ((x =? 115) && (c =? 383))
   || ((x =? 107) && (c =? 8490)))%N.

End Unicode.

(** ** Operations of [str] *)

Module Str.

Import Unicode.

Fixpoint lstrip (s : str) : str :=
  match s with
  | c :: t => if isspace c then lstrip t else s
  | [] => []
  end.

Definition rstrip (s : str) : str := rev (lstrip (rev s)).

(** [s.strip()] *)
Definition strip (s : str) : str := rstrip (lstrip s).

(** [s.startswith(p)] *)
Fixpoint startswith (p s : str) : bool :=
  match p, s with
  | [], _ => true
  | x :: p', y :: s' => N.eqb x y && startswith p' s'
  | _ :: _, [] => false
  end.

(** [s[a:b]] for [0 <= a], [0 <= b] *)
Definition slice (s : str) (a b : nat) : str := firstn (b - a) (skipn a s).

(** [s[a:]] *)
Definition slice_from (s : str) (a : nat) : str := skipn a s.

(** [s.split(c)] for a one-character separator: the pieces between the
    separators, one more than there are separators. *)
Fixpoint split (c : char) (s : str) : list str :=
  match s with
  | [] => [[]]
  | x :: t =>
      if N.eqb x c then [] :: split c t
      else match split c t with
           | l :: ls => (x :: l) :: ls
           | [] => [[x]]
           end
  end.

(** [sep.join(ls)] *)
Fixpoint join (sep : str) (ls : list str) : str :=
  match ls with
  | [] => []
  | [l] => l
  | l :: ls' => l ++ sep ++ join sep ls'
  end.

(** [s.replace(c, new)] for a one-character [c] *)
Definition replace (c : char) (new : str) (s : str) : str :=
  flat_map (fun x => if N.eqb x c then new else [x]) s.

(** [int(s)] on a string of decimal digits, as [re] hands them over;
    surrounding white space is skipped as [int] does. *)
Definition int_digits (s : str) : option Z :=
  fold_left (fun acc c =>
               match acc, decimal c with
               | Some v, Some d => Some (10 * v + d)%Z
               | _, _ => None
               end) s (Some 0%Z).

Definition int (s : str) : option Z :=
  match strip s with
  | [] => None
  | t => int_digits t
  end.

End Str.

(** ** The [re] module

    A backtracking matcher for the fragment of regular expressions the
    program uses.  Matching is written in continuation-passing style, so that
    alternatives are tried in the order Python tries them: the left branch of
    [|] first, greedy repetition longest first, lazy repetition shortest
    first.  Repetition applies to sets of characters only, which is all the
    patterns of the program need. *)

Module Re.

Record span := { sp_start : nat; sp_end : nat; sp_text : str }.

(** The matcher's state: the position in the subject, the character before
    it, the rest of the subject and the groups captured so far. *)
Record st := { pos : nat; prev : option char; rest : str;
               caps : list (N * span) }.

Inductive regex :=
| Eps
| Chr (p : char -> bool)              (* one character of a set *)
| Cat (a b : regex)
| Alt (a b : regex)                   (* a|b *)
| Star (greedy : bool) (p : char -> bool)   (* [p]* and [p]*? *)
| Grp (g : N) (a : regex)             (* a capturing group *)
| Bol                                 (* ^ under re.MULTILINE *)
| Eol                                 (* $ under re.MULTILINE *)
| NotBehind (p : char -> bool)        (* (?<![p]) *)
| NotAhead (p : char -> bool).        (* (?![p]) *)

Definition adv (s : st) (c : char) (t : str) : st :=
  {| pos := S (pos s); prev := Some c; rest := t; caps := caps s |}.

Definition set_cap (g : N) (s0 s1 : st) : st :=
  {| pos := pos s1; prev := prev s1; rest := rest s1;
     caps := (g, {| sp_start := pos s0; sp_end := pos s1;
                    sp_text := firstn (pos s1 - pos s0) (rest s0) |})
             :: caps s1 |}.

Fixpoint star_greedy (p : char -> bool) (k : st -> option st)
    (n : nat) (pv : option char) (r : str) (cs : list (N * span))
  : option st :=
  match r with
  | c :: t =>
      if p c then
        match star_greedy p k (S n) (Some c) t cs with
        | Some e => Some e
        | None => k {| pos := n; prev := pv; rest := r; caps := cs |}
        end
      else k {| pos := n; prev := pv; rest := r; caps := cs |}
  | [] => k {| pos := n; prev := pv; rest := r; caps := cs |}
  end.

Fixpoint star_lazy (p : char -> bool) (k : st -> option st)
    (n : nat) (pv : option char) (r : str) (cs : list (N * span))
  : option st :=
  match k {| pos := n; prev := pv; rest := r; caps := cs |} with
  | Some e => Some e
  | None =>
      match r with
      | c :: t => if p c then star_lazy p k (S n) (Some c) t cs else None
      | [] => None
      end
  end.

(** [mt r k s]: match [r] at state [s], then continue with [k]; the first
    way of matching [r] that makes [k] succeed wins. *)
Fixpoint mt (r : regex) (k : st -> option st) (s : st) : option st :=
  match r with
  | Eps => k s
  | Chr p =>
      match rest s with
      | c :: t => if p c then k (adv s c t) else None
      | [] => None
      end
  | Cat a b => mt a (mt b k) s
  | Alt a b => match mt a k s with Some e => Some e | None => mt b k s end
  | Star g p =>
      (if g then star_greedy else star_lazy) p k
        (pos s) (prev s) (rest s) (caps s)
  | Grp g a => mt a (fun s' => k (set_cap g s s')) s
  | Bol =>
      match prev s with
      | None => k s
      | Some c => if N.eqb c LF then k s else None
      end
  | Eol =>
      match rest s with
      | [] => k s
      | c :: _ => if N.eqb c LF then k s else None
      end
  | NotBehind p =>
      match prev s with
      | Some c => if p c then None else k s
      | None => k s
      end
  | NotAhead p =>
      match rest s with
      | c :: _ => if p c then None else k s
      | [] => k s
      end
  end.

(** A match object: where the match starts, and the state it ends in. *)
Record mobj := { m_start : nat; m_final : st }.

Definition m_end (m : mobj) : nat := pos (m_final m).

(** [m.group(g)], [None] when the group took no part in the match *)
Definition group (m : mobj) (g : N) : option str :=
  match find (fun e => N.eqb (fst e) g) (caps (m_final m)) with
  | Some e => Some (sp_text (snd e))
  | None => None
  end.

Definition match_at (r : regex) (n : nat) (pv : option char) (s : str)
  : option mobj :=
  match mt r Some {| pos := n; prev := pv; rest := s; caps := [] |} with
  | Some e => Some {| m_start := n; m_final := e |}
  | None => None
  end.

(** [re.match(r, s)] *)
Definition match_ (r : regex) (s : str) : option mobj := match_at r 0 None s.

(** [re.search(r, s)]: the match at the leftmost position that has one. *)
Fixpoint search_from (r : regex) (n : nat) (pv : option char) (s : str)
  : option mobj :=
  match match_at r n pv s with
  | Some m => Some m
  | None =>
      match s with
      | c :: t => search_from r (S n) (Some c) t
      | [] => None
      end
  end.

Definition search (r : regex) (s : str) : option mobj := search_from r 0 None s.

(** [re.finditer(r, s)]: the successive matches, left to right, none
    overlapping another.  After a match the scan resumes at its end: [skip]
    counts the characters of the match still to step over.  (No pattern of
    the program matches the empty string, see [min_len]; after an empty match
    the scan moves on by one character.) *)
Fixpoint finditer_from (r : regex) (n : nat) (pv : option char) (s : str)
    (skip : nat) : list mobj :=
  match skip with
  | S k =>
      match s with
      | c :: t => finditer_from r (S n) (Some c) t k
      | [] => []
      end
  | O =>
      match match_at r n pv s with
      | Some m =>
          m :: match s with
               | c :: t => finditer_from r (S n) (Some c) t (m_end m - n - 1)
               | [] => []
               end
      | None =>
          match s with
          | c :: t => finditer_from r (S n) (Some c) t 0
          | [] => []
          end
      end
  end.

Definition finditer (r : regex) (s : str) : list mobj :=
  finditer_from r 0 None s 0.

(** [m.group(0)] *)
Definition group0 (s : str) (m : mobj) : str :=
  Str.slice s (m_start m) (m_end m).

(** [re.findall(r, s)] for a pattern without groups *)
Definition findall (r : regex) (s : str) : list str :=
  map (group0 s) (finditer r s).

(** [re.sub(r, repl, s)]: the text between the matches is kept, each match is
    replaced by what [repl] makes of it. *)
Fixpoint sub_pieces (repl : mobj -> str) (s : str) (last : nat)
    (ms : list mobj) : str :=
  match ms with
  | [] => Str.slice_from s last
  | m :: ms' =>
      Str.slice s last (m_start m) ++ repl m ++ sub_pieces repl s (m_end m) ms'
  end.

Definition sub (r : regex) (repl : mobj -> str) (s : str) : str :=
  sub_pieces repl s 0 (finditer r s).

(** Pattern syntax *)
Definition just (c : char) : char -> bool := N.eqb c.
Definition isnot (c : char) : char -> bool := fun x => negb (N.eqb c x).
Definition any : char -> bool := fun _ => true.            (* [\s\S] *)
Definition dot : char -> bool := isnot LF.                 (* . *)
Definition oneof (l : str) : char -> bool := fun x => existsb (N.eqb x) l.
Definition between (a b : char) : char -> bool :=
  fun x => (N.leb a x && N.leb x b)%bool.
Definition ws : char -> bool := Unicode.isspace.            (* \s *)
Definition dg : char -> bool := Unicode.isdecimal.          (* \d *)

Definition Lit (c : ascii) : regex := Chr (just (ch c)).
Definition Plus (g : bool) (p : char -> bool) : regex := Cat (Chr p) (Star g p).
Definition Opt (a : regex) : regex := Alt a Eps.           (* a? *)

Fixpoint seq (l : list regex) : regex :=
  match l with
  | [] => Eps
  | [a] => a
  | a :: l' => Cat a (seq l')
  end.

(** A literal word *)
Definition word (s : string) : regex := seq (map (fun c => Chr (just c)) (lit s)).

(** A literal word under [re.IGNORECASE]; the word is in lower case *)
Definition iword (s : string) : regex :=
  seq (map (fun c => Chr (Unicode.ieq c)) (lit s)).

(** The least number of characters a match of the pattern has. *)
Fixpoint min_len (r : regex) : nat :=
  match r with
  | Chr _ => 1
  | Cat a b => min_len a + min_len b
  | Alt a b => Nat.min (min_len a) (min_len b)
  | Grp _ a => min_len a
  | _ => 0
  end.

End Re.

(** ** [datetime] and [datetime.strptime] *)

Module Datetime.

Import Re.

(** A [datetime] with the time of day at midnight, as every format of the
    program leaves it. *)
Record datetime := { year : Z; month : Z; day : Z }.

Definition is_leap (y : Z) : bool :=
  ((y mod 4 =? 0) && (negb (y mod 100 =? 0) || (y mod 400 =? 0)))%Z.

Definition days_in_month (y m : Z) : Z :=
  if (m =? 2)%Z then (if is_leap y then 29 else 28)%Z
  else if ((m =? 4) || (m =? 6) || (m =? 9) || (m =? 11))%Z then 30%Z
  else 31%Z.

(** [datetime(y, m, d)]: [None] when the constructor raises, which it does
    unless the three numbers are a date of the proleptic Gregorian calendar
    between the years 1 and 9999. *)
Definition make (y m d : Z) : option datetime :=
  if ((1 <=? y) && (y <=? 9999) && (1 <=? m) && (m <=? 12)
      && (1 <=? d) && (d <=? days_in_month y m))%Z
  then Some {| year := y; month := m; day := d |}
  else None.

(** Month names of the C locale, lower case, as [_strptime.LocaleTime]
    keeps them: index 0 is the empty string. *)
Definition a_month : list str :=
  [] :: map lit ["jan"; "feb"; "mar"; "apr"; "may"; "jun";
                 "jul"; "aug"; "sep"; "oct"; "nov"; "dec"]%string.

Definition f_month : list str :=
  [] :: map lit ["january"; "february"; "march"; "april"; "may"; "june";
                 "july"; "august"; "september"; "october"; "november";
                 "december"]%string.

(** Stable sort by decreasing length: [sorted(l, key=len, reverse=True)] *)
Fixpoint insert_len (x : str) (l : list str) : list str :=
  match l with
  | [] => [x]
  | y :: l' =>
      if (length y <? length x)%nat then x :: l else y :: insert_len x l'
  end.

Definition sort_len (l : list str) : list str :=
  fold_left (fun acc x => insert_len x acc) l [].

Fixpoint alts (l : list regex) : regex :=
  match l with
  | [] => Chr (fun _ => false)
  | [a] => a
  | a :: l' => Alt a (alts l')
  end.

(** A literal of a pattern compiled with [re.IGNORECASE] *)
Definition ilit (c : char) : regex :=
  if ((65 <=? c) && (c <=? 90))%N then Chr (Unicode.ieq (c + 32)%N)
  else if ((97 <=? c) && (c <=? 122))%N then Chr (Unicode.ieq c)
  else Chr (just c).

(** [TimeRE.__seqToRE]: the names as alternatives, longest first, in a
    group named after the directive. *)
Definition seqToRE (names : list str) (g : N) : regex :=
  Grp g (alts (map (fun w => seq (map ilit w))
                   (sort_len (filter (fun w => negb (str_eqb w [])) names)))).

Definition r19 := Chr (between (ch "1") (ch "9")).

(** Named groups bear the code point of the directive's letter. *)
Definition g_d : N := ch "d".
Definition g_m : N := ch "m".
Definition g_Y : N := ch "Y".
Definition g_b : N := ch "b".
Definition g_B : N := ch "B".

(** The regular expression of a directive ([TimeRE]'s table) *)
Definition directive (c : char) : option regex :=
  if N.eqb c (ch "d") then
    (* 3[0-1]|[1-2]\d|0[1-9]|[1-9]| [1-9] *)
    Some (Grp g_d (alts [ Cat (Lit "3") (Chr (between (ch "0") (ch "1")));
                          Cat (Chr (between (ch "1") (ch "2"))) (Chr dg);
                          Cat (Lit "0") r19;
                          r19;
                          Cat (Lit " ") r19 ]))
  else if N.eqb c (ch "m") then
    (* 1[0-2]|0[1-9]|[1-9] *)
    Some (Grp g_m (alts [ Cat (Lit "1") (Chr (between (ch "0") (ch "2")));
                          Cat (Lit "0") r19;
                          r19 ]))
  else if N.eqb c (ch "Y") then
    (* \d\d\d\d *)
    Some (Grp g_Y (seq [Chr dg; Chr dg; Chr dg; Chr dg]))
  else if N.eqb c (ch "b") then Some (seqToRE a_month g_b)
  else if N.eqb c (ch "B") then Some (seqToRE f_month g_B)
  else None.

(** [TimeRE.pattern]: a directive becomes its regular expression, a run of
    white space becomes [\s+], any other character stands for itself. *)
Fixpoint pattern_from (in_ws : bool) (fmt : str) : option (list regex) :=
  match fmt with
  | [] => Some []
  | c :: t =>
      if N.eqb c (ch "%") then
        match t with
        | d :: t' =>
            match directive d, pattern_from false t' with
            | Some r, Some l => Some (r :: l)
            | _, _ => None
            end
        | [] => None
        end
      else if Unicode.isspace c then
        if in_ws then pattern_from true t
        else option_map (cons (Plus true ws)) (pattern_from true t)
      else option_map (cons (ilit c)) (pattern_from false t)
  end.

Definition pattern (fmt : str) : option regex :=
  option_map seq (pattern_from false fmt).

(** [str.lower] on the code points a case-insensitive match of an ASCII
    word can contain. *)
Definition lower (s : str) : str :=
  flat_map (fun c =>
              if ((65 <=? c) && (c <=? 90))%N then [(c + 32)%N]
              else if (c =? 304)%N then [105; 775]%N
              else if (c =? 8490)%N then [107]%N
              else [c]) s.

(** [l.index(x)], [None] when it raises *)
Fixpoint index (x : str) (l : list str) : option Z :=
  match l with
  | [] => None
  | y :: l' => if str_eqb x y then Some 0%Z
               else option_map Z.succ (index x l')
  end.

Definition field_year (m : mobj) : option Z :=
  match group m g_Y with
  | Some t => Str.int t
  | None => Some 1900%Z
  end.

Definition field_month (m : mobj) : option Z :=
  match group m g_m, group m g_B, group m g_b with
  | Some t, _, _ => Str.int t
  | None, Some t, _ => index (lower t) f_month
  | None, None, Some t => index (lower t) a_month
  | None, None, None => Some 1%Z
  end.

Definition field_day (m : mobj) : option Z :=
  match group m g_d with
  | Some t => Str.int t
  | None => Some 1%Z
  end.

(** [datetime.strptime(data, fmt)], [None] when it raises [ValueError]: the
    format's regular expression has to match at the start of [data] and reach
    its end, and the fields have to make a date. *)
Definition strptime (data fmt : str) : option datetime :=
  match pattern fmt with
  | None => None
  | Some r =>
      match match_ r data with
      | None => None
      | Some m =>
          if negb (length data =? m_end m)%nat then None
          else match field_year m, field_month m, field_day m with
               | Some y, Some mo, Some d => make y mo d
               | _, _, _ => None
               end
      end
  end.

End Datetime.

(** ** The program *)

Import Re.

(** What the program raises. *)
Inductive exn :=
| Unrecognised (raw : str)   (* ValueError: Unrecognised UK date format *)
| OutOfRange                 (* raised on building [datetime(y, mth, d)] *)
| NoDateLine.                (* ValueError: Could not find a UK-style ... line *)

Inductive result (A : Type) :=
| Ok (a : A)
| Raise (e : exn).

Arguments Ok {A} a.
Arguments Raise {A} e.

(** The specification's names for the failures. *)
Inductive error_kind := MissingTitle | MissingDate | InvalidDate.

Definition kind_of (e : exn) : error_kind :=
  match e with
  | Unrecognised _ => MissingDate
  | OutOfRange => InvalidDate
  | NoDateLine => MissingDate
  end.

(** The text of a group that took part in the match. *)
Definition text (o : option str) : str :=
  match o with Some t => t | None => [] end.

Module Dates.

Import Datetime.

Definition fmts : list str :=
  map lit ["%d/%m/%Y"; "%d-%m-%Y"; "%d.%m.%Y"; "%d %b %Y"; "%d %B %Y"]%string.

(** The loop over [fmts]: the first format that parses wins. *)
Fixpoint try_formats (raw : str) (fs : list str) : option datetime :=
  match fs with
  | [] => None
  | fmt :: fs' =>
      match strptime raw fmt with
      | Some d => Some d
      | None => try_formats raw fs'
      end
  end.

(** [\d+] *)
Definition digits_re : regex := Plus true dg.

Definition _try_parse_date (raw : str) : result datetime :=
  let raw := Str.strip raw in
  match try_formats raw fmts with
  | Some d => Ok d
  | None =>
      let digits := findall digits_re raw in
      if (3 <=? length digits)%nat then
        match map Str.int (firstn 3 digits) with
        | [Some d; Some mth; Some y] =>
            match make y mth d with
            | Some dt => Ok dt
            | None => Raise OutOfRange
            end
        | _ => Raise OutOfRange            (* [int] raised *)
        end
      else Raise (Unrecognised raw)
  end.

(** [(?im)^\s*last\s*updated\s*[:\-]?\s*(.+?)\s*$] and its two siblings *)
Definition label_tail : list regex :=
  [ Star true ws; Opt (Chr (oneof (lit ":-"))); Star true ws;
    Grp 1 (Plus false dot); Star true ws; Eol ].

Definition pat_last_updated : regex :=
  seq ([Bol; Star true ws; iword "last"; Star true ws; iword "updated"]
       ++ label_tail).

Definition pat_updated : regex :=
  seq ([Bol; Star true ws; iword "updated"] ++ label_tail).

Definition pat_effective : regex :=
  seq ([Bol; Star true ws; iword "effective"; Star true ws;
        Alt (iword "date") (seq [iword "as"; Star true ws; iword "of"])]
       ++ label_tail).

Definition patterns : list regex :=
  [pat_last_updated; pat_updated; pat_effective].

(** [(\d{1,2}[./-]\d{1,2}[./-]\d{4})] *)
Definition pat_numeric : regex :=
  Grp 1 (seq [ Chr dg; Opt (Chr dg); Chr (oneof (lit "./-"));
               Chr dg; Opt (Chr dg); Chr (oneof (lit "./-"));
               Chr dg; Chr dg; Chr dg; Chr dg ]).

Definition em_dash : char := 8212%N.
Definition en_dash : char := 8211%N.
Definition fullwidth_colon : char := 65306%N.

Definition normalise (md_text : str) : str :=
  Str.replace fullwidth_colon (lit ":")
    (Str.replace en_dash (lit "-")
       (Str.replace em_dash (lit "-") md_text)).

(** The loop over [patterns]: the first pattern found anywhere wins. *)
Fixpoint first_label (pats : list regex) (s : str) : option mobj :=
  match pats with
  | [] => None
  | pat :: pats' =>
      match search pat s with
      | Some m => Some m
      | None => first_label pats' s
      end
  end.

Definition parse_last_updated (md_text : str) : result datetime :=
  let normalised := normalise md_text in
  match first_label patterns normalised with
  | Some m => _try_parse_date (text (group m 1))
  | None =>
      match search pat_numeric normalised with
      | Some m => _try_parse_date (text (group m 1))
      | None => Raise NoDateLine
      end
  end.

End Dates.

(** ** Inline spans: [convert_inline_markdown] *)

Module Inline.

(** [_md_code]: a backquote, [[^`]+] in group 1, a backquote *)
Definition _md_code : regex :=
  seq [Lit "`"; Grp 1 (Plus true (isnot (ch "`"))); Lit "`"].

(** [_md_strong]: [\*\*([^*][\s\S]*?)\*\*|__([^_][\s\S]*?)__] *)
Definition _md_strong : regex :=
  Alt (seq [Lit "*"; Lit "*";
            Grp 1 (Cat (Chr (isnot (ch "*"))) (Star false any));
            Lit "*"; Lit "*"])
      (seq [Lit "_"; Lit "_";
            Grp 2 (Cat (Chr (isnot (ch "_"))) (Star false any));
            Lit "_"; Lit "_"]).

(** [_md_em]: a star that no star precedes, [[^*][\s\S]*?] in group 1 and a
    star that no star follows; or [_([^_][\s\S]*?)_] with group 2 *)
Definition _md_em : regex :=
  Alt (seq [NotBehind (just (ch "*")); Lit "*";
            Grp 1 (Cat (Chr (isnot (ch "*"))) (Star false any));
            Lit "*"; NotAhead (just (ch "*"))])
      (seq [Lit "_";
            Grp 2 (Cat (Chr (isnot (ch "_"))) (Star false any));
            Lit "_"]).

(** [_md_link]: [\[([^\]]+)\]\(([^)]+)\)] *)
Definition _md_link : regex :=
  seq [Lit "["; Grp 1 (Plus true (isnot (ch "]"))); Lit "]";
       Lit "("; Grp 2 (Plus true (isnot (ch ")"))); Lit ")"].

(** [_md_two_space_break]: two spaces and a line feed *)
Definition _md_two_space_break : regex :=
  seq [Lit " "; Lit " "; Chr (just LF)].

Definition code_repl (m : mobj) : str :=
  lit "<code class='bg-gray-100 px-1 py-0.5 rounded text-sm'>"
  ++ text (group m 1) ++ lit "</code>".

Definition _strong_sub (m : mobj) : str :=
  let inner := match group m 1 with
               | Some t => t
               | None => text (group m 2)
               end in
  lit "<strong>" ++ inner ++ lit "</strong>".

Definition _em_sub (m : mobj) : str :=
  let inner := match group m 1 with
               | Some t => t
               | None => text (group m 2)
               end in
  lit "<em>" ++ inner ++ lit "</em>".

Definition link_repl (m : mobj) : str :=
  lit "<a href=\q" ++ text (group m 2)
  ++ lit "\q class=\qtext-primary hover:text-blue-600 underline\q>"
  ++ text (group m 1) ++ lit "</a>".

Definition break_repl (_ : mobj) : str := lit "<br>\n".

Definition convert_inline_markdown (text : str) : str :=
  match text with
  | [] => text
  | _ =>
      (* Convert code first to avoid nested replacements *)
      let text := sub _md_code code_repl text in
      (* Strong *)
      let text := sub _md_strong _strong_sub text in
      (* Emphasis *)
      let text := sub _md_em _em_sub text in
      (* Links *)
      let text := sub _md_link link_repl text in
      (* Hard line breaks *)
      sub _md_two_space_break break_repl text
  end.

End Inline.

(** ** Blocks: [convert_markdown_to_html] *)

Module Blocks.

Import Inline.

(** The loop's variables *)
Record pstate := {
  in_list : bool;
  in_blockquote : bool;
  list_items : list str;
  blockquote_items : list str;
  result_lines : list str
}.

Definition init : pstate :=
  {| in_list := false; in_blockquote := false; list_items := [];
     blockquote_items := []; result_lines := [] |}.

(** [items[-1] += ' ' + line] *)
Fixpoint append_last (items : list str) (line : str) : list str :=
  match items with
  | [] => []
  | [x] => [x ++ lit " " ++ line]
  | x :: items' => x :: append_last items' line
  end.

Definition ul_outside : str :=
  lit "<ul class=\qlist-disc list-outside mb-4 space-y-1 pl-5\q>".
Definition ul_inside : str :=
  lit "<ul class=\qlist-disc list-inside mb-4 space-y-1\q>".

Definition li (item : str) : str :=
  lit "<li>" ++ convert_inline_markdown item ++ lit "</li>".

(** The lines of a rendered list *)
Definition render_list (ul : str) (items : list str) : list str :=
  [ul] ++ map li items ++ [lit "</ul>"].

Definition quote_head : list str :=
  [ lit "<div class=\qbg-gradient-to-r from-blue-50 to-indigo-50 border-l-4 border-blue-600 rounded-r-lg px-4 py-2 mb-4 shadow-sm\q>";
    lit "<div class=\qflex items-start\q>";
    lit "<div class=\qflex-shrink-0 mr-3\q>";
    lit "<svg class=\qw-5 h-5 text-blue-500 mt-0.5\q fill=\qcurrentColor\q viewBox=\q0 0 20 20\q>";
    lit "<path fill-rule=\qevenodd\q d=\qM18 10a8 8 0 11-16 0 8 8 0 0116 0zm-7-4a1 1 0 11-2 0 1 1 0 012 0zM9 9a1 1 0 000 2v3a1 1 0 001 1h1a1 1 0 100-2v-3a1 1 0 00-1-1H9z\q clip-rule=\qevenodd\q></path>";
    lit "</svg>";
    lit "</div>";
    lit "<div class=\qflex-1\q>" ].

Definition p_tight : str :=
  lit "<p class=\qtext-gray-800 font-medium leading-tight mb-0\q>".
Definition p_relaxed : str :=
  lit "<p class=\qtext-gray-800 font-medium leading-relaxed\q>".

Definition quote_p (open : str) (item : str) : str :=
  open ++ convert_inline_markdown item ++ lit "</p>".

(** The lines of a rendered blockquote *)
Definition render_quote (open : str) (items : list str) : list str :=
  quote_head ++ map (quote_p open) items
  ++ [lit "</div>"; lit "</div>"; lit "</div>"].

Definition paragraph (line : str) : str :=
  lit "<p class=\qmb-4\q>" ++ convert_inline_markdown line ++ lit "</p>".

Definition nonempty {A} (l : list A) : bool :=
  match l with [] => false | _ => true end.

(** [if in_list and list_items: ...] of the blank-line and regular-content
    arms, with the [<ul>] line the arm writes *)
Definition flush_list (ul : str) (s : pstate) : pstate :=
  if in_list s && nonempty (list_items s) then
    {| in_list := false; in_blockquote := in_blockquote s;
       list_items := []; blockquote_items := blockquote_items s;
       result_lines := result_lines s ++ render_list ul (list_items s) |}
  else s.

(** [if in_blockquote and blockquote_items: ...] of the same arms *)
Definition flush_quote (s : pstate) : pstate :=
  if in_blockquote s && nonempty (blockquote_items s) then
    {| in_list := in_list s; in_blockquote := false;
       list_items := list_items s; blockquote_items := [];
       result_lines :=
         result_lines s ++ render_quote p_tight (blockquote_items s) |}
  else s.

(** The arms of the [if]/[elif] chain of the loop body *)
Inductive arm :=
| DashSpace      (* line.startswith('- ') *)
| Dash           (* line.startswith('-') *)
| QuoteSpace     (* line.startswith('> ') *)
| Quote          (* line.startswith('>') *)
| ListCont       (* in_list and line *)
| QuoteCont      (* in_blockquote and line *)
| Blank          (* (in_list or in_blockquote) and not line *)
| Regular.       (* else *)

Definition arm_of (s : pstate) (line : str) : arm :=
  if Str.startswith (lit "- ") line then DashSpace
  else if Str.startswith (lit "-") line then Dash
  else if Str.startswith (lit "> ") line then QuoteSpace
  else if Str.startswith (lit ">") line then Quote
  else if in_list s && nonempty line then ListCont
  else if in_blockquote s && nonempty line then QuoteCont
  else if (in_list s || in_blockquote s) && negb (nonempty line) then Blank
  else Regular.

Definition add_list_item (s : pstate) (item : str) : pstate :=
  {| in_list := true; in_blockquote := in_blockquote s;
     list_items := (if in_list s then list_items s else []) ++ [item];
     blockquote_items := blockquote_items s;
     result_lines := result_lines s |}.

Definition add_quote_item (s : pstate) (item : str) : pstate :=
  {| in_list := in_list s; in_blockquote := true;
     list_items := list_items s;
     blockquote_items :=
       (if in_blockquote s then blockquote_items s else []) ++ [item];
     result_lines := result_lines s |}.

Definition exec (a : arm) (s : pstate) (line : str) : pstate :=
  match a with
  | DashSpace => add_list_item s (Str.slice_from line 2)
  | Dash => add_list_item s (Str.strip (Str.slice_from line 1))
  | QuoteSpace => add_quote_item s (Str.slice_from line 2)
  | Quote => add_quote_item s (Str.strip (Str.slice_from line 1))
  | ListCont =>
      {| in_list := in_list s; in_blockquote := in_blockquote s;
         list_items := append_last (list_items s) line;
         blockquote_items := blockquote_items s;
         result_lines := result_lines s |}
  | QuoteCont =>
      {| in_list := in_list s; in_blockquote := in_blockquote s;
         list_items := list_items s;
         blockquote_items := append_last (blockquote_items s) line;
         result_lines := result_lines s |}
  | Blank => flush_quote (flush_list ul_outside s)
  | Regular =>
      let s := flush_quote (flush_list ul_inside s) in
      if nonempty line then
        {| in_list := in_list s; in_blockquote := in_blockquote s;
           list_items := list_items s;
           blockquote_items := blockquote_items s;
           result_lines := result_lines s ++ [paragraph line] |}
      else s
  end.

(** One turn of the loop, on a line of the text *)
Definition step (s : pstate) (line : str) : pstate :=
  let line := Str.strip line in
  exec (arm_of s line) s line.

(** After the loop: what is still open is written out *)
Definition finish (s : pstate) : list str :=
  result_lines s
  ++ (if in_list s && nonempty (list_items s)
      then render_list ul_outside (list_items s) else [])
  ++ (if in_blockquote s && nonempty (blockquote_items s)
      then render_quote p_relaxed (blockquote_items s) else []).

(** [^###\s+(.+?)$] under [re.MULTILINE] *)
Definition h3_re : regex :=
  seq [Bol; word "###"; Plus true ws; Grp 1 (Plus false dot); Eol].

Definition h3_repl (m : mobj) : str :=
  lit "<h3 class=\qtext-lg font-medium text-gray-900 mt-4 mb-2\q>"
  ++ text (group m 1) ++ lit "</h3>".

(** The lines the loop and the final flush write *)
Definition html_lines (text : str) : list str :=
  let text := sub h3_re h3_repl text in
  let lines := Str.split LF text in
  finish (fold_left step lines init).

Definition convert_markdown_to_html (text : str) : str :=
  match text with
  | [] => text
  | _ => Str.join (lit "\n") (html_lines text)
  end.

End Blocks.

(** ** Sections: [parse_sections] *)

Module Sections.

Import Blocks.

Record section := { heading : str; content : list str }.

(** [(?m)^\s*##\s+(.+?)\s*$] *)
Definition heading_re : regex :=
  seq [Bol; Star true ws; word "##"; Plus true ws; Grp 1 (Plus false dot);
       Star true ws; Eol].

(** [[block.strip() for block in html.split('\n') if block.strip()]] *)
Definition content_blocks (html : str) : list str :=
  map Str.strip
      (filter (fun block => nonempty (Str.strip block)) (Str.split LF html)).

(** The loop over the matches; [ms] holds the matches from the current one
    on, so that the next one is at hand. *)
Fixpoint sections_of (md_text : str) (ms : list mobj)
  : list (str * (nat * nat)) :=
  match ms with
  | [] => []
  | m :: ms' =>
      let start := m_end m in
      let end_ := match ms' with
                  | m' :: _ => m_start m'
                  | [] => length md_text
                  end in
      (Str.strip (text (group m 1)), (start, end_)) :: sections_of md_text ms'
  end.

(** The variable [body] of a turn of the loop *)
Definition body_of (md_text : str) (se : nat * nat) : str :=
  Str.strip (Str.slice md_text (fst se) (snd se)).

Definition parse_sections (md_text : str) : list section :=
  let matches := finditer heading_re md_text in
  map (fun hb =>
         {| heading := fst hb;
            content := content_blocks
                         (convert_markdown_to_html (body_of md_text (snd hb))) |})
      (sections_of md_text matches).

End Sections.

(** ** What a match is

    The matcher of [Re] is a search procedure.  [matches r s s'] says what it
    searches for: [r] matches the subject from state [s] to state [s']. *)

Module Sem.

Inductive matches : regex -> st -> st -> Prop :=
| M_Eps s : matches Eps s s
| M_Chr p s c t :
    rest s = c :: t -> p c = true -> matches (Chr p) s (adv s c t)
| M_Cat a b s s1 s2 :
    matches a s s1 -> matches b s1 s2 -> matches (Cat a b) s s2
| M_AltL a b s s' : matches a s s' -> matches (Alt a b) s s'
| M_AltR a b s s' : matches b s s' -> matches (Alt a b) s s'
| M_Star0 g p s : matches (Star g p) s s
| M_StarS g p s c t s' :
    rest s = c :: t -> p c = true ->
    matches (Star g p) (adv s c t) s' -> matches (Star g p) s s'
| M_Grp g a s s' : matches a s s' -> matches (Grp g a) s (set_cap g s s')
| M_Bol s :
    prev s = None \/ prev s = Some LF -> matches Bol s s
| M_Eol s :
    rest s = [] \/ (exists t, rest s = LF :: t) -> matches Eol s s
| M_NotBehind p s :
    (forall c, prev s = Some c -> p c = false) -> matches (NotBehind p) s s
| M_NotAhead p s :
    (forall c t, rest s = c :: t -> p c = false) -> matches (NotAhead p) s s.

(** [s'] lies [pre] further in the subject than [s]. *)
Definition ahead (s s' : st) (pre : str) : Prop :=
  rest s = pre ++ rest s' /\ pos s' = pos s + length pre.

(** A run of matches that follow one another between two positions:
    each starts where the one before ends, or later. *)
Fixpoint chained (lo : nat) (ms : list mobj) (hi : nat) : Prop :=
  match ms with
  | [] => lo <= hi
  | m :: ms' =>
      lo <= m_start m /\ m_start m <= m_end m /\ chained (m_end m) ms' hi
  end.

(** The characters a match of the pattern can be made of. *)
Fixpoint alphabet (r : regex) (c : char) : bool :=
  match r with
  | Chr p => p c
  | Cat a b => alphabet a c || alphabet b c
  | Alt a b => alphabet a c || alphabet b c
  | Star _ p => p c
  | Grp _ a => alphabet a c
  | _ => false
  end.

(** The text [w] can be a match of the pattern: it is long enough and made
    of the pattern's characters. *)
Definition fits (r : regex) (w : str) : Prop :=
  min_len r <= length w /\ Forall (fun c => alphabet r c = true) w.

(** Whether the pattern has no capturing group. *)
Fixpoint no_grp (r : regex) : bool :=
  match r with
  | Cat a b => no_grp a && no_grp b
  | Alt a b => no_grp a && no_grp b
  | Grp _ _ => false
  | _ => true
  end.

(** Whether a match of the pattern can begin by taking the character [c]
    (an over-approximation). *)
Fixpoint first (r : regex) (c : char) : bool :=
  match r with
  | Chr p => p c
  | Cat a b => first a c || ((min_len a =? 0) && first b c)
  | Alt a b => first a c || first b c
  | Star _ p => p c
  | Grp _ a => first a c
  | _ => false
  end.

End Sem.

(** ** Vocabulary of the properties *)

Module Plain.

(** The characters that open an inline span: backquote, star, underscore
    and opening bracket. *)
Definition delimiter (c : char) : bool := oneof (lit "`*_[") c.

(** Whether two spaces and a line feed, the hard line break, occur. *)
Fixpoint has_break (s : str) : bool :=
  match s with
  | [] => false
  | _ :: t => Str.startswith (lit "  \n") s || has_break t
  end.

(** A string without inline Markdown. *)
Definition plain (s : str) : bool :=
  forallb (fun c => negb (delimiter c)) s && negb (has_break s).

End Plain.

Module BlockSpec.

Import Blocks.

(** The loop's variables after the lines [lines] *)
Definition run (lines : list str) : pstate := fold_left step lines init.

(** An open run has items. *)
Definition open_nonempty (s : pstate) : Prop :=
  (in_list s = true -> list_items s <> [])
  /\ (in_blockquote s = true -> blockquote_items s <> []).

(** The line bears the list marker, the blockquote marker *)
Definition list_marked (l : str) : bool := Str.startswith (lit "-") l.
Definition quote_marked (l : str) : bool := Str.startswith (lit ">") l.

(** The item a marked line brings *)
Definition list_item_of (l : str) : str :=
  if Str.startswith (lit "- ") l then Str.slice_from l 2
  else Str.strip (Str.slice_from l 1).

Definition quote_item_of (l : str) : str :=
  if Str.startswith (lit "> ") l then Str.slice_from l 2
  else Str.strip (Str.slice_from l 1).

(** The reading of the state machine in which an open list takes every
    non-empty line: a line with the list marker as a new item, any other
    line as a continuation of the last item. *)
Definition list_absorbs_every_line : Prop :=
  forall (s : pstate) (line : str),
    open_nonempty s -> in_list s = true ->
    nonempty (Str.strip line) = true ->
    list_items (step s line)
    = if list_marked (Str.strip line)
      then list_items s ++ [list_item_of (Str.strip line)]
      else append_last (list_items s) (Str.strip line).

End BlockSpec.

Module SectionSpec.

Import Sections.

(** Where the next heading starts: at the first of the matches still to
    come or, when there is none, at the end of the document. *)
Definition next_start (md_text : str) (ms : list mobj) : nat :=
  match ms with
  | m :: _ => m_start m
  | [] => length md_text
  end.

(** The text between two positions of the document *)
Definition between (md_text : str) (se : nat * nat) : str :=
  Str.slice md_text (fst se) (snd se).

(** The document from the first heading on: each heading match followed by
    the text up to the next heading. *)
Fixpoint pieces (md_text : str) (ms : list mobj) : str :=
  match ms with
  | [] => []
  | m :: ms' =>
      group0 md_text m
      ++ between md_text (m_end m, next_start md_text ms')
      ++ pieces md_text ms'
  end.

(** The reading in which the body handed to the block parser is the text
    between the headings as it stands. *)
Definition body_is_text_between : Prop :=
  forall md_text h se,
    In (h, se) (sections_of md_text (finditer heading_re md_text)) ->
    body_of md_text se = between md_text se.

End SectionSpec.

Module DateSpec.

(** The longest prefix of characters of a set, and what follows it *)
Fixpoint take_while (p : char -> bool) (s : str) : str :=
  match s with
  | c :: t => if p c then c :: take_while p t else []
  | [] => []
  end.

Fixpoint drop_while (p : char -> bool) (s : str) : str :=
  match s with
  | c :: t => if p c then drop_while p t else s
  | [] => []
  end.

Definition cons_first (c : char) (rs : list str) : list str :=
  match rs with
  | r :: rs' => (c :: r) :: rs'
  | [] => [[c]]
  end.

(** Every run of digits of a string, in order: a digit joins the run that
    starts right after it, or starts a run of its own. *)
Fixpoint digit_runs (s : str) : list str :=
  match s with
  | [] => []
  | c :: t =>
      if Unicode.isdecimal c then
        match t with
        | c' :: _ =>
            if Unicode.isdecimal c' then cons_first c (digit_runs t)
            else [c] :: digit_runs t
        | [] => [[c]]
        end
      else digit_runs t
  end.

End DateSpec.

(** ** Further vocabulary: the shape of the block parser's output *)

Module BlockShape.

Import Blocks.

(** What the block parser writes: a paragraph, a list, or a blockquote,
    which is closed by a blank line ([relaxed] is [false]) or by the end of
    the input. *)
Inductive block :=
| Para (line : str)
| ListOf (items : list str)
| QuoteOf (relaxed : bool) (items : list str).

(** The lines of a block *)
Definition render (b : block) : list str :=
  match b with
  | Para line => [paragraph line]
  | ListOf items => render_list ul_outside items
  | QuoteOf relaxed items =>
      render_quote (if relaxed then p_relaxed else p_tight) items
  end.

(** A paragraph has text, a list or blockquote has items. *)
Definition complete (b : block) : Prop :=
  match b with
  | Para line => line <> []
  | ListOf items => items <> []
  | QuoteOf _ items => items <> []
  end.

Definition tight (b : block) : Prop :=
  match b with
  | QuoteOf true _ => False
  | _ => True
  end.

(** The written lines are complete blocks, one after another. *)
Definition written (ls : list str) : Prop :=
  exists bs, ls = flat_map render bs /\ Forall complete bs /\ Forall tight bs.

(** The text holds no number sign. *)
Definition no_hash (text : str) : bool :=
  forallb (fun c => negb (N.eqb (ch "#") c)) text.

(** The line, trimmed, bears neither marker. *)
Definition unmarked (line : str) : bool :=
  negb (Str.startswith (lit "-") (Str.strip line))
  && negb (Str.startswith (lit ">") (Str.strip line)).

End BlockShape.

(** ** Further vocabulary: what a pattern cannot do without *)

Module Needs.

(** Every match of the pattern takes a character of the set [q]. *)
Fixpoint needs (r : regex) (q : char -> bool) : Prop :=
  match r with
  | Chr p => forall c, p c = true -> q c = true
  | Cat a b => needs a q \/ needs b q
  | Alt a b => needs a q /\ needs b q
  | Grp _ a => needs a q
  | _ => False
  end.

End Needs.

(** ** The title: [extract_title_and_app] *)

Module Title.

(** [(?m)^\s*#\s+(.+?)\s*$] *)
Definition title_re : regex :=
  seq [Bol; Star true ws; Lit "#"; Plus true ws; Grp 1 (Plus false dot);
       Star true ws; Eol].

(** [\(([^)]+)\)] *)
Definition app_re : regex :=
  seq [Lit "("; Grp 1 (Plus true (isnot (ch ")"))); Lit ")"].

(** The title and the app name, [None] for the app name when the title has
    no parentheses; [None] for both when the function raises [ValueError]
    (Could not find a top-level '# ' title in the markdown). *)
Definition extract_title_and_app (md_text : str)
  : option (str * option str) :=
  match search title_re md_text with
  | None => None
  | Some m =>
      let title := Str.strip (text (group m 1)) in
      let m_app := search app_re title in
      let app_name := match m_app with
                      | Some ma => Some (Str.strip (text (group ma 1)))
                      | None => None
                      end in
      Some (title, app_name)
  end.

End Title.

Module DateShape.

(** The text holds no decimal digit. *)
Definition no_digit (s : str) : bool :=
  forallb (fun c => negb (Unicode.isdecimal c)) s.

(** A number below ten as an ASCII digit, and numbers written with two and
    with four digits *)
Definition digit (z : Z) : char := (48 + Z.to_N z)%N.

Definition two_digits (z : Z) : str := [digit (z / 10); digit (z mod 10)]%Z.

Definition four_digits (z : Z) : str :=
  [digit (z / 1000); digit (z / 100 mod 10); digit (z / 10 mod 10);
   digit (z mod 10)]%Z.

(** A date written day, month, year with a separator, as in [01/05/2024] *)
Definition numeric_date (sep : char) (dt : Datetime.datetime) : str :=
  two_digits (Datetime.day dt) ++ [sep] ++ two_digits (Datetime.month dt)
  ++ [sep] ++ four_digits (Datetime.year dt).

End DateShape.

(** ** The app id: [slugify] and [derive_app_id] *)

Module Slug.

Import DateSpec.

(** [[a-zA-Z0-9]] *)
Definition alnum (c : char) : bool :=
  between (ch "a") (ch "z") c || between (ch "A") (ch "Z") c
  || between (ch "0") (ch "9") c.

Definition non_alnum (c : char) : bool := negb (alnum c).

Definition hyphen : char := ch "-".

(** [[^a-zA-Z0-9]+] *)
Definition non_alnum_re : regex := Plus true non_alnum.

(** [-{2,}] *)
Definition hyphens_re : regex :=
  seq [Chr (just hyphen); Chr (just hyphen); Star true (just hyphen)].

(** The replacement ['-'] *)
Definition to_hyphen (_ : mobj) : str := [hyphen].

(** [s.lstrip(cs)], [s.rstrip(cs)] and [s.strip(cs)] *)
Fixpoint lstrip_chars (cs s : str) : str :=
  match s with
  | c :: t => if oneof cs c then lstrip_chars cs t else s
  | [] => []
  end.

Fixpoint rstrip_chars (cs s : str) : str :=
  match s with
  | c :: t =>
      match rstrip_chars cs t with
      | [] => if oneof cs c then [] else [c]
      | r => c :: r
      end
  | [] => []
  end.

Definition strip_chars (cs s : str) : str :=
  rstrip_chars cs (lstrip_chars cs s).

(** What the function reads of [md_path]: [md_path.resolve().parts],
    [md_path.parent.name] and [md_path.stem]. *)
Record path := { parts : list str; parent_name : str; stem : str }.

(** [parts[parts.index("apps") + 1]], [None] when [apps] is no part or is
    the last one. *)
Fixpoint after_apps (ps : list str) : option str :=
  match ps with
  | [] => None
  | p :: rest =>
      if str_eqb p (lit "apps") then
        match rest with
        | q :: _ => Some q
        | [] => None
        end
      else after_apps rest
  end.

Section Lowered.

(** [str.lower] *)
Variable lower : str -> str.

Definition slugify (text : str) : str :=
  let s := sub non_alnum_re to_hyphen (lower (Str.strip text)) in
  let s := strip_chars [hyphen] (sub hyphens_re to_hyphen s) in
  match s with
  | [] => lit "app"
  | _ => s
  end.

(** [app_name] is [None] or a string; the empty string counts as none. *)
Definition derive_app_id (app_name : option str) (md_path : path) : str :=
  match app_name with
  | Some (c :: t) => slugify (c :: t)
  | _ =>
      match after_apps (parts md_path) with
      | Some p => slugify p
      | None =>
          slugify (match parent_name md_path with
                   | [] => stem md_path
                   | n => n
                   end)
      end
  end.

End Lowered.

(** [str.lower] on ASCII text *)
Definition ascii_lower (s : str) : str :=
  map (fun c => if between (ch "A") (ch "Z") c then (c + 32)%N else c) s.

(** Each run of characters of the set [p] gives way to one hyphen: the
    last character of a run leaves the hyphen. *)
Fixpoint squash (p : char -> bool) (s : str) : str :=
  match s with
  | [] => []
  | c :: t =>
      if p c then
        match t with
        | c' :: _ => if p c' then squash p t else hyphen :: squash p t
        | [] => [hyphen]
        end
      else c :: squash p t
  end.

(** Letters, digits and single hyphens, a hyphen being followed by a letter
    or digit unless it is the last character. *)
Fixpoint hyphenated (s : str) : bool :=
  match s with
  | [] => true
  | c :: t =>
      if alnum c then hyphenated t
      else N.eqb c hyphen
           && match t with c' :: _ => alnum c' | [] => true end
           && hyphenated t
  end.

(** After a letter or digit of a slug: letters and digits, and single
    hyphens each followed by a letter or digit. *)
Fixpoint slug_tail (s : str) : bool :=
  match s with
  | [] => true
  | c :: t =>
      if alnum c then slug_tail t
      else N.eqb c hyphen
           && match t with c' :: _ => alnum c' | [] => false end
           && slug_tail t
  end.

(** A slug: words of ASCII letters and digits, the words joined by single
    hyphens, at least one word. *)
Definition is_slug (s : str) : bool :=
  match s with
  | c :: t => alnum c && slug_tail t
  | [] => false
  end.

(** Lower-case ASCII letters, digits and hyphens only *)
Definition lower_slug_char (c : char) : bool :=
  between (ch "a") (ch "z") c || between (ch "0") (ch "9") c
  || N.eqb c hyphen.

End Slug.

(** ** Vocabulary for scanning a line *)

Module Scan.

(** The character before the position, [a] further on *)
Definition prev_after (pv : option char) (a : str) : option char :=
  fold_left (fun _ c => Some c) a pv.

(** [^] holds after this character. *)
Definition line_start (pv : option char) : bool :=
  match pv with
  | None => true
  | Some c => N.eqb c LF
  end.

(** Only white space stands between the start of some line of the text and
    the end of the text: what follows the text starts a line, indentation
    and blank lines apart. *)
Fixpoint opens_line (pv : option char) (pre : str) : bool :=
  (line_start pv && forallb ws pre)
  || match pre with
     | c :: t => opens_line (Some c) t
     | [] => false
     end.

(** No line of the text begins, white space apart, with a character of the
    set [q]. *)
Fixpoint label_free (q : char -> bool) (pv : option char) (pre : str)
  : bool :=
  (negb (line_start pv)
   || match DateSpec.drop_while ws pre with
      | c :: _ => negb (q c)
      | [] => true
      end)
  && match pre with
     | c :: t => label_free q (Some c) t
     | [] => true
     end.

(** [(.+?)\s*$], the way the title and the label patterns end *)
Definition line_tail (g : N) : regex :=
  seq [Grp g (Plus false dot); Star true ws; Eol].

End Scan.

(** ** Vocabulary for the inline spans *)

Module InlineShape.

(** Text of one line without a character that opens an inline span. *)
Definition plain_line (s : str) : bool :=
  forallb (fun c => negb (Plain.delimiter c) && negb (N.eqb c LF)) s.





End InlineShape.

(** ** The document: [md_to_json_structure] *)

Module Structure.

Import Datetime Dates Sections Title Slug.

(** The dictionary under the key [metadata] *)
Record metadata := {
  version : str;
  lastUpdated : str;
  effectiveDate : str;
  locale : str
}.

(** The dictionary the function returns *)
Record policy := {
  appId : str;
  title : str;
  sections : list section;
  meta : metadata
}.

(** How the function fails: the [ValueError] of [extract_title_and_app], or
    what [parse_last_updated] raises. *)
Inductive failure :=
| NoTitle
| NoDate (e : exn).

Inductive outcome (A : Type) :=
| Done (a : A)
| Failed (f : failure).

Arguments Done {A} a.
Arguments Failed {A} f.

Section Library.

(** [str.lower] and [datetime.strftime] *)
Variable lower : str -> str.
Variable strftime : datetime -> str -> str.

(** [md_text] is what [md_path.read_text(encoding="utf-8")] returned. *)
Definition md_to_json_structure (md_text : str) (md_path : path)
    (version locale : str) : outcome (policy * datetime) :=
  match extract_title_and_app md_text with
  | None => Failed NoTitle
  | Some (title, app_name) =>
      match parse_last_updated md_text with
      | Raise e => Failed (NoDate e)
      | Ok last_dt =>
          let sections := parse_sections md_text in
          let app_id := derive_app_id lower app_name md_path in
          let effective_iso := strftime last_dt (lit "%Y-%m-%d") in
          Done ({| appId := app_id;
                   title := title;
                   sections := sections;
                   meta := {| version := version;
                              lastUpdated := effective_iso;
                              effectiveDate := effective_iso;
                              locale := locale |} |},
                last_dt)
      end
  end.

End Library.

(** [dt.strftime("%Y-%m-%d")] for a year of four digits *)
Definition iso_date (dt : datetime) : str :=
  DateShape.four_digits (year dt) ++ lit "-"
  ++ DateShape.two_digits (month dt) ++ lit "-"
  ++ DateShape.two_digits (day dt).

(** One line of text without white space at either end *)
Definition trimmed_line (s : str) : Prop :=
  Str.strip s = s /\ ~ In LF s.

End Structure.

(** * Properties *)

(** ** The matcher finds matches *)

Module ReFacts.

Import Sem.

Lemma star_greedy_sound p k r : forall n pv cs e,
  star_greedy p k n pv r cs = Some e ->
  exists s', matches (Star true p)
               {| pos := n; prev := pv; rest := r; caps := cs |} s'
             /\ k s' = Some e.
Proof.
  induction r as [|c t IH]; intros n pv cs e H; simpl in H.
  - eexists; split; [apply M_Star0 | exact H].
  - destruct (p c) eqn:Hp.
    + destruct (star_greedy p k (S n) (Some c) t cs) eqn:Hs.
      * injection H as <-. apply IH in Hs. destruct Hs as (s' & Hm & Hk).
        exists s'. split; [|exact Hk].
        eapply M_StarS with (c := c) (t := t); [reflexivity | exact Hp | exact Hm].
      * eexists; split; [apply M_Star0 | exact H].
    + eexists; split; [apply M_Star0 | exact H].
Qed.

Lemma star_lazy_sound p k r : forall n pv cs e,
  star_lazy p k n pv r cs = Some e ->
  exists s', matches (Star false p)
               {| pos := n; prev := pv; rest := r; caps := cs |} s'
             /\ k s' = Some e.
Proof.
  induction r as [|c t IH]; intros n pv cs e H; simpl in H.
  - destruct (k _) eqn:Hk in H; [|discriminate].
    injection H as <-. eexists; split; [apply M_Star0 | exact Hk].
  - destruct (k _) eqn:Hk in H.
    + injection H as <-. eexists; split; [apply M_Star0 | exact Hk].
    + destruct (p c) eqn:Hp; [|discriminate].
      apply IH in H. destruct H as (s' & Hm & Hk').
      exists s'. split; [|exact Hk'].
      eapply M_StarS with (c := c) (t := t); [reflexivity | exact Hp | exact Hm].
Qed.

(** Whatever [mt] returns, the continuation returned it at the end of a
    match of the pattern. *)
Lemma mt_sound r : forall k s e,
  mt r k s = Some e -> exists s', matches r s s' /\ k s' = Some e.
Proof.
  induction r as [|p|a IHa b IHb|a IHa b IHb|g p|g a IHa| | |p|p];
    intros k s e H; simpl in H.
  - exists s. split; [constructor | exact H].
  - destruct (rest s) as [|c t] eqn:Hr; [discriminate|].
    destruct (p c) eqn:Hp; [|discriminate].
    exists (adv s c t). split; [econstructor; eassumption | exact H].
  - apply IHa in H. destruct H as (s1 & H1 & H).
    apply IHb in H. destruct H as (s2 & H2 & H).
    exists s2. split; [econstructor; eassumption | exact H].
  - destruct (mt a k s) eqn:Ha.
    + injection H as <-. apply IHa in Ha. destruct Ha as (s' & Hm & Hk).
      exists s'. split; [apply M_AltL; exact Hm | exact Hk].
    + apply IHb in H. destruct H as (s' & Hm & Hk).
      exists s'. split; [apply M_AltR; exact Hm | exact Hk].
  - destruct s as [n pv r cs]. destruct g; simpl in H.
    + apply star_greedy_sound in H. exact H.
    + apply star_lazy_sound in H. exact H.
  - apply IHa in H. destruct H as (s1 & H1 & H).
    exists (set_cap g s s1). split; [constructor; exact H1 | exact H].
  - exists s. destruct (prev s) as [c|] eqn:Hp.
    + destruct (N.eqb c LF) eqn:Hc; [|discriminate].
      apply N.eqb_eq in Hc. subst c.
      split; [constructor; right; exact Hp | exact H].
    + split; [constructor; left; exact Hp | exact H].
  - exists s. destruct (rest s) as [|c t] eqn:Hr.
    + split; [constructor; left; exact Hr | exact H].
    + destruct (N.eqb c LF) eqn:Hc; [|discriminate].
      apply N.eqb_eq in Hc. subst c.
      split; [constructor; right; exists t; exact Hr | exact H].
  - exists s. destruct (prev s) as [c|] eqn:Hp.
    + destruct (p c) eqn:Hc; [discriminate|].
      split; [|exact H]. apply M_NotBehind. intros c' Hc'.
      rewrite Hp in Hc'. injection Hc' as <-. exact Hc.
    + split; [|exact H]. apply M_NotBehind. intros c' Hc'.
      rewrite Hp in Hc'. discriminate.
  - exists s. destruct (rest s) as [|c t] eqn:Hr.
    + split; [|exact H]. apply M_NotAhead. intros c' t' Hc'.
      rewrite Hr in Hc'. discriminate.
    + destruct (p c) eqn:Hc; [discriminate|].
      split; [|exact H]. apply M_NotAhead. intros c' t' Hc'.
      rewrite Hr in Hc'. injection Hc' as <- <-. exact Hc.
Qed.

Lemma ahead_refl s : ahead s s [].
Proof. split; [reflexivity | simpl; lia]. Qed.

Lemma ahead_trans s1 s2 s3 p q :
  ahead s1 s2 p -> ahead s2 s3 q -> ahead s1 s3 (p ++ q).
Proof.
  intros [H1 H2] [H3 H4]. split.
  - rewrite H1, H3, app_assoc. reflexivity.
  - rewrite H4, H2, length_app. lia.
Qed.

Lemma Forall_weaken_l (p q : char -> bool) w :
  Forall (fun c => p c = true) w -> Forall (fun c => p c || q c = true) w.
Proof.
  intros H. eapply Forall_impl; [|exact H]. simpl. intros c ->. reflexivity.
Qed.

Lemma Forall_weaken_r (p q : char -> bool) w :
  Forall (fun c => q c = true) w -> Forall (fun c => p c || q c = true) w.
Proof.
  intros H. eapply Forall_impl; [|exact H]. simpl. intros c ->.
  apply orb_true_r.
Qed.

(** A match moves ahead in the subject, over a text that fits the
    pattern. *)
Lemma matches_ahead r s s' :
  matches r s s' -> exists pre, ahead s s' pre /\ fits r pre.
Proof.
  unfold fits. induction 1; simpl.
  - exists []. split; [apply ahead_refl | split; [simpl; lia | constructor]].
  - exists [c]. split; [split; simpl; [assumption | lia]|].
    split; [simpl; lia | constructor; [assumption | constructor]].
  - destruct IHmatches1 as (p1 & A1 & L1 & F1).
    destruct IHmatches2 as (p2 & A2 & L2 & F2).
    exists (p1 ++ p2). split; [eapply ahead_trans; eassumption|].
    split; [rewrite length_app; lia|].
    apply Forall_app. split;
      [apply Forall_weaken_l | apply Forall_weaken_r]; assumption.
  - destruct IHmatches as (p1 & A1 & L1 & F1). exists p1.
    split; [assumption|]. split; [lia | apply Forall_weaken_l; assumption].
  - destruct IHmatches as (p1 & A1 & L1 & F1). exists p1.
    split; [assumption|]. split; [lia | apply Forall_weaken_r; assumption].
  - exists []. split; [apply ahead_refl | split; [simpl; lia | constructor]].
  - destruct IHmatches as (p1 & A1 & L1 & F1). exists (c :: p1).
    split; [|split; [lia | constructor; assumption]].
    destruct A1 as [E1 E2]. simpl in E1, E2. split; simpl.
    + rewrite H, E1. reflexivity.
    + lia.
  - destruct IHmatches as (p1 & A1 & L1 & F1). exists p1.
    split; [|split; assumption].
    destruct A1 as [E1 E2]. split; simpl; assumption.
  - exists []. split; [apply ahead_refl | split; [simpl; lia | constructor]].
  - exists []. split; [apply ahead_refl | split; [simpl; lia | constructor]].
  - exists []. split; [apply ahead_refl | split; [simpl; lia | constructor]].
  - exists []. split; [apply ahead_refl | split; [simpl; lia | constructor]].
Qed.

(** A pattern without groups leaves the captures as they are. *)
Lemma matches_caps {r s s'} :
  matches r s s' -> no_grp r = true -> caps s' = caps s.
Proof.
  induction 1; simpl; intros Hg; try reflexivity; try discriminate.
  - apply andb_prop in Hg. destruct Hg as [G1 G2].
    rewrite (IHmatches2 G2). apply IHmatches1. exact G1.
  - apply andb_prop in Hg. destruct Hg as [G1 _]. apply IHmatches. exact G1.
  - apply andb_prop in Hg. destruct Hg as [_ G2]. apply IHmatches. exact G2.
  - rewrite (IHmatches Hg). reflexivity.
Qed.

(** A group captures the text its pattern took. *)
Lemma matches_group {g a s s'} :
  matches (Grp g a) s s' -> no_grp a = true ->
  exists w, rest s = w ++ rest s'
            /\ pos s' = pos s + length w
            /\ caps s' = (g, {| sp_start := pos s; sp_end := pos s';
                                sp_text := w |}) :: caps s
            /\ fits a w.
Proof.
  intros H Hg. inversion H as [| | | | | | |g' a' s0 s1 Ha| | | |]; subst.
  pose proof (matches_caps Ha Hg) as Hc.
  apply matches_ahead in Ha. destruct Ha as (w & [E1 E2] & F).
  exists w. simpl. split; [exact E1|]. split; [exact E2|].
  split; [|exact F].
  rewrite Hc, E2, E1. f_equal. f_equal. f_equal.
  replace (pos s + length w - pos s) with (length w) by lia.
  rewrite firstn_app, Nat.sub_diag, firstn_all. simpl.
  apply app_nil_r.
Qed.

(** A separator without groups takes some text and captures nothing. *)
Lemma matches_plain {r s s'} :
  matches r s s' -> no_grp r = true ->
  exists w, rest s = w ++ rest s'
            /\ pos s' = pos s + length w
            /\ caps s' = caps s
            /\ fits r w.
Proof.
  intros H Hg. pose proof (matches_caps H Hg) as Hc.
  apply matches_ahead in H. destruct H as (w & [E1 E2] & F).
  exists w. auto.
Qed.

(** Three groups with a separator between each two: the subject is the
    three captured texts and the two separators, in this order. *)
Lemma matches_three_fields g1 a1 sep1 g2 a2 sep2 g3 a3 s e :
  matches (Cat (Grp g1 a1) (Cat sep1 (Cat (Grp g2 a2) (Cat sep2 (Grp g3 a3)))))
          s e ->
  no_grp a1 = true -> no_grp sep1 = true -> no_grp a2 = true ->
  no_grp sep2 = true -> no_grp a3 = true ->
  exists w1 x1 w2 x2 w3 p1 q1 p2 q2 p3 q3,
    rest s = w1 ++ x1 ++ w2 ++ x2 ++ w3 ++ rest e
    /\ pos e = pos s + length (w1 ++ x1 ++ w2 ++ x2 ++ w3)
    /\ caps e = (g3, {| sp_start := p3; sp_end := q3; sp_text := w3 |})
                :: (g2, {| sp_start := p2; sp_end := q2; sp_text := w2 |})
                :: (g1, {| sp_start := p1; sp_end := q1; sp_text := w1 |})
                :: caps s
    /\ fits a1 w1 /\ fits sep1 x1 /\ fits a2 w2 /\ fits sep2 x2
    /\ fits a3 w3.
Proof.
  intros H G1 G2 G3 G4 G5.
  inversion H as [| |? ? ? s1 ? H1 H'| | | | | | | | |]; subst. clear H.
  inversion H' as [| |? ? ? s2 ? H2 H''| | | | | | | | |]; subst. clear H'.
  inversion H'' as [| |? ? ? s3 ? H3 H'| | | | | | | | |]; subst. clear H''.
  inversion H' as [| |? ? ? s4 ? H4 H5| | | | | | | | |]; subst. clear H'.
  destruct (matches_group H1 G1) as (w1 & R1 & P1 & C1 & F1).
  destruct (matches_plain H2 G2) as (x1 & R2 & P2 & C2 & F2).
  destruct (matches_group H3 G3) as (w2 & R3 & P3 & C3 & F3).
  destruct (matches_plain H4 G4) as (x2 & R4 & P4 & C4 & F4).
  destruct (matches_group H5 G5) as (w3 & R5 & P5 & C5 & F5).
  exists w1, x1, w2, x2, w3.
  exists (pos s), (pos s1), (pos s2), (pos s3), (pos s4), (pos e).
  split; [|split; [|split]].
  - rewrite R1, R2, R3, R4, R5. reflexivity.
  - rewrite !length_app. lia.
  - rewrite C5, C4, C3, C2, C1. reflexivity.
  - auto.
Qed.

(** A match object spans a piece of the subject that the pattern matches. *)
Lemma match_at_span r n pv s m :
  match_at r n pv s = Some m ->
  m_start m = n /\
  matches r {| pos := n; prev := pv; rest := s; caps := [] |} (m_final m) /\
  exists pre, s = pre ++ rest (m_final m) /\ m_end m = n + length pre
              /\ min_len r <= length pre.
Proof.
  unfold match_at. intros H.
  destruct (mt r Some _) as [e|] eqn:He; [|discriminate].
  injection H as <-. simpl.
  apply mt_sound in He. destruct He as (s' & Hm & [= ->]).
  split; [reflexivity|]. split; [exact Hm|].
  apply matches_ahead in Hm. destruct Hm as (pre & [E1 E2] & L & _).
  exists pre. simpl in E1, E2. unfold m_end. simpl. auto.
Qed.

Lemma match_at_bounds r n pv s m :
  match_at r n pv s = Some m ->
  m_start m = n /\ n + min_len r <= m_end m /\ m_end m <= n + length s.
Proof.
  intros H. apply match_at_span in H.
  destruct H as (Hs & _ & pre & E & Hend & L).
  split; [exact Hs|]. split; [lia|].
  rewrite Hend, E, length_app. lia.
Qed.

Lemma chained_weaken ms : forall lo lo' hi,
  lo' <= lo -> chained lo ms hi -> chained lo' ms hi.
Proof.
  destruct ms as [|m ms]; simpl; intros lo lo' hi L H.
  - lia.
  - destruct H as (H1 & H2 & H3). repeat split; [lia | exact H2 | exact H3].
Qed.

(** The matches [finditer] yields follow one another inside the subject:
    none starts before the one before it ends, and the last ends within the
    subject. *)
Lemma finditer_from_chained r s : forall n pv skip,
  skip <= length s ->
  chained (n + skip) (finditer_from r n pv s skip) (n + length s).
Proof.
  induction s as [|c t IH]; intros n pv skip L; simpl in L.
  - assert (skip = 0) by lia. subst skip. simpl.
    destruct (match_at r n pv []) as [m|] eqn:Hm; simpl; [|lia].
    apply match_at_bounds in Hm. simpl in Hm. lia.
  - destruct skip as [|k]; simpl.
    + destruct (match_at r n pv (c :: t)) as [m|] eqn:Hm.
      * apply match_at_bounds in Hm. simpl in Hm. simpl.
        split; [lia|]. split; [lia|].
        apply chained_weaken with (lo := S n + (m_end m - n - 1)); [lia|].
        replace (n + S (length t)) with (S n + length t) by lia.
        apply IH. lia.
      * apply chained_weaken with (lo := S n + 0); [lia|].
        replace (n + S (length t)) with (S n + length t) by lia.
        apply IH. lia.
    + replace (n + S k) with (S n + k) by lia.
      replace (n + S (length t)) with (S n + length t) by lia.
      apply IH. lia.
Qed.

Lemma finditer_chained r s : chained 0 (finditer r s) (length s).
Proof. apply (finditer_from_chained r s 0 None 0). lia. Qed.

(** Each match [finditer] yields is a match of the pattern at some position
    of the subject. *)
Lemma finditer_from_In r s : forall n pv skip m,
  In m (finditer_from r n pv s skip) ->
  exists i pv', match_at r (n + i) pv' (skipn i s) = Some m.
Proof.
  induction s as [|c t IH]; intros n pv skip m H.
  - destruct skip; simpl in H; [|contradiction].
    destruct (match_at r n pv []) as [m'|] eqn:Hm; [|contradiction].
    destruct H as [<-|[]]. exists 0, pv. rewrite Nat.add_0_r. exact Hm.
  - assert (Hrec : forall k, In m (finditer_from r (S n) (Some c) t k) ->
              exists i pv', match_at r (n + i) pv' (skipn i (c :: t)) = Some m).
    { intros k Hk. apply IH in Hk. destruct Hk as (i & pv' & Hi).
      exists (S i), pv'. simpl. replace (n + S i) with (S n + i) by lia.
      exact Hi. }
    destruct skip as [|k]; simpl in H.
    + destruct (match_at r n pv (c :: t)) as [m'|] eqn:Hm.
      * destruct H as [<-|H].
        -- exists 0, pv. rewrite Nat.add_0_r. exact Hm.
        -- eapply Hrec; exact H.
      * eapply Hrec; exact H.
    + eapply Hrec; exact H.
Qed.

(** Where the pattern matches nowhere, [finditer] yields nothing and [sub]
    changes nothing. *)
Lemma finditer_from_nil r s : forall n pv skip,
  (forall i pv', match_at r (n + i) pv' (skipn i s) = None) ->
  finditer_from r n pv s skip = [].
Proof.
  intros n pv skip H.
  destruct (finditer_from r n pv s skip) as [|m ms] eqn:E; [reflexivity|].
  destruct (finditer_from_In r s n pv skip m) as (i & pv' & Hi).
  - rewrite E. left. reflexivity.
  - rewrite H in Hi. discriminate.
Qed.

Lemma sub_no_match r repl s :
  finditer r s = [] -> sub r repl s = s.
Proof. unfold sub. intros ->. reflexivity. Qed.

(** A pattern that cannot begin with the character at hand takes nothing. *)
Lemma matches_stuck r s s' :
  matches r s s' ->
  (forall c t, rest s = c :: t -> first r c = false) ->
  rest s' = rest s.
Proof.
  induction 1; intros Hf; simpl in *; try reflexivity.
  - rewrite (Hf c t H) in H0. discriminate.
  - assert (E1 : rest s1 = rest s).
    { apply IHmatches1. intros c t Hr. specialize (Hf c t Hr).
      apply orb_false_elim in Hf. tauto. }
    rewrite <- E1. apply IHmatches2. intros c t Hr.
    rewrite E1 in Hr. specialize (Hf c t Hr).
    apply orb_false_elim in Hf. destruct Hf as [_ Hf].
    apply matches_ahead in H. destruct H as (pre & [A1 A2] & L & _).
    assert (length pre = 0).
    { apply (f_equal (@length _)) in A1. rewrite length_app, E1 in A1. lia. }
    assert (E0 : (min_len a =? 0) = true) by (apply Nat.eqb_eq; lia).
    rewrite E0 in Hf. exact Hf.
  - apply IHmatches. intros c t Hr. specialize (Hf c t Hr).
    apply orb_false_elim in Hf. tauto.
  - apply IHmatches. intros c t Hr. specialize (Hf c t Hr).
    apply orb_false_elim in Hf. tauto.
  - rewrite (Hf c t H) in H0. discriminate.
  - apply IHmatches. exact Hf.
Qed.

Lemma match_at_first r n pv s :
  0 < min_len r ->
  (forall c t, s = c :: t -> first r c = false) ->
  match_at r n pv s = None.
Proof.
  intros L Hf. destruct (match_at r n pv s) as [m|] eqn:Hm; [|reflexivity].
  apply match_at_span in Hm. destruct Hm as (_ & Hm & pre & E & _ & Lp).
  apply matches_stuck in Hm; [|exact Hf]. simpl in Hm.
  rewrite Hm in E. apply (f_equal (@length _)) in E.
  rewrite length_app in E. lia.
Qed.

(** A pattern none of whose matches can begin with a character of the
    subject matches nowhere in it. *)
Lemma finditer_first r s :
  0 < min_len r ->
  Forall (fun c => first r c = false) s ->
  finditer r s = [].
Proof.
  intros L Hs. apply finditer_from_nil. intros i pv'.
  apply match_at_first; [exact L|]. intros c t E.
  assert (Hin : In c s).
  { rewrite <- (firstn_skipn i s), E. apply in_or_app. right. left.
    reflexivity. }
  rewrite Forall_forall in Hs. apply Hs. exact Hin.
Qed.

(** No pattern the program scans a text with matches the empty string, so
    every match [finditer] yields for them takes at least a character. *)
Lemma scanned_patterns_take_text :
  Forall (fun r => 0 < min_len r)
         [ Inline._md_code; Inline._md_strong; Inline._md_em;
           Inline._md_link; Inline._md_two_space_break; Blocks.h3_re;
           Sections.heading_re; Dates.digits_re ].
Proof. repeat constructor; cbn; lia. Qed.

Lemma match_takes_text r n pv s m :
  0 < min_len r -> match_at r n pv s = Some m -> m_start m < m_end m.
Proof.
  intros L H. apply match_at_bounds in H. lia.
Qed.

End ReFacts.


(** ** Inline spans *)

Module InlineFacts.

Import Sem ReFacts Inline Plain.

Lemma delimiter_false c :
  delimiter c = false ->
  N.eqb 96 c = false /\ N.eqb 42 c = false
  /\ N.eqb 95 c = false /\ N.eqb 91 c = false.
Proof.
  unfold delimiter, oneof. cbn -[N.eqb]. intros H.
  repeat (apply orb_false_elim in H; destruct H as [?H H]).
  repeat split; rewrite N.eqb_sym; assumption.
Qed.

(** No span pattern can begin with a character that is not a delimiter. *)
Lemma first_code c : delimiter c = false -> first _md_code c = false.
Proof.
  intros H. apply delimiter_false in H. cbn -[N.eqb]. unfold just.
  destruct H as (-> & _). reflexivity.
Qed.

Lemma first_strong c : delimiter c = false -> first _md_strong c = false.
Proof.
  intros H. apply delimiter_false in H. cbn -[N.eqb]. unfold just.
  destruct H as (_ & -> & -> & _). reflexivity.
Qed.

Lemma first_em c : delimiter c = false -> first _md_em c = false.
Proof.
  intros H. apply delimiter_false in H. cbn -[N.eqb]. unfold just.
  destruct H as (_ & -> & -> & _). reflexivity.
Qed.

Lemma first_link c : delimiter c = false -> first _md_link c = false.
Proof.
  intros H. apply delimiter_false in H. cbn -[N.eqb]. unfold just.
  destruct H as (_ & _ & _ & ->). reflexivity.
Qed.

Lemma no_delimiter_first (r : regex) s :
  (forall c, delimiter c = false -> first r c = false) ->
  forallb (fun c => negb (delimiter c)) s = true ->
  Forall (fun c => first r c = false) s.
Proof.
  intros Hr Hs. rewrite forallb_forall in Hs. apply Forall_forall.
  intros c Hc. apply Hr. specialize (Hs c Hc).
  destruct (delimiter c); [discriminate | reflexivity].
Qed.

(** The hard break matches only where two spaces and a line feed stand. *)
Lemma break_match n pv s m :
  match_at _md_two_space_break n pv s = Some m ->
  Str.startswith (lit "  \n") s = true.
Proof.
  unfold match_at. cbn -[N.eqb]. unfold just, LF.
  destruct s as [|a [|b [|c t]]]; cbn -[N.eqb];
    repeat match goal with
           | |- context [if ?b then _ else _] => destruct b
           end; try discriminate; reflexivity.
Qed.

Lemma has_break_skipn s : forall i,
  has_break s = false -> Str.startswith (lit "  \n") (skipn i s) = false.
Proof.
  induction s as [|a t IH]; intros i H.
  - destruct i; reflexivity.
  - change (has_break (a :: t))
      with (Str.startswith (lit "  \n") (a :: t) || has_break t) in H.
    apply orb_false_elim in H. destruct H as [H1 H2].
    destruct i as [|i]; [exact H1 | apply IH; exact H2].
Qed.

Lemma finditer_break s :
  has_break s = false -> finditer _md_two_space_break s = [].
Proof.
  intros H. apply finditer_from_nil. intros i pv'.
  destruct (match_at _ _ _ _) as [m|] eqn:Hm; [|reflexivity].
  apply break_match in Hm. rewrite has_break_skipn in Hm by exact H.
  discriminate.
Qed.

(** C8. The inline span converter returns a string without Markdown
    delimiters (no backquote, star, underscore or opening bracket, and no two
    spaces before a line feed) unchanged; the empty string is one of them and
    comes back as it is, without an error; and on such a string converting
    twice is converting once. *)
Theorem convert_inline_plain_identity (s : str) :
  plain s = true ->
  convert_inline_markdown s = s
  /\ convert_inline_markdown (convert_inline_markdown s)
     = convert_inline_markdown s
  /\ convert_inline_markdown [] = [].
Proof.
  intros H.
  assert (E : convert_inline_markdown s = s).
  { unfold plain in H. apply andb_prop in H. destruct H as [Hd Hb].
    apply negb_true_iff in Hb.
    unfold convert_inline_markdown. destruct s as [|a t]; [reflexivity|].
    rewrite (sub_no_match _md_code code_repl (a :: t)).
    2:{ apply finditer_first; [cbn; lia|].
        apply no_delimiter_first; [apply first_code | exact Hd]. }
    rewrite (sub_no_match _md_strong _strong_sub (a :: t)).
    2:{ apply finditer_first; [cbn; lia|].
        apply no_delimiter_first; [apply first_strong | exact Hd]. }
    rewrite (sub_no_match _md_em _em_sub (a :: t)).
    2:{ apply finditer_first; [cbn; lia|].
        apply no_delimiter_first; [apply first_em | exact Hd]. }
    rewrite (sub_no_match _md_link link_repl (a :: t)).
    2:{ apply finditer_first; [cbn; lia|].
        apply no_delimiter_first; [apply first_link | exact Hd]. }
    apply sub_no_match. apply finditer_break. exact Hb. }
  split; [exact E|]. split; [rewrite E; exact E | reflexivity].
Qed.

Lemma convert_inline_plain_identity_witness :
  plain (lit "Plain text, no spans.") = true
  /\ convert_inline_markdown (lit "Plain text, no spans.")
     = lit "Plain text, no spans.".
Proof.
  split; [reflexivity|].
  apply (convert_inline_plain_identity (lit "Plain text, no spans.")).
  reflexivity.
Defined.

End InlineFacts.

(** ** The block parser's loop *)

Module BlockFacts.

Import Blocks BlockSpec.

Lemma startswith_dash_space l :
  Str.startswith (lit "- ") l = true -> Str.startswith (lit "-") l = true.
Proof.
  destruct l as [|a t]; simpl; [discriminate|].
  intros H. apply andb_prop in H. destruct H as [-> _]. reflexivity.
Qed.

Lemma startswith_quote_space l :
  Str.startswith (lit "> ") l = true -> Str.startswith (lit ">") l = true.
Proof.
  destruct l as [|a t]; simpl; [discriminate|].
  intros H. apply andb_prop in H. destruct H as [-> _]. reflexivity.
Qed.

Lemma append_last_nonnil items line :
  items <> [] -> append_last items line <> [].
Proof.
  destruct items as [|x [|y t]]; simpl; intros H; congruence.
Qed.

Lemma append_last_snoc items last line :
  append_last (items ++ [last]) line = items ++ [last ++ lit " " ++ line].
Proof.
  induction items as [|x t IH]; [reflexivity|].
  change ((x :: t) ++ [last]) with (x :: (t ++ [last])).
  change (append_last (x :: (t ++ [last])) line)
    with (match t ++ [last] with
          | [] => [x ++ lit " " ++ line]
          | _ :: _ => x :: append_last (t ++ [last]) line
          end).
  destruct (t ++ [last]) eqn:E.
  - destruct t; discriminate.
  - rewrite IH. reflexivity.
Qed.

Lemma app_nonnil {A} (l : list A) x : l ++ [x] <> [].
Proof. destruct l; discriminate. Qed.

Lemma flush_list_inv ul s : open_nonempty s -> open_nonempty (flush_list ul s).
Proof.
  intros [H1 H2]. unfold flush_list.
  destruct (in_list s && nonempty (list_items s)); [|split; assumption].
  split; simpl; [discriminate | exact H2].
Qed.

Lemma flush_quote_inv s : open_nonempty s -> open_nonempty (flush_quote s).
Proof.
  intros [H1 H2]. unfold flush_quote.
  destruct (in_blockquote s && nonempty (blockquote_items s));
    [|split; assumption].
  split; simpl; [exact H1 | discriminate].
Qed.

(** The invariant: a turn of the loop keeps the items of an open run. *)
Lemma step_inv s line : open_nonempty s -> open_nonempty (step s line).
Proof.
  intros Hs. pose proof Hs as [H1 H2]. unfold step.
  destruct (arm_of s (Str.strip line)); simpl.
  1,2: split; simpl; [intros _; apply app_nonnil | exact H2].
  1,2: split; simpl; [exact H1 | intros _; apply app_nonnil].
  - split; simpl; [|exact H2].
    intros H. apply append_last_nonnil. auto.
  - split; simpl; [exact H1|].
    intros H. apply append_last_nonnil. auto.
  - apply flush_quote_inv, flush_list_inv, Hs.
  - destruct (nonempty (Str.strip line)).
    + pose proof (flush_quote_inv _ (flush_list_inv ul_inside _ Hs)) as [F1 F2].
      split; simpl; assumption.
    + apply flush_quote_inv, flush_list_inv, Hs.
Qed.

Lemma fold_step_inv lines : forall s,
  open_nonempty s -> open_nonempty (fold_left step lines s).
Proof.
  induction lines as [|l t IH]; intros s H; simpl; [exact H|].
  apply IH, step_inv, H.
Qed.

Lemma run_inv lines : open_nonempty (run lines).
Proof.
  apply fold_step_inv. split; simpl; discriminate.
Qed.

Lemma nonempty_true {A} (l : list A) : nonempty l = true <-> l <> [].
Proof. destruct l; simpl; split; congruence. Qed.

(** The regular-content arm is only taken with both runs closed. *)
Lemma regular_closed s l :
  arm_of s l = Regular -> in_list s = false /\ in_blockquote s = false.
Proof.
  unfold arm_of.
  destruct (Str.startswith (lit "- ") l); [discriminate|].
  destruct (Str.startswith (lit "-") l); [discriminate|].
  destruct (Str.startswith (lit "> ") l); [discriminate|].
  destruct (Str.startswith (lit ">") l); [discriminate|].
  destruct (in_list s), (in_blockquote s), (nonempty l); simpl;
    try discriminate; auto.
Qed.

(** What a non-empty line does. *)
Lemma step_nonempty_line s line :
  let l := Str.strip line in
  let s' := step s line in
  nonempty l = true ->
  (list_marked l = true ->
     s' = add_list_item s (list_item_of l))
  /\ (list_marked l = false -> quote_marked l = true ->
     s' = add_quote_item s (quote_item_of l))
  /\ (list_marked l = false -> quote_marked l = false ->
      in_list s = true ->
      s' = exec ListCont s l)
  /\ (list_marked l = false -> quote_marked l = false ->
      in_list s = false -> in_blockquote s = true ->
      s' = exec QuoteCont s l).
Proof.
  intros l s' Hl. subst s'. unfold step. fold l.
  unfold list_marked, quote_marked, list_item_of, quote_item_of, arm_of.
  destruct (Str.startswith (lit "- ") l) eqn:E1.
  { rewrite (startswith_dash_space _ E1).
    repeat split; intros; try discriminate; reflexivity. }
  destruct (Str.startswith (lit "-") l) eqn:E2.
  { repeat split; intros; try discriminate; reflexivity. }
  destruct (Str.startswith (lit "> ") l) eqn:E3.
  { rewrite (startswith_quote_space _ E3).
    repeat split; intros; try discriminate; reflexivity. }
  destruct (Str.startswith (lit ">") l) eqn:E4.
  { repeat split; intros; try discriminate; reflexivity. }
  rewrite Hl. repeat split; intros; try discriminate.
  - rewrite H1. reflexivity.
  - rewrite H1, H2. reflexivity.
Qed.

(** A blank line flushes, and a flush closes what is open. *)
Lemma step_blank s line :
  Str.strip line = [] ->
  exists ul, step s line = flush_quote (flush_list ul s).
Proof.
  intros E. unfold step. rewrite E. unfold arm_of.
  cbn [Str.startswith lit nonempty negb]. rewrite !andb_false_r, andb_true_r.
  destruct (in_list s || in_blockquote s).
  - exists ul_outside. reflexivity.
  - exists ul_inside. reflexivity.
Qed.

Lemma flush_both_closed ul s :
  open_nonempty s ->
  in_list (flush_quote (flush_list ul s)) = false
  /\ in_blockquote (flush_quote (flush_list ul s)) = false.
Proof.
  destruct s as [il ib li bi rl]. unfold open_nonempty. simpl.
  intros [I1 I2]. unfold flush_quote, flush_list. cbn.
  destruct il, ib; cbn.
  - destruct li; [exfalso; apply (I1 eq_refl); reflexivity|]. cbn.
    destruct bi; [exfalso; apply (I2 eq_refl); reflexivity|]. cbn. auto.
  - destruct li; [exfalso; apply (I1 eq_refl); reflexivity|]. cbn. auto.
  - destruct bi; [exfalso; apply (I2 eq_refl); reflexivity|]. cbn. auto.
  - auto.
Qed.

Lemma snoc_of_nonnil {A} {l : list A} :
  l <> [] -> exists items last, l = items ++ [last].
Proof.
  intros H. destruct (exists_last H) as (items & last & E).
  exists items, last. exact E.
Qed.

(** C9, as far as the loop goes.  After any lines, and for any next line:
    an open run has items; if the next line is not blank while a run is
    open, nothing is written and no open run closes, a line with a list or
    blockquote marker becomes a new item of the run of that kind (which it
    opens beside the other if it is not open yet), and any other line is
    appended, after a space, to the last item of the open run (the list's
    when both are open); so a turn of the loop closes a run only on a blank
    line, which closes both, and what is open at the end of the input is
    written out then; in the regular-content arm both runs are closed and its
    two flushes do nothing. *)
Theorem open_run_takes_lines (lines : list str) (line : str) :
  let s := run lines in
  let l := Str.strip line in
  let s' := step s line in
  open_nonempty s
  /\ (nonempty l = true -> in_list s || in_blockquote s = true ->
      result_lines s' = result_lines s
      /\ (in_list s = true -> in_list s' = true)
      /\ (in_blockquote s = true -> in_blockquote s' = true)
      /\ (list_marked l = true ->
          in_list s' = true
          /\ list_items s'
             = (if in_list s then list_items s else []) ++ [list_item_of l]
          /\ blockquote_items s' = blockquote_items s)
      /\ (list_marked l = false -> quote_marked l = true ->
          in_blockquote s' = true
          /\ blockquote_items s'
             = (if in_blockquote s then blockquote_items s else [])
               ++ [quote_item_of l]
          /\ list_items s' = list_items s)
      /\ (list_marked l = false -> quote_marked l = false ->
          if in_list s
          then exists items last,
                 list_items s = items ++ [last]
                 /\ list_items s' = items ++ [last ++ lit " " ++ l]
                 /\ blockquote_items s' = blockquote_items s
          else exists items last,
                 blockquote_items s = items ++ [last]
                 /\ blockquote_items s' = items ++ [last ++ lit " " ++ l]
                 /\ list_items s' = list_items s))
  /\ (in_list s = true -> in_list s' = false -> l = [])
  /\ (in_blockquote s = true -> in_blockquote s' = false -> l = [])
  /\ (l = [] -> in_list s' = false /\ in_blockquote s' = false)
  /\ finish s
     = result_lines s
       ++ (if in_list s then render_list ul_outside (list_items s) else [])
       ++ (if in_blockquote s
           then render_quote p_relaxed (blockquote_items s) else [])
  /\ (arm_of s l = Regular ->
      in_list s = false /\ in_blockquote s = false
      /\ flush_quote (flush_list ul_inside s) = s).
Proof.
  intros s l s'.
  pose proof (run_inv lines) as Hinv. fold s in Hinv.
  pose proof (step_nonempty_line s line) as Hstep.
  cbv zeta in Hstep. fold l in Hstep. fold s' in Hstep.
  assert (Hopen : nonempty l = true ->
            (in_list s = true -> in_list s' = true)
            /\ (in_blockquote s = true -> in_blockquote s' = true)).
  { intros Hl. destruct (Hstep Hl) as (A & B & C & D).
    destruct (list_marked l) eqn:Em.
    { rewrite (A eq_refl). simpl. auto. }
    destruct (quote_marked l) eqn:Eq.
    { rewrite (B eq_refl eq_refl). simpl. auto. }
    destruct (in_list s) eqn:Ei.
    { rewrite (C eq_refl eq_refl eq_refl). simpl. auto. }
    split; [discriminate|]. intros Hb.
    rewrite (D eq_refl eq_refl eq_refl Hb). simpl. exact Hb. }
  assert (Hguard : in_list s && nonempty (list_items s) = in_list s
                   /\ in_blockquote s && nonempty (blockquote_items s)
                      = in_blockquote s).
  { destruct Hinv as [I1 I2]. split.
    - destruct (in_list s); [|reflexivity]. simpl.
      apply nonempty_true. auto.
    - destruct (in_blockquote s); [|reflexivity]. simpl.
      apply nonempty_true. auto. }
  split; [exact Hinv|]. split; [|split; [|split; [|split; [|split]]]].
  - intros Hl Ho. destruct (Hstep Hl) as (A & B & C & D).
    destruct (Hopen Hl) as [O1 O2].
    split; [|split; [exact O1|split; [exact O2|split; [|split]]]].
    + destruct (list_marked l) eqn:Em.
      { rewrite (A eq_refl). reflexivity. }
      destruct (quote_marked l) eqn:Eq.
      { rewrite (B eq_refl eq_refl). reflexivity. }
      destruct (in_list s) eqn:Ei.
      { rewrite (C eq_refl eq_refl eq_refl). reflexivity. }
      simpl in Ho. rewrite (D eq_refl eq_refl eq_refl Ho). reflexivity.
    + intros Em. rewrite (A Em). simpl. auto.
    + intros Em Eq. rewrite (B Em Eq). simpl. auto.
    + intros Em Eq. destruct (in_list s) eqn:Ei.
      * destruct Hinv as [I1 _].
        destruct (snoc_of_nonnil (I1 Ei)) as (items & last & E).
        exists items, last. rewrite (C Em Eq eq_refl). simpl.
        rewrite E, append_last_snoc. auto.
      * simpl in Ho. destruct Hinv as [_ I2].
        destruct (snoc_of_nonnil (I2 Ho)) as (items & last & E).
        exists items, last. rewrite (D Em Eq eq_refl Ho). simpl.
        rewrite E, append_last_snoc. auto.
  - intros Hi Hc. destruct l as [|a t] eqn:El; [reflexivity|].
    destruct (Hopen eq_refl) as [O1 _]. rewrite (O1 Hi) in Hc. discriminate.
  - intros Hi Hc. destruct l as [|a t] eqn:El; [reflexivity|].
    destruct (Hopen eq_refl) as [_ O2]. rewrite (O2 Hi) in Hc. discriminate.
  - intros El. subst s'. destruct (step_blank s line El) as (ul & ->).
    apply flush_both_closed. exact Hinv.
  - unfold finish. destruct Hguard as [-> ->]. reflexivity.
  - intros Ha. destruct (regular_closed s l Ha) as [C1 C2].
    split; [exact C1|]. split; [exact C2|].
    unfold flush_quote, flush_list. rewrite C1. simpl. rewrite C2. reflexivity.
Qed.

Lemma open_run_takes_lines_witness :
  let s := run [lit "- a"] in
  nonempty (Str.strip (lit " wrapped")) = true
  /\ in_list s || in_blockquote s = true
  /\ result_lines (step s (lit " wrapped")) = result_lines s
  /\ list_items (step s (lit " wrapped")) = [lit "a wrapped"].
Proof.
  intros s.
  destruct (open_run_takes_lines [lit "- a"] (lit " wrapped"))
    as (_ & H & _).
  specialize (H eq_refl eq_refl).
  destruct H as (R & _ & _ & _ & _ & H).
  specialize (H eq_refl eq_refl).
  split; [reflexivity|]. split; [reflexivity|]. split; [exact R|].
  reflexivity.
Defined.

(** C9, the part the loop does not bear out: with a list open, a line that
    starts with the blockquote marker is not appended to the last list item;
    it opens a blockquote beside the list. *)
Lemma list_absorbs_every_line_fails : ~ list_absorbs_every_line.
Proof.
  intros H.
  specialize (H (run [lit "- a"]) (lit "> b")).
  assert (Hi : open_nonempty (run [lit "- a"])) by apply run_inv.
  specialize (H Hi eq_refl eq_refl).
  vm_compute in H. discriminate.
Qed.

End BlockFacts.

(** ** What the converters write for the specification's examples *)

Module Examples.

Import Inline Blocks Sections.

(** C1. For the body of two list items, a blank line and a line of text the
    block parser writes five lines, the list taking four of them, and joins
    them into one string; the section splitter cuts that string at every line
    feed, so the section's content has five entries: the list does not come
    out as one fragment. *)
Theorem list_body_gives_five_entries :
  html_lines (lit "- a\n- b\n\ntext")
  = [ ul_outside; lit "<li>a</li>"; lit "<li>b</li>"; lit "</ul>";
      lit "<p class=\qmb-4\q>text</p>" ]
  /\ convert_markdown_to_html (lit "- a\n- b\n\ntext")
     = ul_outside
       ++ lit "\n<li>a</li>\n<li>b</li>\n</ul>\n<p class=\qmb-4\q>text</p>"
  /\ parse_sections (lit "## S\n- a\n- b\n\ntext")
     = [ {| heading := lit "S";
            content := [ ul_outside; lit "<li>a</li>"; lit "<li>b</li>";
                         lit "</ul>"; lit "<p class=\qmb-4\q>text</p>" ] |} ].
Proof. repeat split; vm_compute; reflexivity. Qed.

(** C2. A heading line is turned into an [<h3>] element by the first pass,
    and the element then goes through the loop as a line of text like any
    other: with no run open it is wrapped in a paragraph, and with a list or
    a blockquote open it is appended to the last item. *)
Theorem h3_line_goes_through_the_loop :
  html_lines (lit "### Title")
  = [ lit "<p class=\qmb-4\q><h3 class=\qtext-lg font-medium text-gray-900 mt-4 mb-2\q>Title</h3></p>" ]
  /\ html_lines (lit "- a\n### h")
     = [ ul_outside;
         lit "<li>a <h3 class=\qtext-lg font-medium text-gray-900 mt-4 mb-2\q>h</h3></li>";
         lit "</ul>" ]
  /\ BlockSpec.run (Str.split LF (sub h3_re h3_repl (lit "- a\n### h")))
     = {| in_list := true; in_blockquote := false;
          list_items :=
            [ lit "a <h3 class=\qtext-lg font-medium text-gray-900 mt-4 mb-2\q>h</h3>" ];
          blockquote_items := []; result_lines := [] |}.
Proof. repeat split; vm_compute; reflexivity. Qed.

(** C3. The passes run in the order code, bold, italic, link, line break,
    one after another on the whole text, each on the output of the one
    before: the text inside a code element is converted by the bold pass, and
    an underscore in one code element pairs with an underscore in the next.
    The nested example of the specification comes out as a strong element
    around an emphasis element. *)
Theorem later_passes_reach_into_code :
  (forall c t,
     convert_inline_markdown (c :: t)
     = sub _md_two_space_break break_repl
         (sub _md_link link_repl
            (sub _md_em _em_sub
               (sub _md_strong _strong_sub
                  (sub _md_code code_repl (c :: t))))))
  /\ convert_inline_markdown (lit "`**x**`")
  = lit "<code class='bg-gray-100 px-1 py-0.5 rounded text-sm'><strong>x</strong></code>"
  /\ convert_inline_markdown (lit "`a_b` `c_d`")
     = lit "<code class='bg-gray-100 px-1 py-0.5 rounded text-sm'>a<em>b</code> <code class='bg-gray-100 px-1 py-0.5 rounded text-sm'>c</em>d</code>"
  /\ convert_inline_markdown (lit "**bold *and* nested**")
     = lit "<strong>bold <em>and</em> nested</strong>".
Proof.
  split; [intros c t; reflexivity|].
  repeat split; vm_compute; reflexivity.
Qed.

End Examples.

(** ** The section splitter *)

Module SectionFacts.

Import Sem ReFacts Blocks Sections SectionSpec.

Lemma slice_skipn (s : str) a b :
  a <= b -> skipn a s = Str.slice s a b ++ skipn b s.
Proof.
  intros L. unfold Str.slice.
  rewrite <- (firstn_skipn (b - a) (skipn a s)) at 1.
  rewrite skipn_skipn. replace (b - a + a) with b by lia. reflexivity.
Qed.

Lemma slice_to_end (s : str) a : Str.slice s a (length s) = skipn a s.
Proof.
  unfold Str.slice. apply firstn_all2. rewrite length_skipn. lia.
Qed.

(** The document is its preamble followed, heading by heading, by the
    heading match and the text up to the next heading. *)
Lemma pieces_cover md ms : forall lo,
  chained lo ms (length md) ->
  skipn lo md = between md (lo, next_start md ms) ++ pieces md ms.
Proof.
  induction ms as [|m ms IH]; intros lo H; simpl in H |- *.
  - unfold between. simpl. rewrite slice_to_end, app_nil_r. reflexivity.
  - destruct H as (H1 & H2 & H3). unfold between at 1. simpl.
    rewrite (slice_skipn md lo (m_start m) H1).
    rewrite (slice_skipn md (m_start m) (m_end m) H2).
    rewrite (IH _ H3). reflexivity.
Qed.

Lemma sections_of_nth md ms : forall i m,
  nth_error ms i = Some m ->
  nth_error (sections_of md ms) i
  = Some (Str.strip (text (group m 1)),
          (m_end m, next_start md (skipn (S i) ms))).
Proof.
  induction ms as [|m0 ms IH]; intros i m H.
  - destruct i; discriminate.
  - destruct i as [|i]; simpl in H.
    + injection H as ->. simpl. destruct ms; reflexivity.
    + simpl. apply IH. exact H.
Qed.

Lemma sections_of_length md ms : length (sections_of md ms) = length ms.
Proof. induction ms as [|m ms IH]; simpl; [reflexivity | rewrite IH; reflexivity]. Qed.

(** C7, with the trimming the splitter does.  The sections come one per
    match of the second-level heading pattern, in the order of the matches,
    which is the order of the document; the heading of a section is the
    trimmed text its match captured; its content is what the block parser
    makes of the text between the end of its match and the start of the next
    match, or the end of the document, trimmed of white space at both ends;
    the document is its preamble followed, match by match, by the heading
    match and that text, so no two bodies share a character; and a document
    without a match gives no section. *)
Theorem sections_follow_headings (md_text : str) :
  let ms := finditer heading_re md_text in
  let secs := parse_sections md_text in
  length secs = length ms
  /\ chained 0 ms (length md_text)
  /\ (forall i m, nth_error ms i = Some m ->
      exists sec,
        nth_error secs i = Some sec
        /\ heading sec = Str.strip (text (group m 1))
        /\ content sec
           = content_blocks
               (convert_markdown_to_html
                  (Str.strip
                     (between md_text
                        (m_end m,
                         next_start md_text (skipn (S i) ms))))))
  /\ md_text = between md_text (0, next_start md_text ms)
               ++ pieces md_text ms
  /\ (ms = [] -> secs = []).
Proof.
  intros ms secs. subst secs. unfold parse_sections. fold ms.
  split; [rewrite length_map; apply sections_of_length|].
  split; [apply finditer_chained|].
  split; [|split].
  - intros i m H. eexists. split.
    + rewrite nth_error_map, (sections_of_nth md_text ms i m H). reflexivity.
    + split; reflexivity.
  - apply (pieces_cover md_text ms 0). apply finditer_chained.
  - intros ->. reflexivity.
Qed.

Lemma sections_follow_headings_witness :
  let md_text := lit "intro\n## A\n x \n## B\ny" in
  exists m, nth_error (finditer heading_re md_text) 0 = Some m
  /\ exists sec, nth_error (parse_sections md_text) 0 = Some sec
     /\ heading sec = lit "A"
     /\ content sec = [lit "<p class=\qmb-4\q>x</p>"].
Proof.
  intros md_text.
  destruct (sections_follow_headings md_text) as (_ & _ & H & _).
  destruct (nth_error (finditer heading_re md_text) 0) as [m|] eqn:E;
    [|vm_compute in E; discriminate].
  exists m. split; [reflexivity|].
  destruct (H 0 m E) as (sec & H1 & H2 & H3).
  exists sec. split; [exact H1|].
  vm_compute in E. injection E as <-.
  split; [rewrite H2 | rewrite H3]; vm_compute; reflexivity.
Defined.

(** C7, the part the splitter does not bear out: the body is not the text
    between the headings as it stands, it is that text trimmed. *)
Lemma body_is_text_between_fails : ~ body_is_text_between.
Proof.
  intros H.
  specialize (H (lit "## A\n  ### Sub\n## B") (lit "A") (4, 15)).
  assert (Hin : In (lit "A", (4, 15))
                  (sections_of (lit "## A\n  ### Sub\n## B")
                     (finditer heading_re (lit "## A\n  ### Sub\n## B")))).
  { vm_compute. left. reflexivity. }
  specialize (H Hin). vm_compute in H. discriminate.
Qed.

(** The trimming shows in the content: the indented heading line of this
    section stands at the start of the trimmed body, where the first pass of
    the block parser takes it for a heading; in the text as it stands it does
    not. *)
Lemma trimming_shows_in_content :
  let md_text := lit "## A\n  ### Sub\n## B" in
  map content (parse_sections md_text)
  = [ [lit "<p class=\qmb-4\q><h3 class=\qtext-lg font-medium text-gray-900 mt-4 mb-2\q>Sub</h3></p>"]; [] ]
  /\ content_blocks (convert_markdown_to_html (between md_text (4, 15)))
     = [lit "<p class=\qmb-4\q>### Sub</p>"].
Proof. split; vm_compute; reflexivity. Qed.

End SectionFacts.

(** ** Runs of digits *)

Module DigitFacts.

Import Sem ReFacts DateSpec.

Lemma take_drop p s : take_while p s ++ drop_while p s = s.
Proof.
  induction s as [|c t IH]; simpl; [reflexivity|].
  destruct (p c); simpl; [rewrite IH|]; reflexivity.
Qed.

Lemma firstn_take_while p s :
  firstn (length (take_while p s)) s = take_while p s.
Proof.
  induction s as [|c t IH]; simpl; [reflexivity|].
  destruct (p c); simpl; [rewrite IH|]; reflexivity.
Qed.

Lemma skipn_take_while p s :
  skipn (length (take_while p s)) s = drop_while p s.
Proof.
  induction s as [|c t IH]; simpl; [reflexivity|].
  destruct (p c); simpl; [rewrite IH|]; reflexivity.
Qed.

Lemma take_while_length p s : length (take_while p s) <= length s.
Proof.
  induction s as [|c t IH]; simpl; [lia|]. destruct (p c); simpl; lia.
Qed.

Lemma drop_while_length p s : length (drop_while p s) <= length s.
Proof.
  induction s as [|c t IH]; simpl; [lia|]. destruct (p c); simpl; lia.
Qed.

Lemma take_while_all p s : Forall (fun c => p c = true) (take_while p s).
Proof.
  induction s as [|c t IH]; simpl; [constructor|].
  destruct (p c) eqn:E; constructor; assumption.
Qed.

(** A greedy repetition with nothing after it takes the longest run. *)
Lemma star_greedy_longest p r : forall n pv cs,
  exists e, star_greedy p Some n pv r cs = Some e
            /\ pos e = n + length (take_while p r).
Proof.
  induction r as [|c t IH]; intros n pv cs; simpl.
  - eexists. split; [reflexivity | simpl; lia].
  - destruct (p c).
    + destruct (IH (S n) (Some c) cs) as (e & -> & He).
      exists e. split; [reflexivity | simpl; lia].
    + eexists. split; [reflexivity | simpl; lia].
Qed.

(** [\d+] matches where a digit stands, and takes the run that starts
    there. *)
Lemma digits_match n pv c t :
  Unicode.isdecimal c = true ->
  exists m, match_at Dates.digits_re n pv (c :: t) = Some m
            /\ m_start m = n
            /\ m_end m = S n + length (take_while dg t).
Proof.
  intros Hc. unfold match_at, Dates.digits_re, Plus. simpl.
  unfold dg at 1. rewrite Hc.
  destruct (star_greedy_longest dg t (S n) (Some c) []) as (e & -> & He).
  eexists. split; [reflexivity|]. split; [reflexivity | exact He].
Qed.

Lemma digits_no_match n pv s :
  match s with c :: _ => Unicode.isdecimal c = false | [] => True end ->
  match_at Dates.digits_re n pv s = None.
Proof.
  intros H. unfold match_at, Dates.digits_re, Plus. simpl.
  destruct s as [|c t]; [reflexivity|]. unfold dg at 1. rewrite H.
  reflexivity.
Qed.

(** Stepping over the characters of a match *)
Lemma finditer_from_skip r k : forall s n pv,
  k <= length s ->
  exists pv', finditer_from r n pv s k
              = finditer_from r (n + k) pv' (skipn k s) 0.
Proof.
  induction k as [|k IH]; intros s n pv L.
  - exists pv. rewrite Nat.add_0_r. reflexivity.
  - destruct s as [|c t]; simpl in L; [lia|].
    destruct (IH t (S n) (Some c)) as (pv' & E); [lia|].
    exists pv'. simpl. rewrite E.
    replace (n + S k) with (S n + k) by lia. reflexivity.
Qed.

Lemma digit_runs_cons c t :
  Unicode.isdecimal c = true ->
  digit_runs (c :: t)
  = (c :: take_while dg t) :: digit_runs (drop_while dg t).
Proof.
  revert c. induction t as [|c' t IH]; intros c Hc.
  - simpl. rewrite Hc. reflexivity.
  - change (digit_runs (c :: c' :: t))
      with (if Unicode.isdecimal c
            then if Unicode.isdecimal c'
                 then cons_first c (digit_runs (c' :: t))
                 else [c] :: digit_runs (c' :: t)
            else digit_runs (c' :: t)).
    rewrite Hc. simpl take_while. simpl drop_while. unfold dg.
    destruct (Unicode.isdecimal c') eqn:Hc'.
    + rewrite (IH c' Hc'). reflexivity.
    + reflexivity.
Qed.

Lemma digit_runs_skip c t :
  Unicode.isdecimal c = false -> digit_runs (c :: t) = digit_runs t.
Proof. intros H. simpl. rewrite H. reflexivity. Qed.

Lemma slice_app_prefix (pre s : str) k :
  Str.slice (pre ++ s) (length pre) (length pre + k) = firstn k s.
Proof.
  unfold Str.slice. rewrite skipn_app, skipn_all, Nat.sub_diag. simpl.
  replace (length pre + k - length pre) with k by lia. reflexivity.
Qed.

(** [findall] with [\d+] yields the runs of digits, in order. *)
Lemma finditer_digit_runs len : forall s pre n pv,
  length s <= len -> length pre = n ->
  map (group0 (pre ++ s)) (finditer_from Dates.digits_re n pv s 0)
  = digit_runs s.
Proof.
  induction len as [|len IH]; intros s pre n pv L Hn.
  - destruct s; simpl in L; [|lia]. cbn [finditer_from].
    rewrite digits_no_match by exact I. reflexivity.
  - destruct s as [|c t].
    + cbn [finditer_from]. rewrite digits_no_match by exact I. reflexivity.
    + simpl in L. destruct (Unicode.isdecimal c) eqn:Hc.
      * destruct (digits_match n pv c t Hc) as (m & Hm & Hs & He).
        cbn [finditer_from]. rewrite Hm.
        rewrite digit_runs_cons by exact Hc.
        replace (m_end m - n - 1) with (length (take_while dg t)) by lia.
        destruct (finditer_from_skip Dates.digits_re
                    (length (take_while dg t)) t (S n) (Some c)
                    (take_while_length dg t)) as (pv' & ->).
        rewrite skipn_take_while. simpl map. f_equal.
        -- unfold group0. rewrite Hs, He, <- Hn.
           replace (S (length pre) + length (take_while dg t))
             with (length pre + S (length (take_while dg t))) by lia.
           rewrite slice_app_prefix. simpl. rewrite firstn_take_while.
           reflexivity.
        -- rewrite <- (take_drop dg t) at 1.
           replace (pre ++ c :: take_while dg t ++ drop_while dg t)
             with ((pre ++ c :: take_while dg t) ++ drop_while dg t)
             by (rewrite <- app_assoc; reflexivity).
           apply IH.
           ++ pose proof (drop_while_length dg t). lia.
           ++ rewrite length_app. simpl. lia.
      * cbn [finditer_from]. rewrite digits_no_match by exact Hc.
        rewrite digit_runs_skip by exact Hc.
        replace (pre ++ c :: t) with ((pre ++ [c]) ++ t)
          by (rewrite <- app_assoc; reflexivity).
        apply IH; [lia|]. rewrite length_app. simpl. lia.
Qed.

Lemma findall_digit_runs s :
  findall Dates.digits_re s = digit_runs s.
Proof.
  unfold findall, finditer.
  apply (finditer_digit_runs (length s) s [] 0 None); [lia | reflexivity].
Qed.

(** Each run is a non-empty string of digits. *)
Lemma digit_runs_digits len : forall s,
  length s <= len ->
  Forall (fun r => r <> [] /\ Forall (fun c => Unicode.isdecimal c = true) r)
         (digit_runs s).
Proof.
  induction len as [|len IH]; intros s L.
  - destruct s; simpl in L; [constructor | lia].
  - destruct s as [|c t]; [constructor|]. simpl in L.
    destruct (Unicode.isdecimal c) eqn:Hc.
    + rewrite digit_runs_cons by exact Hc. constructor.
      * split; [discriminate|]. constructor; [exact Hc|].
        apply (take_while_all dg t).
      * apply IH. pose proof (drop_while_length dg t). lia.
    + rewrite digit_runs_skip by exact Hc. apply IH. lia.
Qed.

(** No digit is white space. *)
Lemma digit_not_space c :
  Unicode.isdecimal c = true -> Unicode.isspace c = false.
Proof.
  intros Hd. destruct (Unicode.isspace c) eqn:Hs; [exfalso | reflexivity].
  unfold Unicode.isspace in Hs.
  rewrite ?orb_true_iff, ?andb_true_iff, ?N.leb_le, ?N.eqb_eq in Hs.
  assert (Hc : In c [9; 10; 11; 12; 13; 28; 29; 30; 31; 32; 133; 160; 5760;
                     8192; 8193; 8194; 8195; 8196; 8197; 8198; 8199; 8200;
                     8201; 8202; 8232; 8233; 8239; 8287; 12288]%N).
  { simpl. lia. }
  simpl in Hc.
  repeat (destruct Hc as [<-|Hc]; [vm_compute in Hd; discriminate|]).
  exact Hc.
Qed.

Lemma lstrip_head c t :
  Unicode.isspace c = false -> Str.lstrip (c :: t) = c :: t.
Proof. intros H. simpl. rewrite H. reflexivity. Qed.

Lemma strip_no_space s :
  Forall (fun c => Unicode.isspace c = false) s -> Str.strip s = s.
Proof.
  intros H. unfold Str.strip, Str.rstrip.
  assert (E1 : Str.lstrip s = s).
  { destruct s as [|c t]; [reflexivity|]. inversion H; subst.
    apply lstrip_head. assumption. }
  rewrite E1. destruct (rev s) as [|x l] eqn:E.
  - apply (f_equal (@rev _)) in E. rewrite rev_involutive in E. subst s.
    reflexivity.
  - assert (Hx : Unicode.isspace x = false).
    { rewrite Forall_forall in H. apply H. apply in_rev. rewrite E.
      left. reflexivity. }
    rewrite (lstrip_head x l Hx), <- E. apply rev_involutive.
Qed.

Lemma int_digits_some s : forall acc,
  Forall (fun c => Unicode.isdecimal c = true) s ->
  exists v,
    fold_left (fun acc c =>
                 match acc, Unicode.decimal c with
                 | Some v, Some d => Some (10 * v + d)%Z
                 | _, _ => None
                 end) s (Some acc) = Some v.
Proof.
  induction s as [|c t IH]; intros acc H; simpl.
  - exists acc. reflexivity.
  - inversion H as [|c' t' Hc Ht]; subst. unfold Unicode.isdecimal in Hc.
    destruct (Unicode.decimal c) as [d|]; [|discriminate].
    apply IH. exact Ht.
Qed.

(** [int] reads every non-empty string of digits. *)
Lemma int_of_digits r :
  r <> [] -> Forall (fun c => Unicode.isdecimal c = true) r ->
  exists v, Str.int r = Some v.
Proof.
  intros Hne Hd. unfold Str.int.
  rewrite strip_no_space.
  - destruct r as [|c t]; [congruence|].
    apply (int_digits_some (c :: t) 0%Z Hd).
  - eapply Forall_impl; [|exact Hd]. apply digit_not_space.
Qed.

End DigitFacts.

(** ** The date extractor *)

Module DateFacts.

Import Sem ReFacts Datetime Dates.

Lemma first_label_none pats s :
  first_label pats s = None <-> Forall (fun pat => search pat s = None) pats.
Proof.
  induction pats as [|pat pats IH]; simpl.
  - split; [constructor | reflexivity].
  - destruct (search pat s) eqn:E.
    + split; [discriminate|]. intros H. inversion H; subst. congruence.
    + rewrite IH. split; intros H.
      * constructor; assumption.
      * inversion H; assumption.
Qed.

Lemma make_fields y m d dt :
  make y m d = Some dt -> dt = {| year := y; month := m; day := d |}.
Proof.
  unfold make. destruct (_ && _)%bool; [|discriminate].
  intros [= <-]. reflexivity.
Qed.

(** A format of three directives with a separator between each two: a
    string it parses is made of three fields and two separators, and the
    groups of the match hold the fields. *)
Lemma strptime_three_fields data fmt dt g1 a1 sep1 g2 a2 sep2 g3 a3 :
  pattern fmt
  = Some (Cat (Grp g1 a1)
            (Cat sep1 (Cat (Grp g2 a2) (Cat sep2 (Grp g3 a3))))) ->
  no_grp a1 = true -> no_grp sep1 = true -> no_grp a2 = true ->
  no_grp sep2 = true -> no_grp a3 = true ->
  strptime data fmt = Some dt ->
  exists w1 x1 w2 x2 w3 m p1 q1 p2 q2 p3 q3 y mo d,
    data = w1 ++ x1 ++ w2 ++ x2 ++ w3
    /\ caps (m_final m)
       = [ (g3, {| sp_start := p3; sp_end := q3; sp_text := w3 |});
           (g2, {| sp_start := p2; sp_end := q2; sp_text := w2 |});
           (g1, {| sp_start := p1; sp_end := q1; sp_text := w1 |}) ]
    /\ field_year m = Some y /\ field_month m = Some mo
    /\ field_day m = Some d
    /\ dt = {| year := y; month := mo; day := d |}
    /\ fits a1 w1 /\ fits sep1 x1 /\ fits a2 w2 /\ fits sep2 x2
    /\ fits a3 w3.
Proof.
  intros Ep G1 G2 G3 G4 G5 H. unfold strptime in H. rewrite Ep in H.
  destruct (match_ _ data) as [m|] eqn:Hm; [|discriminate].
  destruct (length data =? m_end m) eqn:El; [|discriminate]. simpl in H.
  apply Nat.eqb_eq in El.
  destruct (field_year m) as [y|] eqn:Ey; [|discriminate].
  destruct (field_month m) as [mo|] eqn:Emo; [|discriminate].
  destruct (field_day m) as [d|] eqn:Ed; [|discriminate].
  apply make_fields in H.
  apply match_at_span in Hm. destruct Hm as (_ & Hm & _).
  apply matches_three_fields in Hm; try assumption.
  destruct Hm as (w1 & x1 & w2 & x2 & w3 & p1 & q1 & p2 & q2 & p3 & q3
                  & R & P & C & F).
  simpl in R, P, C.
  exists w1, x1, w2, x2, w3, m, p1, q1, p2, q2, p3, q3, y, mo, d.
  split; [|auto 8].
  assert (Hr : rest (m_final m) = []).
  { apply length_zero_iff_nil. apply (f_equal (@length _)) in R.
    unfold m_end in El. rewrite !length_app in *. lia. }
  rewrite Hr, app_nil_r in R. exact R.
Qed.

(** The separators of the formats hold no digit, and the year is made of
    digits. *)
Lemma slash_no_digit (x : N) c :
  Unicode.isdecimal x = false -> just x c = true ->
  Unicode.isdecimal c = false.
Proof.
  unfold just. intros Hx Hc. apply N.eqb_eq in Hc. subst c. exact Hx.
Qed.

Lemma space_no_digit c :
  ws c || ws c = true -> Unicode.isdecimal c = false.
Proof.
  intros H. rewrite orb_diag in H. unfold ws in H.
  destruct (Unicode.isdecimal c) eqn:E; [|reflexivity].
  rewrite (DigitFacts.digit_not_space c E) in H. discriminate.
Qed.

Lemma year_digits c :
  dg c || (dg c || (dg c || dg c)) = true -> Unicode.isdecimal c = true.
Proof. unfold dg. destruct (Unicode.isdecimal c); auto. Qed.

Lemma fits_nonempty r w : 0 < min_len r -> fits r w -> w <> [].
Proof.
  intros L [H _] ->. simpl in H. lia.
Qed.

(** For a format at hand: take the string apart with
    [strptime_three_fields] and read the fields off the groups. *)
Ltac read_fields H :=
  eapply strptime_three_fields in H;
    [ | cbv -[just dg between ws Unicode.ieq]; reflexivity | reflexivity ..];
  let C := fresh "C" in
  let Hy := fresh "Hy" in
  let Hmo := fresh "Hmo" in
  let Hd := fresh "Hd" in
  destruct H as (w1 & x1 & w2 & x2 & w3 & m & p1 & q1 & p2 & q2 & p3 & q3
                 & y & mo & d & E & C & Hy & Hmo & Hd & -> & F1 & F2 & F3
                 & F4 & F5);
  exists w1, x1, w2, x2, w3;
  unfold field_year, field_month, field_day, group in Hy, Hmo, Hd;
  rewrite C in Hy, Hmo, Hd;
  change g_Y with 89%N in *; change g_m with 109%N in *;
  change g_d with 100%N in *; change g_b with 98%N in *;
  change g_B with 66%N in *;
  cbn [find fst snd sp_text N.eqb Pos.eqb] in Hy, Hmo, Hd;
  cbn [year month day];
  repeat split;
    [ exact E
    | exact Hd
    | auto
    | exact Hy
    | eapply fits_nonempty; [|exact F1]; cbn; lia
    | destruct F2 as [_ F2]; eapply Forall_impl; [|exact F2];
      cbn [alphabet]; intros c;
      first [ apply slash_no_digit; reflexivity | apply space_no_digit ]
    | destruct F4 as [_ F4]; eapply Forall_impl; [|exact F4];
      cbn [alphabet]; intros c;
      first [ apply slash_no_digit; reflexivity | apply space_no_digit ]
    | destruct F5 as [_ F5]; eapply Forall_impl; [|exact F5];
      cbn [alphabet]; intros c; apply year_digits ].

(** Every format reads the day from the first field of the string, the
    month from the second and the year from the third; the fields are set
    apart by separators that hold no digit, and the year is all digits. *)
Lemma strptime_day_month_year fmt data dt :
  In fmt fmts -> strptime data fmt = Some dt ->
  exists D S1 M S2 Y,
    data = D ++ S1 ++ M ++ S2 ++ Y
    /\ Str.int D = Some (day dt)
    /\ (Str.int M = Some (month dt)
        \/ index (lower M) a_month = Some (month dt)
        \/ index (lower M) f_month = Some (month dt))
    /\ Str.int Y = Some (year dt)
    /\ D <> []
    /\ Forall (fun c => Unicode.isdecimal c = false) S1
    /\ Forall (fun c => Unicode.isdecimal c = false) S2
    /\ Forall (fun c => Unicode.isdecimal c = true) Y.
Proof.
  intros Hin H. unfold fmts in Hin. cbn [map In] in Hin.
  destruct Hin as [<-|[<-|[<-|[<-|[<-|[]]]]]]; read_fields H.
Qed.

(** The loop over the formats stops at the first one that parses. *)
Lemma try_formats_first raw fmt dt : forall before after,
  Forall (fun f => strptime raw f = None) before ->
  strptime raw fmt = Some dt ->
  try_formats raw (before ++ fmt :: after) = Some dt.
Proof.
  induction before as [|f before IH]; intros after Hb Hf; simpl.
  - rewrite Hf. reflexivity.
  - inversion Hb as [|? ? H1 H2]; subst. rewrite H1. apply IH; assumption.
Qed.

(** C5. The formats are tried in the order DD/MM/YYYY, DD-MM-YYYY,
    DD.MM.YYYY, DD Mon YYYY, DD Month YYYY, and the first that parses the
    trimmed string gives the date; whichever format parses, the string is a
    day field, a separator, a month field, a separator and a year field, the
    separators without a digit and the year all digits, and the date has the
    day, the month and the year of these fields; and 01/02/2025 is the first
    of February 2025, in each of the five notations. *)
Theorem grammar_priority :
  fmts = map lit ["%d/%m/%Y"; "%d-%m-%Y"; "%d.%m.%Y"; "%d %b %Y";
                  "%d %B %Y"]%string
  /\ (forall raw before fmt after dt,
        fmts = before ++ fmt :: after ->
        Forall (fun f => strptime (Str.strip raw) f = None) before ->
        strptime (Str.strip raw) fmt = Some dt ->
        _try_parse_date raw = Ok dt)
  /\ (forall fmt data dt,
        In fmt fmts -> strptime data fmt = Some dt ->
        exists D S1 M S2 Y,
          data = D ++ S1 ++ M ++ S2 ++ Y
          /\ Str.int D = Some (day dt)
          /\ (Str.int M = Some (month dt)
              \/ index (lower M) a_month = Some (month dt)
              \/ index (lower M) f_month = Some (month dt))
          /\ Str.int Y = Some (year dt)
          /\ D <> []
          /\ Forall (fun c => Unicode.isdecimal c = false) S1
          /\ Forall (fun c => Unicode.isdecimal c = false) S2
          /\ Forall (fun c => Unicode.isdecimal c = true) Y)
  /\ _try_parse_date (lit "01/02/2025")
     = Ok {| year := 2025; month := 2; day := 1 |}
  /\ _try_parse_date (lit "01-02-2025")
     = Ok {| year := 2025; month := 2; day := 1 |}
  /\ _try_parse_date (lit "01.02.2025")
     = Ok {| year := 2025; month := 2; day := 1 |}
  /\ _try_parse_date (lit "01 Feb 2025")
     = Ok {| year := 2025; month := 2; day := 1 |}
  /\ _try_parse_date (lit "01 February 2025")
     = Ok {| year := 2025; month := 2; day := 1 |}.
Proof.
  split; [reflexivity|]. split; [|split].
  - intros raw before fmt after dt E Hb Hf. unfold _try_parse_date.
    rewrite E, (try_formats_first _ _ _ before after Hb Hf). reflexivity.
  - apply strptime_day_month_year.
  - repeat split; vm_compute; reflexivity.
Qed.

Lemma grammar_priority_witness :
  let raw := lit " 01-02-2025 " in
  Forall (fun f => strptime (Str.strip raw) f = None) [lit "%d/%m/%Y"]
  /\ strptime (Str.strip raw) (lit "%d-%m-%Y")
     = Some {| year := 2025; month := 2; day := 1 |}
  /\ _try_parse_date raw = Ok {| year := 2025; month := 2; day := 1 |}.
Proof.
  intros raw.
  assert (Hb : Forall (fun f => strptime (Str.strip raw) f = None)
                      [lit "%d/%m/%Y"]).
  { constructor; [vm_compute; reflexivity | constructor]. }
  assert (Hf : strptime (Str.strip raw) (lit "%d-%m-%Y")
               = Some {| year := 2025; month := 2; day := 1 |}).
  { vm_compute. reflexivity. }
  split; [exact Hb|]. split; [exact Hf|].
  destruct grammar_priority as (_ & H & _).
  apply (H raw [lit "%d/%m/%Y"] (lit "%d-%m-%Y")
           (map lit ["%d.%m.%Y"; "%d %b %Y"; "%d %B %Y"]%string) _
           eq_refl Hb Hf).
Defined.

Lemma normalise_app a b : normalise (a ++ b) = normalise a ++ normalise b.
Proof. unfold normalise, Str.replace. rewrite !flat_map_app. reflexivity. Qed.

(** The end of a label pattern, [$], hands its state on as it is. *)
Lemma eol_keeps (s e : st) :
  match rest s with
  | [] => Some s
  | c :: _ => if N.eqb c LF then Some s else None
  end = Some e -> e = s.
Proof.
  destruct (rest s) as [|c t]; [congruence|].
  destruct (N.eqb c LF); congruence.
Qed.

(** The white space a pattern takes before such an end changes no group. *)
Lemma tail_space_caps k n pv r cs e :
  (forall s e', k s = Some e' -> e' = s) ->
  star_greedy ws k n pv r cs = Some e -> caps e = cs.
Proof.
  intros Hk H. apply star_greedy_sound in H. destruct H as (s' & Hm & He).
  apply Hk in He. subst e. apply (matches_caps Hm). reflexivity.
Qed.

(** A label line at the start of a document, whatever follows it: run the
    matcher on the line, and stop at the white space that may follow. *)
Ltac label_line :=
  unfold search; cbn [lit app]; unfold search_from, match_at; cbn;
  match goal with
  | |- context [star_greedy ws ?k ?n ?pv ?r ?cs] =>
      let E := fresh "E" in
      destruct (star_greedy ws k n pv r cs) as [e|] eqn:E;
      [ apply (tail_space_caps k n pv r cs) in E; [|apply eol_keeps];
        eexists; split; [reflexivity|]; unfold group; cbn; rewrite E;
        reflexivity
      | eexists; split; reflexivity ]
  end.

Lemma last_updated_line_date post :
  exists m,
    search pat_last_updated (lit "Last Updated: 01/02/2025" ++ LF :: post)
    = Some m
    /\ group m 1 = Some (lit "01/02/2025").
Proof. label_line. Qed.

Lemma last_updated_line_word post :
  exists m,
    search pat_last_updated (lit "Last Updated: soon" ++ LF :: post) = Some m
    /\ group m 1 = Some (lit "soon").
Proof. label_line. Qed.

Lemma updated_line_date post :
  exists m,
    search pat_updated (lit "Updated: 03/04/2021" ++ LF :: post) = Some m
    /\ group m 1 = Some (lit "03/04/2021").
Proof. label_line. Qed.

Lemma effective_date_line_date post :
  exists m,
    search pat_effective (lit "Effective Date: 05/06/2020" ++ LF :: post)
    = Some m
    /\ group m 1 = Some (lit "05/06/2020").
Proof. label_line. Qed.

Lemma effective_as_of_line_date post :
  exists m,
    search pat_effective (lit "effective as of 05/06/2020" ++ LF :: post)
    = Some m
    /\ group m 1 = Some (lit "05/06/2020").
Proof. label_line. Qed.

(** C4. The label patterns are searched in the order "last updated",
    "updated", "effective date / effective as of", each over the whole
    document, and the first that is found anywhere gives the string the date
    is parsed from; the numeric pattern is searched only when none of the
    three is found.  So the date of a "Last Updated:" line is taken although
    a numeric date stands before it, or an "Updated" line does, and whatever
    follows the line.  Each pattern is put to work: an "Updated:" line
    gives the date of every document that has no "last updated" line, an
    "Effective Date:" or "effective as of" line that of every document
    that has neither, also when a numeric date stands before the line or
    after it; a label that does not start its line is no label, and the
    numeric pattern decides. *)
Theorem label_priority :
  (forall md_text,
     let s := normalise md_text in
     (forall m, search pat_last_updated s = Some m ->
        parse_last_updated md_text = _try_parse_date (text (group m 1)))
     /\ (search pat_last_updated s = None ->
         forall m, search pat_updated s = Some m ->
           parse_last_updated md_text = _try_parse_date (text (group m 1)))
     /\ (search pat_last_updated s = None -> search pat_updated s = None ->
         forall m, search pat_effective s = Some m ->
           parse_last_updated md_text = _try_parse_date (text (group m 1)))
     /\ (search pat_last_updated s = None -> search pat_updated s = None ->
         search pat_effective s = None ->
         parse_last_updated md_text
         = match search pat_numeric s with
           | Some m => _try_parse_date (text (group m 1))
           | None => Raise NoDateLine
           end))
  /\ (forall rest_of_document,
        parse_last_updated
          (lit "Last Updated: 01/02/2025" ++ LF :: rest_of_document)
        = Ok {| year := 2025; month := 2; day := 1 |})
  /\ parse_last_updated (lit "Ref 12/12/1999\nLast Updated: 01/02/2025\n")
     = Ok {| year := 2025; month := 2; day := 1 |}
  /\ parse_last_updated (lit "Updated: 03/04/2021\nLast Updated: 01/02/2025")
     = Ok {| year := 2025; month := 2; day := 1 |}
  /\ parse_last_updated (lit "Effective Date: 05/06/2020\nUpdated 03.04.2021")
     = Ok {| year := 2021; month := 4; day := 3 |}
  /\ parse_last_updated (lit "Issued 7-8-2019, see below")
     = Ok {| year := 2019; month := 8; day := 7 |}
  /\ (forall rest_of_document,
        let md_text := lit "Updated: 03/04/2021" ++ LF :: rest_of_document in
        search pat_last_updated (normalise md_text) = None ->
        parse_last_updated md_text
        = Ok {| year := 2021; month := 4; day := 3 |})
  /\ (forall rest_of_document,
        let md_text :=
          lit "Effective Date: 05/06/2020" ++ LF :: rest_of_document in
        search pat_last_updated (normalise md_text) = None ->
        search pat_updated (normalise md_text) = None ->
        parse_last_updated md_text
        = Ok {| year := 2020; month := 6; day := 5 |})
  /\ (forall rest_of_document,
        let md_text :=
          lit "effective as of 05/06/2020" ++ LF :: rest_of_document in
        search pat_last_updated (normalise md_text) = None ->
        search pat_updated (normalise md_text) = None ->
        parse_last_updated md_text
        = Ok {| year := 2020; month := 6; day := 5 |})
  /\ parse_last_updated (lit "Ref 12/12/1999\nEffective Date: 05/06/2020\n")
     = Ok {| year := 2020; month := 6; day := 5 |}
  /\ parse_last_updated
       (lit "Effective Date: 05/06/2020\nSee 01/02/2025")
     = Ok {| year := 2020; month := 6; day := 5 |}
  /\ parse_last_updated
       (lit "Effective as of " ++ em_dash
        :: lit " 01 January 2025\nSigned 10/11/2020")
     = Ok {| year := 2025; month := 1; day := 1 |}
  /\ parse_last_updated (lit "  effective   date 5.6.2020")
     = Ok {| year := 2020; month := 6; day := 5 |}
  /\ parse_last_updated
       (lit "Effective Date: 05/06/2020\nLast Updated: 01/02/2025")
     = Ok {| year := 2025; month := 2; day := 1 |}
  /\ parse_last_updated
       (lit "Now effective date: 5 June 2020\nSee 01/02/2025")
     = Ok {| year := 2025; month := 2; day := 1 |}
  /\ parse_last_updated
       (lit "Policy updated: 3 April 2021\nSee 01/02/2025")
     = Ok {| year := 2025; month := 2; day := 1 |}.
Proof.
  assert (Hline : forall pat line cap post dt,
            normalise line = line ->
            (forall p, exists m, search pat (line ++ LF :: p) = Some m
                                 /\ group m 1 = Some cap) ->
            _try_parse_date cap = Ok dt ->
            (forall m, search pat (normalise (line ++ LF :: post)) = Some m ->
               first_label patterns (normalise (line ++ LF :: post))
               = Some m) ->
            parse_last_updated (line ++ LF :: post) = Ok dt).
  { intros pat line cap post dt Hn Hs Hd Hf. unfold parse_last_updated.
    destruct (Hs (normalise post)) as (m & Hm & Hg).
    assert (E : normalise (line ++ LF :: post) = line ++ LF :: normalise post)
      by (rewrite normalise_app, Hn; reflexivity).
    rewrite (Hf m) by (rewrite E; exact Hm).
    rewrite Hg. exact Hd. }
  split.
  - intros md_text s. unfold parse_last_updated. fold s.
    unfold patterns, first_label.
    repeat split.
    + intros m ->. reflexivity.
    + intros -> m ->. reflexivity.
    + intros -> -> m ->. reflexivity.
    + intros -> -> ->. reflexivity.
  - split; [|do 4 (split; [vm_compute; reflexivity|]);
             split; [|split; [|split; [|repeat split;
                                         vm_compute; reflexivity]]]].
    + intros post.
      apply (Hline pat_last_updated _ (lit "01/02/2025") post);
        [reflexivity | apply last_updated_line_date | reflexivity|].
      intros m Hm. unfold patterns, first_label. rewrite Hm. reflexivity.
    + intros post md_text Ha. subst md_text.
      apply (Hline pat_updated _ (lit "03/04/2021") post);
        [reflexivity | apply updated_line_date | reflexivity|].
      intros m Hm. unfold patterns, first_label. rewrite Ha, Hm.
      reflexivity.
    + intros post md_text Ha Hb. subst md_text.
      apply (Hline pat_effective _ (lit "05/06/2020") post);
        [reflexivity | apply effective_date_line_date | reflexivity|].
      intros m Hm. unfold patterns, first_label. rewrite Ha, Hb, Hm.
      reflexivity.
    + intros post md_text Ha Hb. subst md_text.
      apply (Hline pat_effective _ (lit "05/06/2020") post);
        [reflexivity | apply effective_as_of_line_date | reflexivity|].
      intros m Hm. unfold patterns, first_label. rewrite Ha, Hb, Hm.
      reflexivity.
Qed.

Lemma label_priority_witness :
  (let md_text := lit "Updated: 03/04/2021\nLast Updated: 01/02/2025" in
   exists m, search pat_last_updated (normalise md_text) = Some m
   /\ parse_last_updated md_text = _try_parse_date (text (group m 1)))
  /\ (let md_text := lit "Ref 12/12/1999\nEffective as of - 5 June 2020" in
      search pat_last_updated (normalise md_text) = None
      /\ search pat_updated (normalise md_text) = None
      /\ exists m, search pat_effective (normalise md_text) = Some m
         /\ parse_last_updated md_text = _try_parse_date (text (group m 1))
         /\ _try_parse_date (text (group m 1))
            = Ok {| year := 2020; month := 6; day := 5 |}).
Proof.
  destruct label_priority as [H _]. split.
  - intros md_text.
    destruct (search pat_last_updated (normalise md_text)) as [m|] eqn:E;
      [|vm_compute in E; discriminate].
    exists m. split; [reflexivity|].
    destruct (H md_text) as (H1 & _). apply H1. exact E.
  - intros md_text.
    assert (Ea : search pat_last_updated (normalise md_text) = None)
      by (vm_compute; reflexivity).
    assert (Eb : search pat_updated (normalise md_text) = None)
      by (vm_compute; reflexivity).
    split; [exact Ea|]. split; [exact Eb|].
    destruct (search pat_effective (normalise md_text)) as [m|] eqn:E;
      [|vm_compute in E; discriminate].
    exists m. split; [reflexivity|]. split.
    + destruct (H md_text) as (_ & _ & H3 & _). apply (H3 Ea Eb). exact E.
    + vm_compute in E. injection E as <-. vm_compute. reflexivity.
Defined.

(** C10. Once a label pattern is found, the string it captured decides:
    when that string gives no date, the extraction fails with the failure of
    that string, whatever else the document holds.  The numeric pattern is
    tried, and decides alone, only when no label pattern is found anywhere.
    A document that starts with the line "Last Updated: soon" fails on the
    word after the label whatever follows the line; the document of the
    example has a numeric date on its second line. *)
Theorem label_commits :
  (forall md_text m e,
     first_label patterns (normalise md_text) = Some m ->
     _try_parse_date (text (group m 1)) = Raise e ->
     parse_last_updated md_text = Raise e)
  /\ (forall md_text,
        Forall (fun pat => search pat (normalise md_text) = None) patterns ->
        parse_last_updated md_text
        = match search pat_numeric (normalise md_text) with
          | Some m => _try_parse_date (text (group m 1))
          | None => Raise NoDateLine
          end)
  /\ (forall md_text dt,
        parse_last_updated md_text = Ok dt ->
        (exists m, first_label patterns (normalise md_text) = Some m
                   /\ _try_parse_date (text (group m 1)) = Ok dt)
        \/ (Forall (fun pat => search pat (normalise md_text) = None) patterns
            /\ exists m, search pat_numeric (normalise md_text) = Some m
                         /\ _try_parse_date (text (group m 1)) = Ok dt))
  /\ (forall rest_of_document,
        parse_last_updated
          (lit "Last Updated: soon" ++ LF :: rest_of_document)
        = Raise (Unrecognised (lit "soon")))
  /\ (let md_text := lit "Last Updated: soon\nSee 01/02/2025" in
      (exists m, search pat_numeric (normalise md_text) = Some m
                 /\ _try_parse_date (text (group m 1))
                    = Ok {| year := 2025; month := 2; day := 1 |})
      /\ parse_last_updated md_text = Raise (Unrecognised (lit "soon"))).
Proof.
  split; [|split; [|split; [|split]]].
  - intros md_text m e Hm He. unfold parse_last_updated.
    rewrite Hm. exact He.
  - intros md_text H. apply first_label_none in H.
    unfold parse_last_updated. rewrite H. reflexivity.
  - intros md_text dt. unfold parse_last_updated.
    destruct (first_label patterns (normalise md_text)) as [m|] eqn:E.
    + intros H. left. exists m. split; [reflexivity | exact H].
    + intros H. right. split; [apply first_label_none; exact E|].
      destruct (search pat_numeric (normalise md_text)) as [m|];
        [|discriminate].
      exists m. split; [reflexivity | exact H].
  - intros post. unfold parse_last_updated. rewrite normalise_app.
    change (normalise (lit "Last Updated: soon"))
      with (lit "Last Updated: soon").
    change (normalise (LF :: post)) with (LF :: normalise post).
    destruct (last_updated_line_word (normalise post)) as (m & Hs & Hg).
    unfold patterns, first_label. rewrite Hs, Hg.
    vm_compute. reflexivity.
  - intros md_text. split.
    + destruct (search pat_numeric (normalise md_text)) as [m|] eqn:E;
        [|vm_compute in E; discriminate].
      exists m. split; [reflexivity|].
      vm_compute in E. injection E as <-. vm_compute. reflexivity.
    + vm_compute. reflexivity.
Qed.

Lemma label_commits_witness :
  let md_text := lit "Last Updated: soon\nSee 01/02/2025" in
  exists m, first_label patterns (normalise md_text) = Some m
  /\ _try_parse_date (text (group m 1)) = Raise (Unrecognised (lit "soon"))
  /\ parse_last_updated md_text = Raise (Unrecognised (lit "soon")).
Proof.
  intros md_text.
  destruct (first_label patterns (normalise md_text)) as [m|] eqn:E;
    [|vm_compute in E; discriminate].
  exists m. split; [reflexivity|].
  assert (He : _try_parse_date (text (group m 1))
               = Raise (Unrecognised (lit "soon"))).
  { vm_compute in E. injection E as <-. vm_compute. reflexivity. }
  split; [exact He|].
  destruct label_commits as [H _]. exact (H md_text m _ E He).
Defined.

(** C6. When no format parses the trimmed string, the runs of digits of the
    string are taken in order; with fewer than three of them the parse fails
    as unrecognised, which is the specification's MissingDate; with three or
    more the first three are read as day, month and year and handed to the
    date constructor, whose refusal is the specification's InvalidDate.  The
    sentence of the example gives the runs 1, 2 and 2025 and the first of
    February 2025; a day 32 in a month 13 is refused. *)
Theorem digit_fallback :
  (forall raw,
     try_formats (Str.strip raw) fmts = None ->
     let digits := findall digits_re (Str.strip raw) in
     digits = DateSpec.digit_runs (Str.strip raw)
     /\ (length digits < 3 ->
         _try_parse_date raw = Raise (Unrecognised (Str.strip raw)))
     /\ (forall d m y more, digits = d :: m :: y :: more ->
         exists dv mv yv,
           Str.int d = Some dv /\ Str.int m = Some mv /\ Str.int y = Some yv
           /\ _try_parse_date raw
              = match make yv mv dv with
                | Some dt => Ok dt
                | None => Raise OutOfRange
                end))
  /\ (forall raw, kind_of (Unrecognised raw) = MissingDate)
  /\ kind_of OutOfRange = InvalidDate
  /\ (let raw := lit "Updated on the 1st of the 2nd month, 2025" in
      try_formats (Str.strip raw) fmts = None
      /\ findall digits_re (Str.strip raw) = [lit "1"; lit "2"; lit "2025"]
      /\ _try_parse_date raw = Ok {| year := 2025; month := 2; day := 1 |})
  /\ _try_parse_date (lit "32/13/2025") = Raise OutOfRange
  /\ _try_parse_date (lit "the 1st of May")
     = Raise (Unrecognised (lit "the 1st of May")).
Proof.
  split; [|repeat split; vm_compute; reflexivity].
  intros raw Hf digits.
  assert (Hr : digits = DateSpec.digit_runs (Str.strip raw))
    by apply DigitFacts.findall_digit_runs.
  split; [exact Hr|]. unfold _try_parse_date. rewrite Hf. fold digits.
  split.
  - intros L. destruct (3 <=? length digits) eqn:E; [|reflexivity].
    apply Nat.leb_le in E. lia.
  - intros d m y more E.
    pose proof (DigitFacts.digit_runs_digits (length (Str.strip raw))
                  (Str.strip raw) (Nat.le_refl _)) as Hd.
    rewrite <- Hr, E in Hd.
    inversion Hd as [|? ? [N1 D1] Hd1]; subst.
    inversion Hd1 as [|? ? [N2 D2] Hd2]; subst.
    inversion Hd2 as [|? ? [N3 D3] _]; subst.
    destruct (DigitFacts.int_of_digits d N1 D1) as (dv & Ed).
    destruct (DigitFacts.int_of_digits m N2 D2) as (mv & Em).
    destruct (DigitFacts.int_of_digits y N3 D3) as (yv & Ey).
    exists dv, mv, yv. rewrite E. cbn [length Nat.leb firstn map].
    rewrite Ed, Em, Ey. repeat split; reflexivity.
Qed.

Lemma digit_fallback_witness :
  let raw := lit "Updated on the 1st of the 2nd month, 2025" in
  try_formats (Str.strip raw) fmts = None
  /\ findall digits_re (Str.strip raw) = DateSpec.digit_runs (Str.strip raw).
Proof.
  intros raw.
  assert (Hf : try_formats (Str.strip raw) fmts = None)
    by (vm_compute; reflexivity).
  split; [exact Hf|].
  destruct digit_fallback as [H _].
  destruct (H raw Hf) as (H1 & _). exact H1.
Defined.

End DateFacts.

(** * Further properties *)

(** ** Trimming and splitting *)

Module StrFacts.

Lemma lstrip_snoc l c :
  Unicode.isspace c = false -> Str.lstrip (l ++ [c]) = Str.lstrip l ++ [c].
Proof.
  intros Hc. induction l as [|x l IH]; simpl.
  - rewrite Hc. reflexivity.
  - destruct (Unicode.isspace x); [exact IH | reflexivity].
Qed.

Lemma lstrip_shape s :
  Str.lstrip s = []
  \/ exists c t, Str.lstrip s = c :: t /\ Unicode.isspace c = false.
Proof.
  induction s as [|x s IH]; simpl; [left; reflexivity|].
  destruct (Unicode.isspace x) eqn:E; [exact IH|].
  right. exists x, s. auto.
Qed.

Lemma lstrip_idem s : Str.lstrip (Str.lstrip s) = Str.lstrip s.
Proof.
  destruct (lstrip_shape s) as [->|(c & t & -> & Hc)]; [reflexivity|].
  simpl. rewrite Hc. reflexivity.
Qed.

Lemma rstrip_cons c t :
  Unicode.isspace c = false -> Str.rstrip (c :: t) = c :: Str.rstrip t.
Proof.
  intros Hc. unfold Str.rstrip. simpl.
  rewrite (lstrip_snoc _ _ Hc), rev_app_distr. reflexivity.
Qed.

Lemma rstrip_idem s : Str.rstrip (Str.rstrip s) = Str.rstrip s.
Proof.
  unfold Str.rstrip. rewrite rev_involutive, lstrip_idem. reflexivity.
Qed.

(** Trimming: nothing, or a first character that is no white space
    followed by a text trimmed on the right. *)
Lemma strip_shape s :
  Str.strip s = []
  \/ exists c t, Str.lstrip s = c :: t /\ Unicode.isspace c = false
                 /\ Str.strip s = c :: Str.rstrip t.
Proof.
  unfold Str.strip.
  destruct (lstrip_shape s) as [->|(c & t & E & Hc)]; [left; reflexivity|].
  right. exists c, t. rewrite E, (rstrip_cons _ _ Hc). auto.
Qed.

Lemma strip_idem s : Str.strip (Str.strip s) = Str.strip s.
Proof.
  destruct (strip_shape s) as [->|(c & t & E & Hc & ->)]; [reflexivity|].
  unfold Str.strip at 1. simpl. rewrite Hc, (rstrip_cons _ _ Hc), rstrip_idem.
  reflexivity.
Qed.

Lemma lstrip_incl s : incl (Str.lstrip s) s.
Proof.
  induction s as [|x s IH]; simpl; [apply incl_refl|].
  destruct (Unicode.isspace x); [|apply incl_refl].
  apply incl_tl. exact IH.
Qed.

Lemma strip_incl s : incl (Str.strip s) s.
Proof.
  unfold Str.strip, Str.rstrip. intros c Hc.
  apply in_rev in Hc. apply lstrip_incl in Hc. apply in_rev in Hc.
  apply lstrip_incl. exact Hc.
Qed.

Lemma lstrip_blank s :
  forallb Unicode.isspace s = true -> Str.lstrip s = [].
Proof.
  induction s as [|x s IH]; simpl; [reflexivity|].
  intros H. apply andb_prop in H. destruct H as [-> H]. auto.
Qed.

Lemma strip_blank s : forallb Unicode.isspace s = true -> Str.strip s = [].
Proof. intros H. unfold Str.strip. rewrite (lstrip_blank _ H). reflexivity. Qed.

(** The pieces [split] cuts a text into hold no separator. *)
Lemma split_no_sep c s : Forall (fun l => ~ In c l) (Str.split c s).
Proof.
  induction s as [|x s IH]; simpl.
  - constructor; [intros [] | constructor].
  - destruct (N.eqb x c) eqn:E.
    + constructor; [intros [] | exact IH].
    + destruct (Str.split c s) as [|l ls]; [repeat constructor|].
      * intros [->|[]]. rewrite N.eqb_refl in E. discriminate.
      * inversion IH as [|? ? H1 H2]; subst. constructor; [|exact H2].
        intros [->|H]; [rewrite N.eqb_refl in E; discriminate | auto].
Qed.

Lemma lstrip_app_blank a r :
  forallb Unicode.isspace a = true -> Str.lstrip (a ++ r) = Str.lstrip r.
Proof.
  induction a as [|x a IH]; simpl; [reflexivity|].
  intros H. apply andb_prop in H. destruct H as [-> H]. auto.
Qed.

Lemma lstrip_app r b :
  Str.lstrip (r ++ b)
  = match Str.lstrip r with
    | [] => Str.lstrip b
    | _ => Str.lstrip r ++ b
    end.
Proof.
  induction r as [|x r IH]; simpl; [destruct (Str.lstrip b); reflexivity|].
  destruct (Unicode.isspace x); [exact IH | reflexivity].
Qed.

Lemma rstrip_app_blank r b :
  forallb Unicode.isspace b = true -> Str.rstrip (r ++ b) = Str.rstrip r.
Proof.
  intros H. unfold Str.rstrip. rewrite rev_app_distr, lstrip_app_blank.
  - reflexivity.
  - rewrite forallb_forall in *. intros c Hc. apply H, in_rev, Hc.
Qed.

(** White space around a text does not count. *)
Lemma strip_around a r b :
  forallb Unicode.isspace a = true -> forallb Unicode.isspace b = true ->
  Str.strip (a ++ r ++ b) = Str.strip r.
Proof.
  intros Ha Hb. unfold Str.strip.
  rewrite (lstrip_app_blank _ _ Ha), lstrip_app.
  destruct (Str.lstrip r) as [|c t] eqn:E.
  - rewrite (lstrip_blank _ Hb). reflexivity.
  - apply rstrip_app_blank. exact Hb.
Qed.

End StrFacts.

(** ** The block parser's output *)

Module BlockMore.

Import Sem ReFacts Blocks BlockSpec BlockFacts BlockShape.

Lemma written_app ls b :
  written ls -> complete b -> tight b -> written (ls ++ render b).
Proof.
  intros (bs & -> & Hc & Ht) Cb Tb. exists (bs ++ [b]).
  rewrite flat_map_app. simpl. rewrite app_nil_r.
  split; [reflexivity|]. split; apply Forall_app; auto.
Qed.

Lemma flush_list_written s :
  written (result_lines s) ->
  written (result_lines (flush_list ul_outside s)).
Proof.
  intros H. unfold flush_list.
  destruct (in_list s && nonempty (list_items s)) eqn:E; [|exact H].
  apply andb_prop in E. destruct E as [_ E]. apply nonempty_true in E.
  simpl. apply (written_app _ (ListOf (list_items s))); simpl; auto.
Qed.

Lemma flush_quote_written s :
  written (result_lines s) -> written (result_lines (flush_quote s)).
Proof.
  intros H. unfold flush_quote.
  destruct (in_blockquote s && nonempty (blockquote_items s)) eqn:E;
    [|exact H].
  apply andb_prop in E. destruct E as [_ E]. apply nonempty_true in E.
  simpl. apply (written_app _ (QuoteOf false (blockquote_items s)));
    simpl; auto.
Qed.

Lemma regular_flush_id s l :
  arm_of s l = Regular -> flush_quote (flush_list ul_inside s) = s.
Proof.
  intros Ha. destruct (regular_closed s l Ha) as [C1 C2].
  unfold flush_quote, flush_list. rewrite C1. simpl. rewrite C2. reflexivity.
Qed.

Lemma step_written s line :
  written (result_lines s) -> written (result_lines (step s line)).
Proof.
  intros H. unfold step.
  destruct (arm_of s (Str.strip line)) eqn:Ea; simpl; try exact H.
  - apply flush_quote_written, flush_list_written, H.
  - rewrite (regular_flush_id _ _ Ea).
    destruct (nonempty (Str.strip line)) eqn:En; [|exact H]. simpl.
    apply nonempty_true in En.
    apply (written_app _ (Para (Str.strip line))); simpl; auto.
Qed.

Lemma fold_step_written lines : forall s,
  written (result_lines s) ->
  written (result_lines (fold_left step lines s)).
Proof.
  induction lines as [|l t IH]; intros s H; simpl; [exact H|].
  apply IH, step_written, H.
Qed.

(** X1. Whatever the text, the lines the block parser writes are complete
    blocks one after another: a paragraph of a non-empty line, a list with
    its opening line, at least one item and its closing line, or a blockquote
    with its frame and at least one item.  No list or blockquote is left
    open, none is empty, every list opens with the list-outside line, and
    only the last block can be a blockquote closed by the end of the
    input. *)
Theorem html_lines_complete_blocks (text : str) :
  exists bs fin,
    html_lines text = flat_map render (bs ++ fin)
    /\ Forall complete (bs ++ fin)
    /\ Forall tight bs
    /\ (fin = [] \/ exists items, fin = [QuoteOf true items]).
Proof.
  unfold html_lines.
  set (s := fold_left step _ init).
  assert (H : written (result_lines s)).
  { apply fold_step_written. exists []. simpl. auto. }
  unfold finish.
  assert (H1 : written
                 (result_lines s
                  ++ (if in_list s && nonempty (list_items s)
                      then render_list ul_outside (list_items s) else []))).
  { destruct (in_list s && nonempty (list_items s)) eqn:E.
    - apply andb_prop in E. destruct E as [_ E]. apply nonempty_true in E.
      apply (written_app _ (ListOf (list_items s))); simpl; auto.
    - rewrite app_nil_r. exact H. }
  destruct H1 as (bs & E1 & C1 & T1). rewrite app_assoc, E1.
  destruct (in_blockquote s && nonempty (blockquote_items s)) eqn:E.
  - apply andb_prop in E. destruct E as [_ E]. apply nonempty_true in E.
    exists bs, [QuoteOf true (blockquote_items s)].
    rewrite flat_map_app. simpl. rewrite app_nil_r.
    split; [reflexivity|]. split; [apply Forall_app; auto|].
    split; [exact T1|]. right. eexists. reflexivity.
  - exists bs, []. rewrite !app_nil_r. auto.
Qed.

(** The heading pass changes nothing in a text without a number sign. *)
Lemma h3_pass_no_hash text :
  no_hash text = true -> sub h3_re h3_repl text = text.
Proof.
  intros H. apply sub_no_match. apply finditer_first; [cbn; lia|].
  unfold no_hash in H. rewrite forallb_forall in H. apply Forall_forall.
  intros c Hc. specialize (H c Hc). apply negb_true_iff in H.
  cbn -[N.eqb]. unfold just. change (ch "#") with 35%N in H. rewrite H.
  reflexivity.
Qed.

Lemma closed_unmarked_step s line :
  in_list s = false -> in_blockquote s = false -> unmarked line = true ->
  step s line
  = {| in_list := false; in_blockquote := false;
       list_items := list_items s; blockquote_items := blockquote_items s;
       result_lines :=
         result_lines s
         ++ (if nonempty (Str.strip line) then [paragraph (Str.strip line)]
             else []) |}.
Proof.
  intros Hl Hq Hu. unfold unmarked in Hu. apply andb_prop in Hu.
  destruct Hu as [U1 U2]. apply negb_true_iff in U1, U2.
  assert (D : Str.startswith (lit "- ") (Str.strip line) = false).
  { destruct (Str.startswith (lit "- ") _) eqn:E; [|reflexivity].
    rewrite (startswith_dash_space _ E) in U1. discriminate. }
  assert (Q : Str.startswith (lit "> ") (Str.strip line) = false).
  { destruct (Str.startswith (lit "> ") _) eqn:E; [|reflexivity].
    rewrite (startswith_quote_space _ E) in U2. discriminate. }
  unfold step, arm_of. rewrite D, U1, Q, U2, Hl, Hq. simpl.
  unfold flush_quote, flush_list. rewrite Hl. simpl. rewrite Hq. simpl.
  destruct s as [il ib li bi rl]. simpl in *. subst.
  destruct (nonempty (Str.strip line)); simpl;
    [reflexivity | rewrite app_nil_r; reflexivity].
Qed.

Lemma fold_unmarked lines : forall s,
  in_list s = false -> in_blockquote s = false ->
  forallb unmarked lines = true ->
  finish (fold_left step lines s)
  = result_lines s
    ++ map paragraph (filter nonempty (map Str.strip lines)).
Proof.
  induction lines as [|l t IH]; intros s Hl Hq H.
  - simpl. unfold finish. rewrite Hl, Hq. simpl. reflexivity.
  - simpl in H. apply andb_prop in H. destruct H as [Hu H].
    cbn [fold_left]. rewrite (closed_unmarked_step s l Hl Hq Hu).
    rewrite IH by (try reflexivity; exact H). cbn [result_lines map filter].
    rewrite <- app_assoc. f_equal.
    destruct (nonempty (Str.strip l)); reflexivity.
Qed.

(** X2. A text without a number sign in which no line, trimmed, starts with
    a hyphen or a greater-than sign is written as paragraphs: one for each
    line that is not blank, in the order of the lines, each holding its
    trimmed line after inline conversion.  Lines are never merged into one
    paragraph and blank lines write nothing. *)
Theorem unmarked_text_gives_paragraphs (text : str) :
  no_hash text = true ->
  forallb unmarked (Str.split LF text) = true ->
  html_lines text
  = map paragraph
        (filter nonempty (map Str.strip (Str.split LF text))).
Proof.
  intros Hh Hu. unfold html_lines. rewrite (h3_pass_no_hash _ Hh).
  apply (fold_unmarked _ init); auto.
Qed.

Lemma unmarked_text_gives_paragraphs_witness :
  let text := lit "one\n\n  two *words*  \nthree" in
  no_hash text = true
  /\ forallb unmarked (Str.split LF text) = true
  /\ html_lines text
     = [ lit "<p class=\qmb-4\q>one</p>";
         lit "<p class=\qmb-4\q>two <em>words</em></p>";
         lit "<p class=\qmb-4\q>three</p>" ].
Proof.
  intros text. split; [reflexivity|]. split; [reflexivity|].
  rewrite (unmarked_text_gives_paragraphs text eq_refl eq_refl).
  vm_compute. reflexivity.
Defined.

Lemma split_nonnil c s : Str.split c s <> [].
Proof.
  destruct s as [|x s]; simpl; [discriminate|].
  destruct (N.eqb x c); [discriminate|].
  destruct (Str.split c s); discriminate.
Qed.

Lemma marked_nonempty p l :
  p <> [] -> Str.startswith p l = true -> nonempty l = true.
Proof. destruct p, l; simpl; congruence. Qed.

Lemma quote_not_list l : quote_marked l = true -> list_marked l = false.
Proof.
  unfold quote_marked, list_marked. destruct l as [|c r]; [discriminate|].
  cbn -[N.eqb]. intros H. apply andb_prop in H. destruct H as [H _].
  apply N.eqb_eq in H. subst c. reflexivity.
Qed.

Lemma fold_list_marked lines : forall s,
  in_list s = true ->
  forallb (fun l => list_marked (Str.strip l)) lines = true ->
  fold_left step lines s
  = {| in_list := true; in_blockquote := in_blockquote s;
       list_items :=
         list_items s ++ map (fun l => list_item_of (Str.strip l)) lines;
       blockquote_items := blockquote_items s;
       result_lines := result_lines s |}.
Proof.
  induction lines as [|l t IH]; intros s Hs H.
  - simpl. rewrite app_nil_r. destruct s; simpl in *; subst; reflexivity.
  - simpl in H. apply andb_prop in H. destruct H as [Hm H].
    cbn [fold_left].
    destruct (step_nonempty_line s l
                (marked_nonempty (lit "-") _ ltac:(discriminate) Hm))
      as (A & _).
    rewrite (A Hm), IH by (try reflexivity; exact H).
    unfold add_list_item. simpl. rewrite Hs, <- app_assoc. reflexivity.
Qed.

Lemma fold_quote_marked lines : forall s,
  in_blockquote s = true ->
  forallb (fun l => quote_marked (Str.strip l)) lines = true ->
  fold_left step lines s
  = {| in_list := in_list s; in_blockquote := true;
       list_items := list_items s;
       blockquote_items :=
         blockquote_items s
         ++ map (fun l => quote_item_of (Str.strip l)) lines;
       result_lines := result_lines s |}.
Proof.
  induction lines as [|l t IH]; intros s Hs H.
  - simpl. rewrite app_nil_r. destruct s; simpl in *; subst; reflexivity.
  - simpl in H. apply andb_prop in H. destruct H as [Hm H].
    cbn [fold_left].
    pose proof (quote_not_list _ Hm) as Hn.
    destruct (step_nonempty_line s l
                (marked_nonempty (lit ">") _ ltac:(discriminate) Hm))
      as (_ & A & _).
    rewrite (A Hn Hm), IH by (try reflexivity; exact H).
    unfold add_quote_item. simpl. rewrite Hs, <- app_assoc. reflexivity.
Qed.

(** X3. A text without a number sign whose every line, trimmed, starts
    with a hyphen is written as one list: the opening line, one item per
    line of the text in the order of the lines, and the closing line.  The
    item of a line is what follows the hyphen and the space after it, or,
    without that space, what follows the hyphen, trimmed. *)
Theorem marked_text_gives_one_list (text : str) :
  no_hash text = true ->
  forallb (fun l => list_marked (Str.strip l)) (Str.split LF text) = true ->
  html_lines text
  = [ul_outside]
    ++ map (fun l => li (list_item_of (Str.strip l))) (Str.split LF text)
    ++ [lit "</ul>"].
Proof.
  intros Hh Hm. unfold html_lines. rewrite (h3_pass_no_hash _ Hh).
  destruct (Str.split LF text) as [|l t] eqn:E;
    [exfalso; exact (split_nonnil _ _ E)|].
  simpl in Hm. apply andb_prop in Hm. destruct Hm as [H1 H2].
  cbn [fold_left].
  destruct (step_nonempty_line init l
              (marked_nonempty (lit "-") _ ltac:(discriminate) H1))
    as (A & _).
  rewrite (A H1), fold_list_marked by (try reflexivity; exact H2).
  unfold finish, render_list. simpl. rewrite map_map, app_nil_r.
  reflexivity.
Qed.

Lemma marked_text_gives_one_list_witness :
  let text := lit "- one\n-two\n  - three  " in
  no_hash text = true
  /\ forallb (fun l => list_marked (Str.strip l)) (Str.split LF text) = true
  /\ html_lines text
     = [ ul_outside; lit "<li>one</li>"; lit "<li>two</li>";
         lit "<li>three</li>"; lit "</ul>" ].
Proof.
  intros text. split; [reflexivity|]. split; [reflexivity|].
  rewrite (marked_text_gives_one_list text eq_refl eq_refl).
  vm_compute. reflexivity.
Defined.

(** X4. A text without a number sign whose every line, trimmed, starts
    with a greater-than sign is written as one blockquote: the frame around
    one paragraph per line of the text, in the order of the lines, in the
    style of a blockquote that the end of the input closes. *)
Theorem quoted_text_gives_one_blockquote (text : str) :
  no_hash text = true ->
  forallb (fun l => quote_marked (Str.strip l)) (Str.split LF text) = true ->
  html_lines text
  = quote_head
    ++ map (fun l => quote_p p_relaxed (quote_item_of (Str.strip l)))
           (Str.split LF text)
    ++ [lit "</div>"; lit "</div>"; lit "</div>"].
Proof.
  intros Hh Hm. unfold html_lines. rewrite (h3_pass_no_hash _ Hh).
  destruct (Str.split LF text) as [|l t] eqn:E;
    [exfalso; exact (split_nonnil _ _ E)|].
  simpl in Hm. apply andb_prop in Hm. destruct Hm as [H1 H2].
  cbn [fold_left].
  pose proof (quote_not_list _ H1) as Hn.
  destruct (step_nonempty_line init l
              (marked_nonempty (lit ">") _ ltac:(discriminate) H1))
    as (_ & A & _).
  rewrite (A Hn H1), fold_quote_marked by (try reflexivity; exact H2).
  unfold finish, render_quote.
  cbn [in_list in_blockquote list_items blockquote_items result_lines
       andb nonempty app map add_quote_item init].
  rewrite map_map. reflexivity.
Qed.

Lemma quoted_text_gives_one_blockquote_witness :
  let text := lit "> note\n>more" in
  no_hash text = true
  /\ forallb (fun l => quote_marked (Str.strip l)) (Str.split LF text) = true
  /\ html_lines text
     = quote_head
       ++ [ p_relaxed ++ lit "note</p>"; p_relaxed ++ lit "more</p>" ]
       ++ [lit "</div>"; lit "</div>"; lit "</div>"].
Proof.
  intros text. split; [reflexivity|]. split; [reflexivity|].
  rewrite (quoted_text_gives_one_blockquote text eq_refl eq_refl).
  vm_compute. reflexivity.
Defined.

End BlockMore.

(** ** What a pattern cannot do without *)

Module NeedsFacts.

Import Sem ReFacts Needs.

Lemma matches_needs r s s' q :
  matches r s s' -> needs r q ->
  exists c, In c (rest s) /\ q c = true.
Proof.
  induction 1; simpl; intros Hn; try contradiction.
  - exists c. rewrite H. split; [left; reflexivity | auto].
  - destruct Hn as [Hn|Hn].
    + auto.
    + destruct (IHmatches2 Hn) as (c & Hc & Hq).
      apply matches_ahead in H. destruct H as (pre & [E _] & _).
      exists c. rewrite E. split; [apply in_or_app; right; exact Hc | exact Hq].
  - apply IHmatches. tauto.
  - apply IHmatches. tauto.
  - auto.
Qed.

Lemma match_at_needs r q n pv s :
  needs r q -> Forall (fun c => q c = false) s -> match_at r n pv s = None.
Proof.
  intros Hn Hs. destruct (match_at r n pv s) as [m|] eqn:E; [|reflexivity].
  apply match_at_span in E. destruct E as (_ & Hm & _).
  destruct (matches_needs _ _ _ q Hm Hn) as (c & Hc & Hq). simpl in Hc.
  rewrite Forall_forall in Hs. rewrite (Hs c Hc) in Hq. discriminate.
Qed.

Lemma Forall_skipn {A} (P : A -> Prop) i l :
  Forall P l -> Forall P (skipn i l).
Proof.
  intros H. rewrite <- (firstn_skipn i l) in H.
  apply Forall_app in H. tauto.
Qed.

(** A subject without any character of a set a pattern needs holds no
    match of the pattern. *)
Lemma finditer_needs r q s :
  needs r q -> Forall (fun c => q c = false) s -> finditer r s = [].
Proof.
  intros Hn Hs. apply finditer_from_nil. intros i pv'.
  apply (match_at_needs r q); [exact Hn | apply Forall_skipn; exact Hs].
Qed.

Lemma search_from_needs r q s : forall n pv,
  needs r q -> Forall (fun c => q c = false) s -> search_from r n pv s = None.
Proof.
  induction s as [|c t IH]; intros n pv Hn Hs; simpl.
  - rewrite (match_at_needs r q) by assumption. reflexivity.
  - rewrite (match_at_needs r q) by assumption.
    inversion Hs; subst. apply IH; assumption.
Qed.

Lemma search_needs r q s :
  needs r q -> Forall (fun c => q c = false) s -> search r s = None.
Proof. apply search_from_needs. Qed.

Lemma no_hash_forall text :
  BlockShape.no_hash text = true ->
  Forall (fun c => just (ch "#") c = false) text.
Proof.
  unfold BlockShape.no_hash. rewrite forallb_forall. intros H.
  apply Forall_forall. intros c Hc. specialize (H c Hc).
  apply negb_true_iff in H. exact H.
Qed.

(** What a match captures is text of the subject. *)
Lemma matches_caps_incl r s s' (subj : str) :
  matches r s s' ->
  incl (rest s) subj ->
  Forall (fun e => incl (sp_text (snd e)) subj) (caps s) ->
  Forall (fun e => incl (sp_text (snd e)) subj) (caps s')
  /\ incl (rest s') subj.
Proof.
  induction 1; intros Hr Hc; auto.
  - simpl. split; [exact Hc|]. rewrite H in Hr.
    intros x Hx. apply Hr. right. exact Hx.
  - destruct (IHmatches1 Hr Hc) as [C1 R1]. apply IHmatches2; assumption.
  - apply IHmatches; simpl; [|exact Hc]. rewrite H in Hr.
    intros x Hx. apply Hr. right. exact Hx.
  - destruct (IHmatches Hr Hc) as [C1 R1]. simpl. split; [|exact R1].
    constructor; [|exact C1]. simpl.
    intros x Hx. apply Hr.
    rewrite <- (firstn_skipn (pos s' - pos s) (rest s)).
    apply in_or_app. left. exact Hx.
Qed.

Lemma search_from_some r s : forall n pv m,
  search_from r n pv s = Some m ->
  exists i pv', match_at r (n + i) pv' (skipn i s) = Some m.
Proof.
  induction s as [|c t IH]; intros n pv m H; simpl in H.
  - destruct (match_at r n pv []) eqn:E; [|discriminate].
    injection H as <-. exists 0, pv. rewrite Nat.add_0_r. exact E.
  - destruct (match_at r n pv (c :: t)) eqn:E.
    + injection H as <-. exists 0, pv. rewrite Nat.add_0_r. exact E.
    + apply IH in H. destruct H as (i & pv' & Hi).
      exists (S i), pv'. simpl. replace (n + S i) with (S n + i) by lia.
      exact Hi.
Qed.

Lemma skipn_incl {A} i (l : list A) : incl (skipn i l) l.
Proof.
  intros x Hx. rewrite <- (firstn_skipn i l). apply in_or_app. right.
  exact Hx.
Qed.

(** The text of a group of a match that [search] finds is text of the
    subject. *)
Lemma search_group_incl r s m g t :
  search r s = Some m -> group m g = Some t -> incl t s.
Proof.
  intros Hs Hg. apply search_from_some in Hs. destruct Hs as (i & pv' & Hm).
  apply match_at_span in Hm. destruct Hm as (_ & Hm & _).
  apply (matches_caps_incl _ _ _ s) in Hm; simpl.
  - destruct Hm as [Hc _]. unfold group in Hg.
    destruct (find _ (caps (m_final m))) as [e|] eqn:E; [|discriminate].
    injection Hg as <-. apply find_some in E. destruct E as [E _].
    rewrite Forall_forall in Hc. exact (Hc e E).
  - apply skipn_incl.
  - constructor.
Qed.

End NeedsFacts.

(** ** Sections and title: edges *)

Module SectionMore.

Import Sem ReFacts Needs NeedsFacts Blocks Sections SectionSpec SectionFacts
       Title StrFacts.

Lemma heading_needs_hash : needs heading_re (just (ch "#")).
Proof. cbn. right. right. left. left. auto. Qed.

Lemma title_needs_hash : needs title_re (just (ch "#")).
Proof. cbn. right. right. left. auto. Qed.

(** X5. A document without a number sign has no section: the splitter
    returns the empty list, whatever else the document holds. *)
Theorem no_hash_no_section (md_text : str) :
  BlockShape.no_hash md_text = true -> parse_sections md_text = [].
Proof.
  intros H. unfold parse_sections.
  rewrite (finditer_needs heading_re (just (ch "#")));
    [reflexivity | exact heading_needs_hash | apply no_hash_forall; exact H].
Qed.

Lemma no_hash_no_section_witness :
  BlockShape.no_hash (lit "Just text.\n- an item\n") = true
  /\ parse_sections (lit "Just text.\n- an item\n") = [].
Proof.
  split; [reflexivity|].
  apply (no_hash_no_section (lit "Just text.\n- an item\n")). reflexivity.
Defined.

(** X6. A document without a number sign has no title: the title
    extraction raises, whatever else the document holds. *)
Theorem no_hash_no_title (md_text : str) :
  BlockShape.no_hash md_text = true -> extract_title_and_app md_text = None.
Proof.
  intros H. unfold extract_title_and_app.
  rewrite (search_needs title_re (just (ch "#")));
    [reflexivity | exact title_needs_hash | apply no_hash_forall; exact H].
Qed.

Lemma no_hash_no_title_witness :
  BlockShape.no_hash (lit "Privacy Policy (Trail Pacing)\n") = true
  /\ extract_title_and_app (lit "Privacy Policy (Trail Pacing)\n") = None.
Proof.
  split; [reflexivity|].
  apply (no_hash_no_title (lit "Privacy Policy (Trail Pacing)\n")).
  reflexivity.
Defined.

Lemma content_blocks_entries html b :
  In b (content_blocks html) ->
  b <> [] /\ Str.strip b = b /\ ~ In LF b.
Proof.
  unfold content_blocks. intros H. apply in_map_iff in H.
  destruct H as (x & <- & Hx). apply filter_In in Hx.
  destruct Hx as [Hin Hne]. split; [|split].
  - apply BlockFacts.nonempty_true. exact Hne.
  - apply strip_idem.
  - intros Hl. apply strip_incl in Hl.
    pose proof (split_no_sep LF html) as Hs. rewrite Forall_forall in Hs.
    exact (Hs x Hin Hl).
Qed.

(** X7. Every entry of the content of every section is one line of HTML:
    it is not empty, it has no white space at either end, and it holds no
    line feed. *)
Theorem content_entries_are_lines (md_text : str) (sec : section) (b : str) :
  In sec (parse_sections md_text) -> In b (content sec) ->
  b <> [] /\ Str.strip b = b /\ ~ In LF b.
Proof.
  unfold parse_sections. intros Hs Hb. apply in_map_iff in Hs.
  destruct Hs as (hb & <- & _). simpl in Hb.
  eapply content_blocks_entries. exact Hb.
Qed.

Lemma content_entries_are_lines_witness :
  let md_text := lit "## S\n- a\n\n  text  \n" in
  let sec := {| heading := lit "S";
                content := [ ul_outside; lit "<li>a</li>"; lit "</ul>";
                             lit "<p class=\qmb-4\q>text</p>" ] |} in
  In sec (parse_sections md_text)
  /\ In ul_outside (content sec)
  /\ Str.strip ul_outside = ul_outside.
Proof.
  intros md_text sec.
  assert (H1 : In sec (parse_sections md_text)).
  { vm_compute. left. reflexivity. }
  assert (H2 : In ul_outside (content sec)) by (left; reflexivity).
  split; [exact H1|]. split; [exact H2|].
  apply (content_entries_are_lines md_text sec ul_outside H1 H2).
Defined.

(** X8. A section with nothing but white space between its heading and the
    next heading, or the end of the document, has an empty content: no
    entry is written for it, and no error is raised. *)
Theorem blank_body_gives_no_content (md_text : str) (i : nat) (m : mobj) :
  nth_error (finditer heading_re md_text) i = Some m ->
  forallb Unicode.isspace
          (between md_text
             (m_end m,
              next_start md_text
                (skipn (S i) (finditer heading_re md_text)))) = true ->
  exists sec,
    nth_error (parse_sections md_text) i = Some sec
    /\ heading sec = Str.strip (text (group m 1))
    /\ content sec = [].
Proof.
  intros Hm Hb. unfold parse_sections.
  rewrite nth_error_map, (sections_of_nth md_text _ i m Hm). simpl.
  eexists. split; [reflexivity|]. split; [reflexivity|]. simpl.
  unfold body_of. simpl. unfold between in Hb. simpl in Hb.
  rewrite (strip_blank _ Hb). reflexivity.
Qed.

Lemma blank_body_gives_no_content_witness :
  let md_text := lit "## A\n  \n## B" in
  exists m, nth_error (finditer heading_re md_text) 0 = Some m
  /\ exists sec, nth_error (parse_sections md_text) 0 = Some sec
                 /\ heading sec = lit "A" /\ content sec = [].
Proof.
  intros md_text.
  destruct (nth_error (finditer heading_re md_text) 0) as [m|] eqn:E;
    [|vm_compute in E; discriminate].
  exists m. split; [reflexivity|].
  assert (Hb : forallb Unicode.isspace
                 (between md_text
                    (m_end m,
                     next_start md_text
                       (skipn 1 (finditer heading_re md_text)))) = true).
  { vm_compute in E. injection E as <-. vm_compute. reflexivity. }
  destruct (blank_body_gives_no_content md_text 0 m E Hb)
    as (sec & H1 & H2 & H3).
  exists sec. split; [exact H1|]. split; [|exact H3].
  rewrite H2. vm_compute in E. injection E as <-. vm_compute. reflexivity.
Defined.

End SectionMore.

(** ** Dates: what the extractor returns and what it refuses *)

Module DateMore.

Import Sem ReFacts Needs NeedsFacts Datetime Dates DateSpec DigitFacts
       DateFacts StrFacts.

Lemma make_valid y m d dt :
  make y m d = Some dt ->
  (1 <= year dt <= 9999 /\ 1 <= month dt <= 12
   /\ 1 <= day dt <= days_in_month (year dt) (month dt))%Z.
Proof.
  unfold make.
  destruct ((1 <=? y)%Z && (y <=? 9999)%Z && (1 <=? m)%Z && (m <=? 12)%Z
            && (1 <=? d)%Z && (d <=? days_in_month y m)%Z) eqn:E;
    [|discriminate].
  intros [= <-]. simpl.
  repeat (apply andb_prop in E; destruct E as [E ?]).
  rewrite !Z.leb_le in *. lia.
Qed.

Lemma strptime_valid data fmt dt :
  strptime data fmt = Some dt ->
  (1 <= year dt <= 9999 /\ 1 <= month dt <= 12
   /\ 1 <= day dt <= days_in_month (year dt) (month dt))%Z.
Proof.
  unfold strptime. destruct (pattern fmt); [|discriminate].
  destruct (match_ _ _); [|discriminate].
  destruct (negb _); [discriminate|].
  destruct (field_year _); [|discriminate].
  destruct (field_month _); [|discriminate].
  destruct (field_day _); [|discriminate].
  apply make_valid.
Qed.

Lemma try_formats_some raw fs dt :
  try_formats raw fs = Some dt ->
  exists fmt, In fmt fs /\ strptime raw fmt = Some dt.
Proof.
  induction fs as [|f fs IH]; simpl; [discriminate|].
  destruct (strptime raw f) eqn:E.
  - intros [= <-]. exists f. auto.
  - intros H. destruct (IH H) as (fmt & Hin & Hf). exists fmt. auto.
Qed.

Lemma try_parse_valid raw dt :
  _try_parse_date raw = Ok dt ->
  (1 <= year dt <= 9999 /\ 1 <= month dt <= 12
   /\ 1 <= day dt <= days_in_month (year dt) (month dt))%Z.
Proof.
  unfold _try_parse_date.
  destruct (try_formats (Str.strip raw) fmts) as [d|] eqn:E.
  - intros [= <-]. apply try_formats_some in E.
    destruct E as (fmt & _ & Hf). eapply strptime_valid. exact Hf.
  - destruct (3 <=? length _); [|discriminate].
    destruct (map Str.int _) as [|[d|] [|[mth|] [|[y|] [|? ?]]]];
      try discriminate.
    destruct (make y mth d) as [dt'|] eqn:Em; [|discriminate].
    intros [= <-]. eapply make_valid. exact Em.
Qed.

Lemma days_in_month_le y m : (28 <= days_in_month y m <= 31)%Z.
Proof.
  unfold days_in_month. destruct (m =? 2)%Z.
  - destruct (is_leap y); lia.
  - destruct (_ || _); lia.
Qed.

(** X9. A date the extractor returns is a date of the calendar: the year
    is between 1 and 9999, the month between 1 and 12, and the day between 1
    and the number of days of that month in that year, leap years
    counted.  Whatever the document says, no other date comes out. *)
Theorem extracted_date_is_valid (md_text : str) (dt : datetime) :
  parse_last_updated md_text = Ok dt ->
  (1 <= year dt <= 9999 /\ 1 <= month dt <= 12
   /\ 1 <= day dt <= days_in_month (year dt) (month dt)
   /\ day dt <= 31
   /\ (month dt = 2 -> day dt = 29 -> is_leap (year dt) = true))%Z.
Proof.
  unfold parse_last_updated. intros H.
  assert (V : (1 <= year dt <= 9999 /\ 1 <= month dt <= 12
               /\ 1 <= day dt <= days_in_month (year dt) (month dt))%Z).
  { destruct (first_label patterns _).
    - eapply try_parse_valid. exact H.
    - destruct (search pat_numeric _); [|discriminate].
      eapply try_parse_valid. exact H. }
  destruct V as (V1 & V2 & V3).
  pose proof (days_in_month_le (year dt) (month dt)).
  repeat split; try lia.
  intros Em Ed. unfold days_in_month in V3. rewrite Em in V3. simpl in V3.
  destruct (is_leap (year dt)); [reflexivity | lia].
Qed.

Lemma extracted_date_is_valid_witness :
  parse_last_updated (lit "Last Updated: 29 Feb 2024")
  = Ok {| year := 2024; month := 2; day := 29 |}
  /\ is_leap 2024 = true.
Proof.
  assert (H : parse_last_updated (lit "Last Updated: 29 Feb 2024")
              = Ok {| year := 2024; month := 2; day := 29 |})
    by (vm_compute; reflexivity).
  split; [exact H|].
  destruct (extracted_date_is_valid _ _ H) as (_ & _ & _ & _ & L).
  apply L; reflexivity.
Defined.

(** X10. White space before and after a date string does not count: the
    string parses to the same date, or fails in the same way, with or
    without it. *)
Theorem try_parse_ignores_white_space (a raw b : str) :
  forallb Unicode.isspace a = true -> forallb Unicode.isspace b = true ->
  _try_parse_date (a ++ raw ++ b) = _try_parse_date raw.
Proof.
  intros Ha Hb. unfold _try_parse_date.
  rewrite (strip_around a raw b Ha Hb). reflexivity.
Qed.

Lemma try_parse_ignores_white_space_witness :
  _try_parse_date (lit "  \n" ++ lit "1 Jan 2025" ++ lit " ")
  = _try_parse_date (lit "1 Jan 2025").
Proof.
  apply (try_parse_ignores_white_space (lit "  \n") (lit "1 Jan 2025")
           (lit " ")); reflexivity.
Defined.

Lemma fold_int_none s :
  fold_left (fun acc c =>
               match acc, Unicode.decimal c with
               | Some v, Some d => Some (10 * v + d)%Z
               | _, _ => None
               end) s None = None.
Proof. induction s as [|c t IH]; simpl; [reflexivity | exact IH]. Qed.

(** [int] reads no string without a digit. *)
Lemma int_some_digit D v :
  Str.int D = Some v -> exists c, In c D /\ Unicode.isdecimal c = true.
Proof.
  unfold Str.int. destruct (Str.strip D) as [|c t] eqn:E; [discriminate|].
  unfold Str.int_digits. simpl. intros H. exists c. split.
  - apply strip_incl. rewrite E. left. reflexivity.
  - unfold Unicode.isdecimal. destruct (Unicode.decimal c); [reflexivity|].
    rewrite fold_int_none in H. discriminate.
Qed.

Lemma no_digit_forall s :
  DateShape.no_digit s = true ->
  Forall (fun c => Unicode.isdecimal c = false) s.
Proof.
  unfold DateShape.no_digit. rewrite forallb_forall. intros H.
  apply Forall_forall. intros c Hc. apply negb_true_iff. auto.
Qed.

Lemma no_digit_strptime data fmt :
  Forall (fun c => Unicode.isdecimal c = false) data ->
  In fmt fmts -> strptime data fmt = None.
Proof.
  intros Hd Hin. destruct (strptime data fmt) as [dt|] eqn:E; [|reflexivity].
  destruct (strptime_day_month_year fmt data dt Hin E)
    as (D & S1 & M & S2 & Y & Ed & Hi & _).
  apply int_some_digit in Hi. destruct Hi as (c & Hc & Hdig).
  rewrite Forall_forall in Hd. rewrite (Hd c) in Hdig; [discriminate|].
  rewrite Ed. apply in_or_app. left. exact Hc.
Qed.

Lemma try_formats_none raw fs :
  (forall fmt, In fmt fs -> strptime raw fmt = None) ->
  try_formats raw fs = None.
Proof.
  induction fs as [|f fs IH]; intros H; simpl; [reflexivity|].
  rewrite (H f) by (left; reflexivity). apply IH. intros fmt Hin.
  apply H. right. exact Hin.
Qed.

Lemma digit_runs_none s :
  Forall (fun c => Unicode.isdecimal c = false) s -> digit_runs s = [].
Proof.
  induction 1 as [|c t Hc Ht IH]; [reflexivity|].
  rewrite digit_runs_skip by exact Hc. exact IH.
Qed.

Lemma Forall_incl {A} (P : A -> Prop) l l' :
  incl l l' -> Forall P l' -> Forall P l.
Proof.
  intros Hi H. rewrite Forall_forall in *. auto.
Qed.

(** A string without a digit is no date. *)
Lemma no_digit_unrecognised raw :
  Forall (fun c => Unicode.isdecimal c = false) raw ->
  _try_parse_date raw = Raise (Unrecognised (Str.strip raw)).
Proof.
  intros H.
  assert (Hs : Forall (fun c => Unicode.isdecimal c = false) (Str.strip raw))
    by (eapply Forall_incl; [apply strip_incl | exact H]).
  unfold _try_parse_date.
  rewrite try_formats_none
    by (intros fmt Hin; apply no_digit_strptime; assumption).
  rewrite findall_digit_runs, (digit_runs_none _ Hs). reflexivity.
Qed.

Lemma replace_forall (P : char -> Prop) c new s :
  Forall P new -> Forall P s -> Forall P (Str.replace c new s).
Proof.
  intros Hn Hs. unfold Str.replace. induction Hs as [|x t Hx Ht IH]; simpl.
  - constructor.
  - apply Forall_app. split; [|exact IH].
    destruct (N.eqb x c); [exact Hn | constructor; [exact Hx | constructor]].
Qed.

Lemma normalise_no_digit s :
  Forall (fun c => Unicode.isdecimal c = false) s ->
  Forall (fun c => Unicode.isdecimal c = false) (normalise s).
Proof.
  intros H. unfold normalise.
  repeat apply replace_forall; try exact H;
    repeat constructor.
Qed.

Lemma numeric_needs_digit : needs pat_numeric dg.
Proof. cbn. left. auto. Qed.

(** X11. A document without a decimal digit has no date: the extraction
    fails, with the failure the specification calls MissingDate, whatever
    labels the document holds. *)
Theorem no_digit_no_date (md_text : str) :
  DateShape.no_digit md_text = true ->
  exists e, parse_last_updated md_text = Raise e /\ kind_of e = MissingDate.
Proof.
  intros H. apply no_digit_forall in H. apply normalise_no_digit in H.
  unfold parse_last_updated.
  assert (Hlabel : forall pat m, search pat (normalise md_text) = Some m ->
            exists e, _try_parse_date (text (group m 1)) = Raise e
                      /\ kind_of e = MissingDate).
  { intros pat m Hs. exists (Unrecognised (Str.strip (text (group m 1)))).
    split; [|reflexivity].
    apply no_digit_unrecognised.
    destruct (group m 1) as [t|] eqn:Eg; [|constructor]. simpl.
    eapply Forall_incl; [|exact H].
    eapply search_group_incl; eassumption. }
  unfold patterns, first_label.
  destruct (search pat_last_updated _) as [m|] eqn:E1; [eauto|].
  destruct (search pat_updated _) as [m|] eqn:E2; [eauto|].
  destruct (search pat_effective _) as [m|] eqn:E3; [eauto|].
  rewrite (search_needs pat_numeric dg _ numeric_needs_digit H).
  exists NoDateLine. auto.
Qed.

Lemma no_digit_no_date_witness :
  DateShape.no_digit (lit "# Policy\nLast Updated: in January\n") = true
  /\ exists e,
       parse_last_updated (lit "# Policy\nLast Updated: in January\n")
       = Raise e
       /\ kind_of e = MissingDate.
Proof.
  split; [reflexivity|].
  apply (no_digit_no_date (lit "# Policy\nLast Updated: in January\n")).
  reflexivity.
Defined.

End DateMore.

Module SlugFacts.

Import Sem ReFacts DateSpec DigitFacts Slug.

(** [[p]+] matches where a character of the set stands, and takes the run
    that starts there. *)
Lemma plus_match p n pv c t :
  p c = true ->
  exists m, match_at (Plus true p) n pv (c :: t) = Some m
            /\ m_start m = n
            /\ m_end m = S n + length (take_while p t).
Proof.
  intros Hc. unfold match_at, Plus. simpl. rewrite Hc.
  destruct (star_greedy_longest p t (S n) (Some c) []) as (e & -> & He).
  eexists. split; [reflexivity|]. split; [reflexivity | exact He].
Qed.

Lemma plus_no_match p n pv s :
  match s with c :: _ => p c = false | [] => True end ->
  match_at (Plus true p) n pv s = None.
Proof.
  intros H. unfold match_at, Plus. simpl.
  destruct s as [|c t]; [reflexivity|]. rewrite H. reflexivity.
Qed.

Lemma squash_run p c t :
  p c = true -> squash p (c :: t) = hyphen :: squash p (drop_while p t).
Proof.
  revert c. induction t as [|c' t IH]; intros c Hc.
  - simpl. rewrite Hc. reflexivity.
  - change (squash p (c :: c' :: t))
      with (if p c
            then if p c' then squash p (c' :: t)
                 else hyphen :: squash p (c' :: t)
            else c :: squash p (c' :: t)).
    rewrite Hc. simpl drop_while. destruct (p c') eqn:Hc'.
    + apply IH. exact Hc'.
    + reflexivity.
Qed.

Lemma squash_keep p c t :
  p c = false -> squash p (c :: t) = c :: squash p t.
Proof. intros H. simpl. rewrite H. reflexivity. Qed.

Lemma slice_step (pre s : str) c last :
  last <= length pre ->
  Str.slice ((pre ++ [c]) ++ s) last (S (length pre))
  = Str.slice (pre ++ c :: s) last (length pre) ++ [c].
Proof.
  intros L. unfold Str.slice. rewrite <- app_assoc.
  change ([c] ++ s) with (c :: s). rewrite skipn_app.
  replace (last - length pre) with 0 by lia. change (skipn 0 (c :: s)) with (c :: s).
  assert (E : length (skipn last pre) = length pre - last)
    by apply length_skipn.
  replace (S (length pre) - last) with (length (skipn last pre) + 1) by lia.
  replace (length pre - last) with (length (skipn last pre) + 0) by lia.
  rewrite !firstn_app_2. simpl. rewrite app_nil_r. reflexivity.
Qed.

Lemma slice_empty (s : str) n : Str.slice s n n = [].
Proof. unfold Str.slice. rewrite Nat.sub_diag. reflexivity. Qed.

(** Substituting a hyphen for [[p]+] squashes every run of the set. *)
Lemma sub_pieces_squash p len : forall s pre n pv last,
  length s <= len -> length pre = n -> last <= n ->
  sub_pieces to_hyphen (pre ++ s) last (finditer_from (Plus true p) n pv s 0)
  = Str.slice (pre ++ s) last n ++ squash p s.
Proof.
  induction len as [|len IH]; intros s pre n pv last L Hn Hl.
  - destruct s; simpl in L; [|lia]. cbn [finditer_from].
    rewrite plus_no_match by exact I. simpl. rewrite !app_nil_r.
    unfold Str.slice_from, Str.slice. rewrite firstn_all2; [reflexivity|].
    rewrite length_skipn. lia.
  - destruct s as [|c t].
    + cbn [finditer_from]. rewrite plus_no_match by exact I. simpl.
      rewrite !app_nil_r. unfold Str.slice_from, Str.slice.
      rewrite firstn_all2; [reflexivity|]. rewrite length_skipn. lia.
    + simpl in L. destruct (p c) eqn:Hc.
      * destruct (plus_match p n pv c t Hc) as (m & Hm & Hs & He).
        cbn [finditer_from]. rewrite Hm.
        rewrite squash_run by exact Hc.
        replace (m_end m - n - 1) with (length (take_while p t)) by lia.
        destruct (finditer_from_skip (Plus true p)
                    (length (take_while p t)) t (S n) (Some c)
                    (take_while_length p t)) as (pv' & ->).
        rewrite skipn_take_while. cbn [sub_pieces]. rewrite Hs. f_equal.
        unfold to_hyphen. simpl. f_equal.
        rewrite <- (take_drop p t) at 1.
        replace (pre ++ c :: take_while p t ++ drop_while p t)
          with ((pre ++ c :: take_while p t) ++ drop_while p t)
          by (rewrite <- app_assoc; reflexivity).
        rewrite He.
        rewrite IH.
        -- rewrite slice_empty. reflexivity.
        -- pose proof (drop_while_length p t). lia.
        -- rewrite length_app. simpl. lia.
        -- lia.
      * cbn [finditer_from]. rewrite plus_no_match by exact Hc.
        rewrite squash_keep by exact Hc.
        replace (pre ++ c :: t) with ((pre ++ [c]) ++ t) at 1
          by (rewrite <- app_assoc; reflexivity).
        rewrite IH.
        -- subst n. rewrite slice_step by exact Hl.
           rewrite <- app_assoc. reflexivity.
        -- lia.
        -- rewrite length_app. simpl. lia.
        -- lia.
Qed.

Lemma sub_squash p s : sub (Plus true p) to_hyphen s = squash p s.
Proof.
  unfold sub, finditer.
  pose proof (sub_pieces_squash p (length s) s [] 0 None 0
                (le_n _) eq_refl (le_n _)) as E.
  rewrite slice_empty in E. exact E.
Qed.


Lemma squash_hyphenated s : hyphenated (squash non_alnum s) = true.
Proof.
  induction s as [|c t IH]; [reflexivity|].
  destruct (non_alnum c) eqn:Hc.
  - assert (Ha : alnum c = false)
      by (unfold non_alnum in Hc; destruct (alnum c); [discriminate | reflexivity]).
    destruct t as [|c' t'].
    + simpl. rewrite Hc. reflexivity.
    + change (squash non_alnum (c :: c' :: t'))
        with (if non_alnum c
              then if non_alnum c' then squash non_alnum (c' :: t')
                   else hyphen :: squash non_alnum (c' :: t')
              else c :: squash non_alnum (c' :: t')).
      rewrite Hc. destruct (non_alnum c') eqn:Hc'; [exact IH|].
      rewrite squash_keep in * by exact Hc'.
      unfold non_alnum in Hc'.
      destruct (alnum c') eqn:Ha'; [|discriminate].
      change (hyphenated (hyphen :: c' :: squash non_alnum t'))
        with (if alnum hyphen then hyphenated (c' :: squash non_alnum t')
              else N.eqb hyphen hyphen && alnum c'
                   && hyphenated (c' :: squash non_alnum t')).
      rewrite Ha', IH. reflexivity.
  - rewrite squash_keep by exact Hc. unfold non_alnum in Hc.
    simpl. destruct (alnum c); [exact IH | discriminate].
Qed.

Lemma hyphenated_tail c t : hyphenated (c :: t) = true -> hyphenated t = true.
Proof.
  simpl. destruct (alnum c); [auto|].
  rewrite !andb_true_iff. intros [_ H]. exact H.
Qed.

Lemma alnum_not_hyphen c : alnum c = true -> N.eqb hyphen c = false.
Proof.
  intros H. apply N.eqb_neq. intros <-. vm_compute in H. discriminate.
Qed.

(** No two hyphens in a row: [-{2,}] finds nothing. *)
Lemma hyphens_no_match n pv s :
  hyphenated s = true -> match_at hyphens_re n pv s = None.
Proof.
  intros H. unfold match_at, hyphens_re. cbn [seq mt rest].
  destruct s as [|c t]; [reflexivity|].
  unfold just at 1. destruct (N.eqb hyphen c) eqn:Hc; [|reflexivity].
  apply N.eqb_eq in Hc. subst c.
  cbn [adv rest]. destruct t as [|c' t']; [reflexivity|].
  unfold just at 1. destruct (N.eqb hyphen c') eqn:Hc'; [|reflexivity].
  exfalso. simpl in H. apply andb_true_iff in H. destruct H as [H _].
  apply alnum_not_hyphen in H. congruence.
Qed.

Lemma finditer_hyphens s : forall n pv,
  hyphenated s = true -> finditer_from hyphens_re n pv s 0 = [].
Proof.
  induction s as [|c t IH]; intros n pv H; cbn [finditer_from];
    rewrite hyphens_no_match by exact H; [reflexivity|].
  apply IH. eapply hyphenated_tail. exact H.
Qed.

Lemma sub_hyphens s :
  hyphenated s = true -> sub hyphens_re to_hyphen s = s.
Proof.
  intros H. unfold sub, finditer. rewrite finditer_hyphens by exact H.
  reflexivity.
Qed.

Lemma oneof_hyphen c : oneof [hyphen] c = N.eqb c hyphen.
Proof. unfold oneof. simpl. apply orb_false_r. Qed.

Lemma alnum_keeps c : alnum c = true -> oneof [hyphen] c = false.
Proof.
  intros H. rewrite oneof_hyphen, N.eqb_sym. apply alnum_not_hyphen, H.
Qed.

(** What [hyphenated] says of a character that is no letter or digit *)
Lemma hyphenated_hyphen c t :
  alnum c = false -> hyphenated (c :: t) = true ->
  c = hyphen /\ hyphenated t = true
  /\ match t with c' :: _ => alnum c' = true | [] => True end.
Proof.
  intros Ha H. simpl in H. rewrite Ha in H.
  rewrite !andb_true_iff in H. destruct H as [[Hc Hn] Ht].
  apply N.eqb_eq in Hc. repeat split; try assumption.
  destruct t; [exact I | exact Hn].
Qed.

Lemma lstrip_hyphenated s :
  hyphenated s = true ->
  hyphenated (lstrip_chars [hyphen] s) = true
  /\ match lstrip_chars [hyphen] s with
     | c :: _ => alnum c = true
     | [] => True
     end.
Proof.
  intros H. destruct s as [|c t]; [split; [reflexivity | exact I]|].
  destruct (alnum c) eqn:Ha.
  - cbn [lstrip_chars]. rewrite (alnum_keeps c Ha). split; assumption.
  - destruct (hyphenated_hyphen c t Ha H) as (-> & Ht & Hn).
    cbn [lstrip_chars]. rewrite oneof_hyphen, N.eqb_refl.
    destruct t as [|c' t']; [split; [reflexivity | exact I]|].
    cbn [lstrip_chars]. rewrite (alnum_keeps c' Hn). split; assumption.
Qed.

Lemma rstrip_chars_cons cs c t x r :
  rstrip_chars cs t = x :: r -> rstrip_chars cs (c :: t) = c :: x :: r.
Proof. intros E. simpl. rewrite E. reflexivity. Qed.

Lemma rstrip_hyphenated len : forall t c,
  length t <= len -> alnum c = true -> hyphenated t = true ->
  exists r, rstrip_chars [hyphen] (c :: t) = c :: r /\ slug_tail r = true.
Proof.
  induction len as [|len IH]; intros t c L Hc Ht.
  - destruct t; simpl in L; [|lia]. exists []. cbn [rstrip_chars].
    rewrite (alnum_keeps c Hc). split; reflexivity.
  - destruct t as [|d t'].
    + exists []. cbn [rstrip_chars]. rewrite (alnum_keeps c Hc). split; reflexivity.
    + simpl in L. destruct (alnum d) eqn:Hd.
      * destruct (IH t' d) as (r & Er & Hr);
          [lia | exact Hd | exact (hyphenated_tail _ _ Ht) |].
        exists (d :: r). split.
        -- apply rstrip_chars_cons. exact Er.
        -- simpl. rewrite Hd. exact Hr.
      * destruct (hyphenated_hyphen d t' Hd Ht) as (-> & Ht' & Hn).
        destruct t' as [|e t''].
        -- exists []. cbn [rstrip_chars].
           rewrite (oneof_hyphen hyphen), N.eqb_refl, (alnum_keeps c Hc).
           split; reflexivity.
        -- simpl in L.
           destruct (IH t'' e) as (r & Er & Hr);
             [lia | exact Hn | exact (hyphenated_tail _ _ Ht') |].
           exists (hyphen :: e :: r). split.
           ++ apply rstrip_chars_cons, rstrip_chars_cons. exact Er.
           ++ change (slug_tail (hyphen :: e :: r))
                with (N.eqb hyphen hyphen && alnum e
                      && (if alnum e then slug_tail r
                          else N.eqb e hyphen
                               && match r with
                                  | c' :: _ => alnum c'
                                  | [] => false
                                  end && slug_tail r)).
              rewrite Hn, Hr. reflexivity.
Qed.

(** Trimming the hyphens of a hyphenated string leaves a slug or nothing. *)
Lemma strip_hyphenated s :
  hyphenated s = true ->
  strip_chars [hyphen] s = [] \/ is_slug (strip_chars [hyphen] s) = true.
Proof.
  intros H. unfold strip_chars.
  destruct (lstrip_hyphenated s H) as [Hh Hn].
  destruct (lstrip_chars [hyphen] s) as [|c t]; [left; reflexivity|].
  right.
  destruct (rstrip_hyphenated (length t) t c (le_n _) Hn
              (hyphenated_tail _ _ Hh)) as (r & -> & Hr).
  simpl. rewrite Hn, Hr. reflexivity.
Qed.

Lemma slugify_cases lower text :
  slugify lower text = lit "app"
  \/ slugify lower text
     = strip_chars [hyphen] (squash non_alnum (lower (Str.strip text)))
       /\ is_slug (slugify lower text) = true.
Proof.
  unfold slugify, non_alnum_re. rewrite sub_squash.
  rewrite sub_hyphens by apply squash_hyphenated.
  destruct (strip_hyphenated _ (squash_hyphenated (lower (Str.strip text))))
    as [-> | H]; [left; reflexivity|].
  destruct (strip_chars _ _) as [|c t] eqn:E; [discriminate|].
  right. split; [reflexivity | exact H].
Qed.

(** X12. The slug is never empty, and it is made of words of ASCII letters and
    digits joined by single hyphens: no other character, no hyphen at
    either end, no two hyphens in a row.  This holds whatever [str.lower]
    does to the text. *)
Theorem slugify_gives_slug (lower : str -> str) (text : str) :
  is_slug (slugify lower text) = true.
Proof.
  destruct (slugify_cases lower text) as [-> | [_ H]];
    [reflexivity | exact H].
Qed.

(** X13. The second substitution of [slugify] never changes anything: the first
    one leaves no two hyphens in a row. *)
Theorem slugify_second_pass_idle (s : str) :
  sub hyphens_re to_hyphen (sub non_alnum_re to_hyphen s)
  = sub non_alnum_re to_hyphen s.
Proof.
  unfold non_alnum_re. rewrite sub_squash.
  apply sub_hyphens, squash_hyphenated.
Qed.

(** X14. Whichever source the app id is derived from (the app name of the
    title, the directory after [apps], the parent directory or the file
    name), it is a slug. *)
Theorem derive_app_id_gives_slug (lower : str -> str)
    (app_name : option str) (md_path : path) :
  is_slug (derive_app_id lower app_name md_path) = true.
Proof.
  assert (H : forall text, is_slug (slugify lower text) = true).
  { intros text. destruct (slugify_cases lower text) as [-> | [_ H]];
      [reflexivity | exact H]. }
  unfold derive_app_id.
  destruct app_name as [[|c t]|]; try apply H;
    destruct (after_apps (parts md_path)); apply H.
Qed.

Lemma squash_all p s :
  Forall (fun c => p c = true) s -> squash p s = [] \/ squash p s = [hyphen].
Proof.
  induction 1 as [|c t Hc Ht IH]; [left; reflexivity|]. right.
  destruct t as [|c' t']; [simpl; rewrite Hc; reflexivity|].
  inversion Ht as [|x l Hc' _]; subst.
  change (squash p (c :: c' :: t'))
    with (if p c
          then if p c' then squash p (c' :: t')
               else hyphen :: squash p (c' :: t')
          else c :: squash p (c' :: t')).
  rewrite Hc, Hc'. destruct IH as [E | E]; [|exact E].
  rewrite squash_run in E by exact Hc'. discriminate.
Qed.

(** X15. A name without any ASCII letter or digit, once lowered, gets the
    app id [app]: every other character is dropped. *)
Theorem slugify_without_letters_is_app (lower : str -> str) (text : str) :
  forallb non_alnum (lower (Str.strip text)) = true ->
  slugify lower text = lit "app".
Proof.
  intros H. rewrite forallb_forall in H.
  assert (F : Forall (fun c => non_alnum c = true) (lower (Str.strip text)))
    by (apply Forall_forall; exact H).
  unfold slugify, non_alnum_re. rewrite sub_squash.
  rewrite sub_hyphens by apply squash_hyphenated.
  destruct (squash_all non_alnum _ F) as [-> | ->]; reflexivity.
Qed.

Lemma slugify_without_letters_is_app_witness :
  forallb non_alnum (ascii_lower (Str.strip (lit " (+) !? "))) = true
  /\ slugify ascii_lower (lit " (+) !? ") = lit "app".
Proof.
  split; [reflexivity|].
  apply (slugify_without_letters_is_app ascii_lower (lit " (+) !? ")).
  reflexivity.
Defined.

Lemma squash_incl p s c : In c (squash p s) -> c = hyphen \/ In c s.
Proof.
  induction s as [|x t IH]; [intros []|].
  destruct (p x) eqn:Hx.
  - destruct t as [|x' t'].
    + simpl. rewrite Hx. intros [<- | []]. left. reflexivity.
    + change (squash p (x :: x' :: t'))
        with (if p x
              then if p x' then squash p (x' :: t')
                   else hyphen :: squash p (x' :: t')
              else x :: squash p (x' :: t')).
      rewrite Hx. destruct (p x').
      * intros H. destruct (IH H) as [E | E]; [left | right; right];
          assumption.
      * intros [<- | H]; [left; reflexivity|].
        destruct (IH H) as [E | E]; [left | right; right]; assumption.
  - rewrite squash_keep by exact Hx. intros [<- | H].
    + right. left. reflexivity.
    + destruct (IH H) as [E | E]; [left | right; right]; assumption.
Qed.

Lemma lstrip_chars_incl cs s : incl (lstrip_chars cs s) s.
Proof.
  induction s as [|c t IH]; simpl; [apply incl_refl|].
  destruct (oneof cs c); [apply incl_tl, IH | apply incl_refl].
Qed.

Lemma rstrip_chars_incl cs s : incl (rstrip_chars cs s) s.
Proof.
  induction s as [|c t IH]; [apply incl_refl|]. cbn [rstrip_chars].
  destruct (rstrip_chars cs t) as [|x r].
  - destruct (oneof cs c); [intros y [] | intros y [<- | []]; left;
                                           reflexivity].
  - intros y [<- | H]; [left; reflexivity | right; apply IH, H].
Qed.

Lemma slug_tail_chars s :
  slug_tail s = true ->
  Forall (fun c => alnum c = true \/ c = hyphen) s.
Proof.
  induction s as [|c t IH]; [constructor|]. simpl.
  destruct (alnum c) eqn:Ha.
  - intros H. constructor; [left; exact Ha | apply IH, H].
  - rewrite !andb_true_iff. intros [[Hc _] Ht]. apply N.eqb_eq in Hc.
    constructor; [right; exact Hc | apply IH, Ht].
Qed.

Lemma slug_chars s :
  is_slug s = true -> Forall (fun c => alnum c = true \/ c = hyphen) s.
Proof.
  destruct s as [|c t]; [discriminate|]. simpl.
  rewrite andb_true_iff. intros [Hc Ht].
  constructor; [left; exact Hc | apply slug_tail_chars, Ht].
Qed.

Lemma slug_char_not_space c :
  alnum c = true \/ c = hyphen -> Unicode.isspace c = false.
Proof.
  intros H. destruct (Unicode.isspace c) eqn:Hs; [exfalso | reflexivity].
  unfold Unicode.isspace in Hs.
  rewrite ?orb_true_iff, ?andb_true_iff, ?N.leb_le, ?N.eqb_eq in Hs.
  assert (Hc : In c [9; 10; 11; 12; 13; 28; 29; 30; 31; 32; 133; 160; 5760;
                     8192; 8193; 8194; 8195; 8196; 8197; 8198; 8199; 8200;
                     8201; 8202; 8232; 8233; 8239; 8287; 12288]%N).
  { simpl. lia. }
  simpl in Hc.
  repeat (destruct Hc as [<-|Hc];
          [destruct H as [H | H]; vm_compute in H; discriminate|]).
  exact Hc.
Qed.

Lemma squash_slug_tail s :
  slug_tail s = true -> squash non_alnum s = s.
Proof.
  induction s as [|c t IH]; [reflexivity|]. intros H.
  pose proof H as H'. simpl in H'. destruct (alnum c) eqn:Ha.
  - rewrite squash_keep by (unfold non_alnum; rewrite Ha; reflexivity).
    rewrite IH by exact H'. reflexivity.
  - rewrite !andb_true_iff in H'. destruct H' as [[Hc Hn] Ht].
    apply N.eqb_eq in Hc. subst c.
    destruct t as [|c' t']; [discriminate|].
    rewrite <- (IH Ht) at 2.
    change (squash non_alnum (hyphen :: c' :: t'))
      with (if non_alnum hyphen
            then if non_alnum c' then squash non_alnum (c' :: t')
                 else hyphen :: squash non_alnum (c' :: t')
            else hyphen :: squash non_alnum (c' :: t')).
    unfold non_alnum at 2. rewrite Hn. reflexivity.
Qed.

Lemma slug_tail_hyphenated s : slug_tail s = true -> hyphenated s = true.
Proof.
  induction s as [|c t IH]; [reflexivity|]. simpl.
  destruct (alnum c); [exact IH|].
  rewrite !andb_true_iff. intros [[Hc Hn] Ht].
  repeat split; [exact Hc | | apply IH, Ht].
  destruct t; [discriminate | exact Hn].
Qed.

Lemma rstrip_slug_tail len : forall t c,
  length t <= len -> alnum c = true -> slug_tail t = true ->
  rstrip_chars [hyphen] (c :: t) = c :: t.
Proof.
  induction len as [|len IH]; intros t c L Hc Ht.
  - destruct t; simpl in L; [|lia]. cbn [rstrip_chars].
    rewrite (alnum_keeps c Hc). reflexivity.
  - destruct t as [|d t'].
    + cbn [rstrip_chars]. rewrite (alnum_keeps c Hc). reflexivity.
    + simpl in L. pose proof Ht as Ht'. simpl in Ht'.
      destruct (alnum d) eqn:Hd.
      * apply rstrip_chars_cons. apply IH; [lia | exact Hd | exact Ht'].
      * rewrite !andb_true_iff in Ht'. destruct Ht' as [[Hh Hn] Hs].
        destruct t' as [|e t'']; [discriminate|]. simpl in L.
        apply rstrip_chars_cons, rstrip_chars_cons.
        apply IH; [lia | exact Hn|].
        simpl in Hs. rewrite Hn in Hs. exact Hs.
Qed.

(** A slug goes through the substitutions and the trimming unchanged. *)
Lemma slug_fixed s :
  is_slug s = true ->
  strip_chars [hyphen]
    (sub hyphens_re to_hyphen (sub non_alnum_re to_hyphen s)) = s.
Proof.
  intros H. destruct s as [|c t]; [discriminate|].
  pose proof H as H'. simpl in H'. apply andb_true_iff in H'.
  destruct H' as [Hc Ht].
  assert (E : squash non_alnum (c :: t) = c :: t).
  { rewrite squash_keep by (unfold non_alnum; rewrite Hc; reflexivity).
    rewrite (squash_slug_tail t Ht). reflexivity. }
  unfold non_alnum_re. rewrite sub_squash, E.
  rewrite sub_hyphens
    by (simpl; rewrite Hc; apply slug_tail_hyphenated, Ht).
  unfold strip_chars. cbn [lstrip_chars]. rewrite (alnum_keeps c Hc).
  apply (rstrip_slug_tail (length t)); [lia | exact Hc | exact Ht].
Qed.

Lemma slugify_chars lower text c :
  In c (slugify lower text) ->
  c = hyphen \/ In c (lit "app") \/ In c (lower (Str.strip text)).
Proof.
  destruct (slugify_cases lower text) as [-> | [-> _]].
  - intros H. right. left. exact H.
  - intros H. unfold strip_chars in H.
    apply rstrip_chars_incl, lstrip_chars_incl, squash_incl in H.
    destruct H as [H | H]; [left | right; right]; exact H.
Qed.

(** X16. Applying [slugify] to a slug it made gives the same slug again,
    provided [str.lower] leaves no ASCII capital and changes no string of
    lower-case ASCII letters, digits and hyphens. *)
Theorem slugify_idempotent (lower : str -> str) (text : str) :
  (forall s, forallb lower_slug_char s = true -> lower s = s) ->
  (forall s c, In c (lower s) -> between (ch "A") (ch "Z") c = false) ->
  slugify lower (slugify lower text) = slugify lower text.
Proof.
  intros Hfix Hlow.
  assert (Hs : is_slug (slugify lower text) = true).
  { destruct (slugify_cases lower text) as [-> | [_ H]];
      [reflexivity | exact H]. }
  assert (Hc : forallb lower_slug_char (slugify lower text) = true).
  { apply forallb_forall. intros c Hin.
    pose proof (slug_chars _ Hs) as F. rewrite Forall_forall in F.
    specialize (F c Hin).
    destruct (slugify_chars lower text c Hin) as [-> | [Happ | Hl]];
      [reflexivity | |].
    - simpl in Happ. destruct Happ as [<- | [<- | [<- | []]]]; reflexivity.
    - destruct F as [Ha | ->]; [|reflexivity].
      apply Hlow in Hl. unfold lower_slug_char, alnum in *.
      rewrite Hl in Ha. rewrite orb_false_r in Ha.
      apply orb_true_iff in Ha. destruct Ha as [-> | ->];
        [reflexivity | rewrite orb_true_r; reflexivity]. }
  remember (slugify lower text) as r eqn:Er.
  unfold slugify.
  rewrite (strip_no_space r)
    by (eapply Forall_impl; [|apply slug_chars, Hs];
        apply slug_char_not_space).
  rewrite (Hfix r Hc), (slug_fixed r Hs).
  destruct r; [discriminate | reflexivity].
Qed.

Lemma ascii_lower_fixes s :
  forallb lower_slug_char s = true -> ascii_lower s = s.
Proof.
  induction s as [|c t IH]; [reflexivity|]. cbn [forallb].
  rewrite andb_true_iff. intros [Hc Ht]. unfold ascii_lower in *.
  cbn [map]. rewrite (IH Ht).
  destruct (between (ch "A") (ch "Z") c) eqn:Hu; [|reflexivity].
  exfalso. unfold lower_slug_char, between, hyphen in *. simpl in *.
  rewrite ?orb_true_iff, ?andb_true_iff, ?N.leb_le, ?N.eqb_eq in *. lia.
Qed.

Lemma ascii_lower_no_capital s c :
  In c (ascii_lower s) -> between (ch "A") (ch "Z") c = false.
Proof.
  unfold ascii_lower. rewrite in_map_iff. intros (x & <- & _).
  destruct (between (ch "A") (ch "Z") x) eqn:Hx; [|exact Hx].
  unfold between in *. simpl in *.
  rewrite ?andb_true_iff, ?andb_false_iff, ?N.leb_le, ?N.leb_gt in *. lia.
Qed.

Lemma slugify_idempotent_witness :
  (forall s, forallb lower_slug_char s = true -> ascii_lower s = s)
  /\ (forall s c, In c (ascii_lower s) ->
                  between (ch "A") (ch "Z") c = false)
  /\ slugify ascii_lower
       (slugify ascii_lower (lit "  Trail Pacing (Beta)! "))
     = slugify ascii_lower (lit "  Trail Pacing (Beta)! ").
Proof.
  split; [exact ascii_lower_fixes|]. split; [exact ascii_lower_no_capital|].
  apply (slugify_idempotent ascii_lower (lit "  Trail Pacing (Beta)! ")
           ascii_lower_fixes ascii_lower_no_capital).
Defined.

End SlugFacts.

Module LineFacts.

Import Sem ReFacts Scan StrFacts.

Lemma prev_after_cons pv c a :
  prev_after pv (c :: a) = prev_after (Some c) a.
Proof. reflexivity. Qed.

Lemma mt_bol_ok k s : line_start (prev s) = true -> mt Bol k s = k s.
Proof.
  unfold line_start. simpl. destruct (prev s) as [c|]; [|reflexivity].
  intros ->. reflexivity.
Qed.

Lemma mt_bol_no k s : line_start (prev s) = false -> mt Bol k s = None.
Proof.
  unfold line_start. simpl. destruct (prev s) as [c|]; [|discriminate].
  intros ->. reflexivity.
Qed.

Lemma mt_chr_ok p k s c t :
  rest s = c :: t -> p c = true -> mt (Chr p) k s = k (adv s c t).
Proof. intros Hr Hc. simpl. rewrite Hr, Hc. reflexivity. Qed.

Lemma mt_chr_no p k s :
  match rest s with c :: _ => p c = false | [] => True end ->
  mt (Chr p) k s = None.
Proof.
  intros H. simpl. destruct (rest s) as [|c t]; [reflexivity|].
  rewrite H. reflexivity.
Qed.

Lemma search_from_here r n pv s m :
  match_at r n pv s = Some m -> search_from r n pv s = Some m.
Proof. intros H. destruct s; simpl; rewrite H; reflexivity. Qed.

Lemma mt_star_greedy p k s :
  mt (Star true p) k s = star_greedy p k (pos s) (prev s) (rest s) (caps s).
Proof. reflexivity. Qed.


(** A greedy repetition runs to the end of the run when the rest of the
    pattern matches there. *)
Lemma star_greedy_run p k a : forall n pv r cs e,
  Forall (fun c => p c = true) a ->
  match r with c :: _ => p c = false | [] => True end ->
  k {| pos := n + length a; prev := prev_after pv a; rest := r;
       caps := cs |} = Some e ->
  star_greedy p k n pv (a ++ r) cs = Some e.
Proof.
  induction a as [|c a IH]; intros n pv r cs e Ha Hr Hk.
  - simpl in *. rewrite Nat.add_0_r in Hk.
    destruct r as [|x r']; simpl; [exact Hk|]. rewrite Hr. exact Hk.
  - inversion Ha as [|? ? Hc Ha']; subst. simpl. rewrite Hc.
    rewrite (IH (S n) (Some c) r cs e Ha' Hr); [reflexivity|].
    simpl in Hk. replace (S n + length a) with (n + S (length a)) by lia.
    exact Hk.
Qed.

(** It fails when the rest of the pattern matches nowhere in the run. *)
Lemma star_greedy_fail p k a : forall n pv r cs,
  Forall (fun c => p c = true) a ->
  match r with c :: _ => p c = false | [] => True end ->
  (forall a1 a2 pv', a = a1 ++ a2 ->
     k {| pos := n + length a1; prev := pv'; rest := a2 ++ r;
          caps := cs |} = None) ->
  star_greedy p k n pv (a ++ r) cs = None.
Proof.
  induction a as [|c a IH]; intros n pv r cs Ha Hr Hk.
  - specialize (Hk [] [] pv eq_refl). simpl in *.
    rewrite Nat.add_0_r in Hk.
    destruct r as [|x r']; simpl; [exact Hk|]. rewrite Hr. exact Hk.
  - inversion Ha as [|? ? Hc Ha']; subst. simpl. rewrite Hc.
    rewrite (IH (S n) (Some c) r cs Ha' Hr).
    + specialize (Hk [] (c :: a) pv eq_refl). simpl in Hk.
      rewrite Nat.add_0_r in Hk. exact Hk.
    + intros a1 a2 pv' E. specialize (Hk (c :: a1) a2 pv').
      simpl in Hk. replace (S n + length a1) with (n + S (length a1)) by lia.
      apply Hk. rewrite E. reflexivity.
Qed.

(** A lazy repetition passes over the characters after which the rest of
    the pattern does not match. *)
Lemma star_lazy_skip p k a : forall n pv r cs,
  Forall (fun c => p c = true) a ->
  (forall a1 a2 pv', a = a1 ++ a2 -> a2 <> [] ->
     k {| pos := n + length a1; prev := pv'; rest := a2 ++ r;
          caps := cs |} = None) ->
  star_lazy p k n pv (a ++ r) cs
  = star_lazy p k (n + length a) (prev_after pv a) r cs.
Proof.
  induction a as [|c a IH]; intros n pv r cs Ha Hk.
  - simpl. rewrite Nat.add_0_r. reflexivity.
  - inversion Ha as [|? ? Hc Ha']; subst.
    change ((c :: a) ++ r) with (c :: a ++ r). cbn [star_lazy].
    pose proof (Hk [] (c :: a) pv eq_refl) as H0. simpl in H0.
    rewrite Nat.add_0_r in H0. rewrite H0 by discriminate. rewrite Hc.
    rewrite (IH (S n) (Some c) r cs Ha').
    + cbn [length prev_after fold_left].
      replace (S n + length a) with (n + S (length a)) by lia.
      reflexivity.
    + intros a1 a2 pv' E Hne. specialize (Hk (c :: a1) a2 pv').
      simpl in Hk. replace (S n + length a1) with (n + S (length a1)) by lia.
      apply Hk; [rewrite E; reflexivity | exact Hne].
Qed.

Lemma star_lazy_here p k n pv r cs e :
  k {| pos := n; prev := pv; rest := r; caps := cs |} = Some e ->
  star_lazy p k n pv r cs = Some e.
Proof. intros H. destruct r; simpl; rewrite H; reflexivity. Qed.

Lemma forallb_Forall (p : char -> bool) s :
  forallb p s = true -> Forall (fun c => p c = true) s.
Proof.
  rewrite forallb_forall. intros H. apply Forall_forall. exact H.
Qed.

(** The first character that is not of a set *)
Lemma first_outside (p : char -> bool) a x :
  In x a -> p x = false ->
  exists u y v, a = u ++ y :: v /\ Forall (fun c => p c = true) u
                /\ p y = false.
Proof.
  induction a as [|c a IH]; intros Hin Hx; [destruct Hin|].
  destruct (p c) eqn:Hc.
  - destruct Hin as [-> | Hin]; [congruence|].
    destruct (IH Hin Hx) as (u & y & v & -> & Hu & Hy).
    exists (c :: u), y, v. repeat split; [|exact Hy].
    constructor; assumption.
  - exists [], c, a. repeat split; [constructor | exact Hc].
Qed.

(** [\s*$] after white space that ends the line or the text *)
Lemma greedy_eol_some w : forall n pv tail cs,
  Forall (fun c => ws c = true) w ->
  tail = [] \/ (exists t, tail = LF :: t) ->
  exists e, star_greedy ws (mt Eol Some) n pv (w ++ tail) cs = Some e
            /\ caps e = cs.
Proof.
  assert (Hcaps : forall n pv r cs e,
            star_greedy ws (mt Eol Some) n pv r cs = Some e -> caps e = cs).
  { intros n pv r cs e H.
    apply (DateFacts.tail_space_caps (mt Eol Some) n pv r cs e);
      [|exact H].
    intros s e'. apply DateFacts.eol_keeps. }
  intros n pv tail cs Hw Ht.
  assert (Hex : exists e,
            star_greedy ws (mt Eol Some) n pv (w ++ tail) cs = Some e).
  { revert n pv. induction Hw as [|c w Hc Hw IH]; intros n pv.
    - destruct Ht as [-> | (t & ->)]; cbn [app star_greedy].
      + eexists. reflexivity.
      + change (ws LF) with true. cbv iota.
        destruct (star_greedy ws (mt Eol Some) (S n) (Some LF) t cs)
          as [e|]; eexists; reflexivity.
    - cbn [app star_greedy]. rewrite Hc.
      destruct (IH (S n) (Some c)) as (e & ->).
      eexists. reflexivity. }
  destruct Hex as (e & He). exists e. split; [exact He|].
  eapply Hcaps. exact He.
Qed.

(** [\s*$] before a character of the line that is no white space *)
Lemma greedy_eol_none u y v : forall n pv cs,
  Forall (fun c => ws c = true) u -> ws y = false ->
  Forall (fun c => dot c = true) (u ++ [y]) ->
  star_greedy ws (mt Eol Some) n pv (u ++ y :: v) cs = None.
Proof.
  intros n pv cs Hu Hy Hd. apply star_greedy_fail; [exact Hu | exact Hy|].
  intros a1 a2 pv' E. subst u. cbn [mt rest].
  rewrite Forall_forall in Hd.
  assert (Hh : forall h, In h (a2 ++ [y]) -> N.eqb h LF = false).
  { intros h Hin.
    assert (Hdh : dot h = true).
    { apply Hd. rewrite <- app_assoc. apply in_or_app. right. exact Hin. }
    unfold dot, isnot in Hdh. rewrite N.eqb_sym.
    destruct (N.eqb LF h); [discriminate | reflexivity]. }
  destruct a2 as [|h a2]; simpl.
  - rewrite (Hh y) by (left; reflexivity). reflexivity.
  - rewrite (Hh h) by (left; reflexivity). reflexivity.
Qed.

(** The ends of a trimmed text *)
Lemma trimmed_ends body :
  body <> [] -> Str.strip body = body ->
  (exists c t, body = c :: t /\ ws c = false)
  /\ (exists b0 x, body = b0 ++ [x] /\ ws x = false).
Proof.
  intros Hne Hs. split.
  - destruct (strip_shape body) as [E | (c & t & _ & Hc & E)].
    + rewrite Hs in E. contradiction.
    + rewrite Hs in E. exists c, (Str.rstrip t). split; assumption.
  - assert (Hr : Str.rstrip body = body).
    { rewrite <- Hs at 1. unfold Str.strip. rewrite rstrip_idem.
      exact Hs. }
    unfold Str.rstrip in Hr.
    destruct (lstrip_shape (rev body)) as [E | (x & l & E & Hx)].
    + rewrite E in Hr. simpl in Hr. congruence.
    + rewrite E in Hr. simpl in Hr. exists (rev l), x. split; [|exact Hx].
      symmetry. exact Hr.
Qed.

(** [(.+?)\s*$] takes the text of the line up to the white space that ends
    it. *)
Lemma capture_line g s body w tail :
  rest s = body ++ w ++ tail ->
  Forall (fun c => dot c = true) body ->
  (exists b0 x, body = b0 ++ [x] /\ ws x = false) ->
  Forall (fun c => ws c = true) w ->
  tail = [] \/ (exists t, tail = LF :: t) ->
  exists e,
    mt (line_tail g) Some s = Some e
    /\ caps e = (g, {| sp_start := pos s; sp_end := pos s + length body;
                       sp_text := body |}) :: caps s.
Proof.
  intros Hr Hd (b0 & x & Hb & Hx) Hw Ht.
  destruct body as [|c body1]; [destruct b0; discriminate|].
  pose proof (Forall_inv Hd) as Hc. pose proof (Forall_inv_tail Hd) as Hd1.
  cbv beta in Hc.
  change (mt (line_tail g) Some s)
    with (match rest s with
          | c :: t =>
              if dot c
              then star_lazy dot
                     (fun s' =>
                        star_greedy ws (mt Eol Some)
                          (pos (set_cap g s s')) (prev (set_cap g s s'))
                          (rest (set_cap g s s')) (caps (set_cap g s s')))
                     (S (pos s)) (Some c) t (caps s)
              else None
          | [] => None
          end).
  rewrite Hr.
  change ((c :: body1) ++ w ++ tail) with (c :: body1 ++ w ++ tail).
  cbv iota. rewrite Hc.
  rewrite star_lazy_skip; [|exact Hd1|].
  - destruct (greedy_eol_some w (S (pos s) + length body1)
                (prev_after (Some c) body1) tail
                ((g, {| sp_start := pos s;
                        sp_end := S (pos s) + length body1;
                        sp_text := firstn (S (pos s) + length body1 - pos s)
                                          (rest s) |}) :: caps s) Hw Ht)
      as (e & He & Hcaps).
    exists e. split.
    + apply star_lazy_here. unfold set_cap. cbn [pos prev rest caps].
      exact He.
    + rewrite Hcaps. f_equal. f_equal. f_equal.
      * simpl. lia.
      * rewrite Hr.
        replace (S (pos s) + length body1 - pos s)
          with (length (c :: body1) + 0) by (cbn [length]; lia).
        rewrite firstn_app_2. simpl. rewrite app_nil_r. reflexivity.
  - intros a1 a2 pv' E Hne. unfold set_cap. cbn [pos prev rest caps].
    assert (Hin : In x a2).
    { destruct (exists_last Hne) as (a2' & z & Ez). subst a2.
      rewrite E in Hb.
      replace (c :: a1 ++ a2' ++ [z]) with ((c :: a1 ++ a2') ++ [z]) in Hb
        by (simpl; rewrite <- app_assoc; reflexivity).
      apply app_inj_tail in Hb. destruct Hb as [_ ->].
      apply in_or_app. right. left. reflexivity. }
    destruct (first_outside ws a2 x Hin Hx) as (u & y & v & Ea & Hu & Hy).
    subst a2. rewrite <- app_assoc.
    change ((y :: v) ++ w ++ tail) with (y :: v ++ w ++ tail).
    apply greedy_eol_none; [exact Hu | exact Hy|].
    subst body1. rewrite Forall_forall in Hd1. apply Forall_forall.
    intros h Hh. apply Hd1. apply in_or_app. right.
    apply in_app_or in Hh. destruct Hh as [Hh | [<- | []]].
    + apply in_or_app. left. exact Hh.
    + apply in_or_app. right. left. reflexivity.
Qed.

End LineFacts.

Module TitleMore.

Import Sem ReFacts Scan StrFacts LineFacts BlockShape Title.

Lemma title_re_steps s :
  mt title_re Some s
  = mt Bol
      (mt (Star true ws)
          (mt (Chr (just (ch "#")))
              (mt (Chr ws) (mt (Star true ws) (mt (line_tail 1) Some))))) s.
Proof. reflexivity. Qed.

Lemma hash_no_space c : ws c = true -> just (ch "#") c = false.
Proof.
  intros H. unfold just. apply N.eqb_neq. intros <-.
  vm_compute in H. discriminate.
Qed.

(** The title pattern matches at the start of a line, over indentation,
    the number sign and white space, and captures the trimmed text. *)
Lemma title_at n pv a b body w tail :
  line_start pv = true ->
  Forall (fun c => ws c = true) a ->
  b <> [] -> Forall (fun c => ws c = true) b ->
  body <> [] -> Str.strip body = body ->
  Forall (fun c => dot c = true) body ->
  Forall (fun c => ws c = true) w ->
  tail = [] \/ (exists t, tail = LF :: t) ->
  exists m,
    match_at title_re n pv (a ++ ch "#" :: b ++ body ++ w ++ tail) = Some m
    /\ group m 1 = Some body.
Proof.
  intros Hpv Ha Hbne Hb Hne Hs Hd Hw Ht.
  destruct (trimmed_ends body Hne Hs) as [(c0 & t0 & E0 & Hc0) Hlast].
  destruct b as [|c b1]; [contradiction|].
  inversion Hb as [|? ? Hc Hb1]; subst.
  destruct (capture_line 1
              {| pos := S (S (n + length a)) + length b1;
                 prev := prev_after (Some c) b1;
                 rest := (c0 :: t0) ++ w ++ tail; caps := [] |}
              (c0 :: t0) w tail eq_refl Hd Hlast Hw Ht) as (e & He & Hcaps).
  exists {| m_start := n; m_final := e |}. split.
  - unfold match_at. rewrite title_re_steps.
    rewrite mt_bol_ok by exact Hpv.
    change (mt (Star true ws) ?k ?s)
      with (star_greedy ws k (pos s) (prev s) (rest s) (caps s)).
    cbn [pos prev rest caps].
    rewrite (star_greedy_run ws _ a n pv _ [] e Ha);
      [reflexivity | reflexivity |].
    erewrite mt_chr_ok; [|cbn [rest]; reflexivity | reflexivity].
    erewrite mt_chr_ok; [|cbn [adv rest app]; reflexivity | exact Hc].
    change (mt (Star true ws) ?k ?s)
      with (star_greedy ws k (pos s) (prev s) (rest s) (caps s)).
    cbn [adv pos prev rest caps].
    apply (star_greedy_run ws _ b1 _ _ _ [] e Hb1); [exact Hc0 | exact He].
  - unfold group. cbn [m_final]. rewrite Hcaps. reflexivity.
Qed.

(** It matches nowhere before a character that is neither white space nor
    the number sign. *)
Lemma title_not_at n pv u c v :
  Forall (fun x => ws x = true) u -> ws c = false -> c <> ch "#" ->
  match_at title_re n pv (u ++ c :: v) = None.
Proof.
  intros Hu Hc Hne. unfold match_at. rewrite title_re_steps.
  destruct (line_start pv) eqn:Hpv.
  - rewrite mt_bol_ok by exact Hpv.
    change (mt (Star true ws) ?k ?s)
      with (star_greedy ws k (pos s) (prev s) (rest s) (caps s)).
    cbn [pos prev rest caps].
    rewrite star_greedy_fail; [reflexivity | exact Hu | exact Hc |].
    intros a1 a2 pv' E. apply mt_chr_no. cbn [rest].
    destruct a2 as [|h a2]; cbn [app].
    + unfold just. apply N.eqb_neq. congruence.
    + apply hash_no_space. rewrite Forall_forall in Hu. apply Hu.
      rewrite E. apply in_or_app. right. left. reflexivity.
  - rewrite mt_bol_no by exact Hpv. reflexivity.
Qed.

Lemma title_search b body w tail : forall pre n pv,
  no_hash pre = true -> opens_line pv pre = true ->
  b <> [] -> Forall (fun c => ws c = true) b ->
  body <> [] -> Str.strip body = body ->
  Forall (fun c => dot c = true) body ->
  Forall (fun c => ws c = true) w ->
  tail = [] \/ (exists t, tail = LF :: t) ->
  exists m,
    search_from title_re n pv (pre ++ ch "#" :: b ++ body ++ w ++ tail)
    = Some m
    /\ group m 1 = Some body.
Proof.
  induction pre as [|c pre IH]; intros n pv Hh Ho Hbne Hb Hne Hs Hd Hw Ht.
  - simpl in Ho. rewrite orb_false_r, andb_true_r in Ho.
    destruct (title_at n pv [] b body w tail Ho (Forall_nil _)
                Hbne Hb Hne Hs Hd Hw Ht) as (m & Hm & Hg).
    exists m. split; [apply search_from_here; exact Hm | exact Hg].
  - destruct (line_start pv && forallb ws (c :: pre)) eqn:Hhere.
    + apply andb_true_iff in Hhere. destruct Hhere as [Hpv Hall].
      destruct (title_at n pv (c :: pre) b body w tail Hpv
                  (forallb_Forall _ _ Hall) Hbne Hb Hne Hs Hd Hw Ht)
        as (m & Hm & Hg).
      exists m. split; [apply search_from_here; exact Hm | exact Hg].
    + cbn [opens_line] in Ho. rewrite Hhere in Ho. simpl in Ho.
      assert (Hnone : match_at title_re n pv
                        ((c :: pre) ++ ch "#" :: b ++ body ++ w ++ tail)
                      = None).
      { apply andb_false_iff in Hhere. destruct Hhere as [Hpv | Hall].
        - unfold match_at. rewrite title_re_steps.
          rewrite mt_bol_no by exact Hpv. reflexivity.
        - assert (Hx : exists x, In x (c :: pre) /\ ws x = false).
          { clear -Hall. induction (c :: pre) as [|h l IHl];
              [discriminate|].
            simpl in Hall. apply andb_false_iff in Hall.
            destruct Hall as [Hh | Hl].
            - exists h. split; [left; reflexivity | exact Hh].
            - destruct (IHl Hl) as (x & Hin & Hx).
              exists x. split; [right; exact Hin | exact Hx]. }
          destruct Hx as (x & Hin & Hx).
          destruct (first_outside ws (c :: pre) x Hin Hx)
            as (u & y & v & E & Hu & Hy).
          rewrite E, <- app_assoc.
          change ((y :: v) ++ ch "#" :: b ++ body ++ w ++ tail)
            with (y :: v ++ ch "#" :: b ++ body ++ w ++ tail).
          apply title_not_at; [exact Hu | exact Hy|].
          intros ->. unfold no_hash in Hh. rewrite forallb_forall in Hh.
          specialize (Hh (ch "#")). rewrite N.eqb_refl in Hh.
          assert (In (ch "#") (c :: pre))
            by (rewrite E; apply in_or_app; right; left; reflexivity).
          specialize (Hh H). discriminate. }
      change ((c :: pre) ++ ch "#" :: b ++ body ++ w ++ tail)
        with (c :: pre ++ ch "#" :: b ++ body ++ w ++ tail) in *.
      cbn [search_from]. rewrite Hnone.
      apply IH; try assumption.
      unfold no_hash in *. simpl in Hh. apply andb_true_iff in Hh.
      apply Hh.
Qed.

(** X17. The first heading line of a document gives the title.  When the
    first number sign of the document starts a line (indentation and blank
    lines apart) and is followed by white space and then a line of text,
    the title is that text without the white space around it, whatever
    the rest of the document holds. *)
Theorem first_heading_is_title (pre b body w tail : str) :
  no_hash pre = true -> opens_line None pre = true ->
  b <> [] -> forallb ws b = true ->
  body <> [] -> Str.strip body = body -> ~ In LF body ->
  forallb ws w = true ->
  tail = [] \/ (exists t, tail = LF :: t) ->
  option_map fst
    (extract_title_and_app (pre ++ ch "#" :: b ++ body ++ w ++ tail))
  = Some body.
Proof.
  intros Hh Ho Hbne Hb Hne Hs Hlf Hw Ht.
  assert (Hd : Forall (fun c => dot c = true) body).
  { apply Forall_forall. intros c Hc. unfold dot, isnot.
    destruct (N.eqb LF c) eqn:E; [|reflexivity].
    apply N.eqb_eq in E. subst c. contradiction. }
  destruct (title_search b body w tail pre 0 None Hh Ho Hbne
              (forallb_Forall _ _ Hb) Hne Hs Hd (forallb_Forall _ _ Hw) Ht)
    as (m & Hm & Hg).
  unfold extract_title_and_app, search. rewrite Hm, Hg. simpl.
  rewrite Hs. reflexivity.
Qed.

Lemma first_heading_is_title_witness :
  option_map fst
    (extract_title_and_app
       (lit "\n  " ++ ch "#" :: lit " " ++ lit "Privacy Policy (Trail Pacing)"
        ++ lit "  " ++ lit "\nLast Updated: 1 May 2024\n"))
  = Some (lit "Privacy Policy (Trail Pacing)").
Proof.
  apply (first_heading_is_title (lit "\n  ") (lit " ")
           (lit "Privacy Policy (Trail Pacing)") (lit "  ")
           (lit "\nLast Updated: 1 May 2024\n")).
  - reflexivity.
  - reflexivity.
  - discriminate.
  - reflexivity.
  - discriminate.
  - reflexivity.
  - vm_compute. intuition discriminate.
  - reflexivity.
  - right. eexists. reflexivity.
Defined.

Lemma app_re_steps k s :
  mt app_re k s
  = mt (Chr (just (ch "(")))
      (mt (Chr (isnot (ch ")")))
          (mt (Star true (isnot (ch ")")))
              (fun s' =>
                 mt (Chr (just (ch ")"))) k
                    (set_cap 1
                       (match rest s with
                        | c :: t => adv s c t
                        | [] => s
                        end) s')))) s.
Proof.
  unfold app_re. cbn [seq mt Plus Lit]. destruct (rest s); reflexivity.
Qed.

(** The app-name pattern finds the first parenthesis and takes what stands
    between it and the next closing one. *)
Lemma app_search name y : forall x n pv,
  forallb (isnot (ch "(")) x = true ->
  name <> [] -> forallb (isnot (ch ")")) name = true ->
  exists m,
    search_from app_re n pv (x ++ ch "(" :: name ++ ch ")" :: y) = Some m
    /\ group m 1 = Some name.
Proof.
  induction x as [|c x IH]; intros n pv Hx Hne Hn.
  - destruct name as [|c name1]; [contradiction|].
    cbn [forallb] in Hn. apply andb_true_iff in Hn.
    destruct Hn as [Hc Hn1].
    eexists. split.
    + apply search_from_here. unfold match_at. rewrite app_re_steps.
      erewrite mt_chr_ok; [|cbn [rest app]; reflexivity | reflexivity].
      erewrite mt_chr_ok; [|cbn [adv rest app]; reflexivity | exact Hc].
      change (mt (Star true ?p) ?k ?s)
        with (star_greedy p k (pos s) (prev s) (rest s) (caps s)).
      cbn [adv pos prev rest caps app].
      erewrite (star_greedy_run (isnot (ch ")")) _ name1);
        [reflexivity | apply forallb_Forall; exact Hn1 | reflexivity |].
      cbn [mt set_cap pos prev rest caps adv].
      change (just (ch ")") (ch ")")) with true. cbv iota. reflexivity.
    + unfold group. cbn [m_final caps find fst snd sp_text adv set_cap pos rest].
      change (N.eqb 1 1) with true. cbv iota. cbn [sp_text snd]. f_equal.
      replace (S (S n) + length name1 - S n) with (length (c :: name1) + 0)
        by (cbn [length]; lia).
      change (c :: name1 ++ ch ")" :: y) with ((c :: name1) ++ ch ")" :: y).
      rewrite firstn_app_2. simpl. rewrite app_nil_r. reflexivity.
  - cbn [forallb] in Hx. apply andb_true_iff in Hx.
    destruct Hx as [Hc Hx].
    change ((c :: x) ++ ch "(" :: name ++ ch ")" :: y)
      with (c :: x ++ ch "(" :: name ++ ch ")" :: y).
    cbn [search_from].
    assert (Hnone : match_at app_re n pv
                      (c :: x ++ ch "(" :: name ++ ch ")" :: y) = None).
    { unfold match_at. rewrite app_re_steps. rewrite mt_chr_no; [reflexivity|].
      cbn [rest]. unfold isnot in Hc. unfold just.
      destruct (N.eqb (ch "(") c); [discriminate | reflexivity]. }
    rewrite Hnone. apply IH; assumption.
Qed.

(** X18. When the first opening parenthesis of the title is followed by
    at least one character other than a closing parenthesis and then by a
    closing parenthesis, the app name is what stands between the two,
    without the white space around it.  (An empty pair of parentheses is
    no app name: the condition leaves it out.) *)
Theorem app_name_is_first_parenthesis (md_text x name y : str) :
  option_map fst (extract_title_and_app md_text)
  = Some (x ++ ch "(" :: name ++ ch ")" :: y) ->
  forallb (isnot (ch "(")) x = true ->
  name <> [] -> forallb (isnot (ch ")")) name = true ->
  option_map snd (extract_title_and_app md_text)
  = Some (Some (Str.strip name)).
Proof.
  intros He Hx Hne Hn. unfold extract_title_and_app in *.
  destruct (search title_re md_text) as [m|]; [|discriminate].
  cbn [option_map fst snd] in *. injection He as Et. rewrite Et.
  destruct (app_search name y x 0 None Hx Hne Hn) as (ma & Hs & Hg).
  change (search app_re (x ++ 40%N :: name ++ 41%N :: y))
    with (search_from app_re 0 None (x ++ ch "(" :: name ++ ch ")" :: y)).
  rewrite Hs, Hg. reflexivity.
Qed.

Lemma app_name_is_first_parenthesis_witness :
  option_map snd
    (extract_title_and_app
       (lit "# Privacy Policy ( Trail Pacing ) (beta)\n"))
  = Some (Some (Str.strip (lit " Trail Pacing "))).
Proof.
  apply (app_name_is_first_parenthesis
           (lit "# Privacy Policy ( Trail Pacing ) (beta)\n")
           (lit "Privacy Policy ") (lit " Trail Pacing ") (lit " (beta)"));
    try reflexivity.
  discriminate.
Defined.

Lemma app_needs_parenthesis : Needs.needs app_re (just (ch "(")).
Proof. cbn. left. auto. Qed.

(** X19. A title without an opening parenthesis has no app name. *)
Theorem plain_title_has_no_app_name (md_text title : str) :
  option_map fst (extract_title_and_app md_text) = Some title ->
  forallb (isnot (ch "(")) title = true ->
  option_map snd (extract_title_and_app md_text) = Some None.
Proof.
  intros He Ht. unfold extract_title_and_app in *.
  destruct (search title_re md_text) as [m|]; [|discriminate].
  cbn [option_map fst snd] in *. injection He as Et. rewrite Et.
  rewrite (NeedsFacts.search_needs app_re (just (ch "(")) title
             app_needs_parenthesis); [reflexivity|].
  apply Forall_forall. rewrite forallb_forall in Ht. intros c Hc.
  specialize (Ht c Hc). unfold isnot, just in *.
  destruct (N.eqb (ch "(") c); [discriminate | reflexivity].
Qed.

Lemma plain_title_has_no_app_name_witness :
  option_map snd (extract_title_and_app (lit "# Privacy Policy\n"))
  = Some None.
Proof.
  apply (plain_title_has_no_app_name (lit "# Privacy Policy\n")
           (lit "Privacy Policy")); reflexivity.
Defined.

End TitleMore.

Module InlineMore.

Import Sem ReFacts Scan LineFacts DigitFacts Inline Plain InlineShape.
Import InlineFacts.

(** The scan passes over a stretch in which no match starts. *)
Lemma finditer_pass r a : forall n pv b,
  (forall a1 a2 pv', a = a1 ++ a2 -> a2 <> [] ->
     match_at r (n + length a1) pv' (a2 ++ b) = None) ->
  finditer_from r n pv (a ++ b) 0
  = finditer_from r (n + length a) (prev_after pv a) b 0.
Proof.
  induction a as [|c a IH]; intros n pv b H.
  - simpl. rewrite Nat.add_0_r. reflexivity.
  - change ((c :: a) ++ b) with (c :: a ++ b). cbn [finditer_from].
    pose proof (H [] (c :: a) pv eq_refl) as H0. simpl in H0.
    rewrite Nat.add_0_r in H0. rewrite H0 by discriminate.
    rewrite IH.
    + cbn [length prev_after fold_left].
      replace (S n + length a) with (n + S (length a)) by lia.
      reflexivity.
    + intros a1 a2 pv' E Hne. specialize (H (c :: a1) a2 pv').
      simpl in H. replace (S n + length a1) with (n + S (length a1)) by lia.
      apply H; [rewrite E; reflexivity | exact Hne].
Qed.


Lemma finditer_end r n pv :
  0 < min_len r -> finditer_from r n pv [] 0 = [].
Proof.
  intros Hm. cbn [finditer_from].
  rewrite match_at_first; [reflexivity | exact Hm | discriminate].
Qed.

(** After a match the scan resumes at its end. *)
Lemma finditer_hit r mid n pv b m :
  match_at r n pv (mid ++ b) = Some m ->
  m_end m = n + length mid -> mid <> [] ->
  exists pv',
    finditer_from r n pv (mid ++ b) 0
    = m :: finditer_from r (n + length mid) pv' b 0.
Proof.
  intros Hm He Hne. destruct mid as [|c mid]; [contradiction|].
  change ((c :: mid) ++ b) with (c :: mid ++ b) in *.
  cbn [finditer_from]. rewrite Hm.
  replace (m_end m - n - 1) with (length mid) by (simpl in He; lia).
  destruct (finditer_from_skip r (length mid) (mid ++ b) (S n) (Some c))
    as (pv' & E); [rewrite length_app; lia|].
  exists pv'. rewrite E, skipn_app, skipn_all, Nat.sub_diag. simpl.
  replace (S (n + length mid)) with (n + S (length mid)) by lia.
  reflexivity.
Qed.

(** One span between two stretches in which no match starts: the
    substitution replaces the span and keeps the rest. *)
Lemma sub_between r repl p1 mid p2 m :
  0 < min_len r ->
  (forall a1 a2 pv', p1 = a1 ++ a2 -> a2 <> [] ->
     match_at r (0 + length a1) pv' (a2 ++ mid ++ p2) = None) ->
  (forall n a1 a2 pv', p2 = a1 ++ a2 -> a2 <> [] ->
     match_at r (n + length a1) pv' (a2 ++ []) = None) ->
  mid <> [] ->
  match_at r (length p1) (prev_after None p1) (mid ++ p2) = Some m ->
  m_end m = length p1 + length mid ->
  sub r repl (p1 ++ mid ++ p2) = p1 ++ repl m ++ p2.
Proof.
  intros Hm H1 H2 Hne Hat He. unfold sub, finditer.
  rewrite (finditer_pass r p1 0 None (mid ++ p2) H1).
  destruct (finditer_hit r mid (0 + length p1) (prev_after None p1) p2 m
              Hat He Hne) as (pv' & ->).
  rewrite <- (app_nil_r p2) at 2.
  rewrite (finditer_pass r p2 _ pv' [] (H2 _)).
  rewrite finditer_end by exact Hm. cbn [sub_pieces].
  destruct (match_at_bounds r _ _ _ m Hat) as (Hs & _). rewrite Hs, He.
  assert (E1 : Str.slice (p1 ++ mid ++ p2) 0 (length p1) = p1).
  { unfold Str.slice. simpl skipn. rewrite Nat.sub_0_r.
    replace (length p1) with (length p1 + 0) at 1 by lia.
    rewrite firstn_app_2. simpl. apply app_nil_r. }
  assert (E2 : Str.slice_from (p1 ++ mid ++ p2) (length p1 + length mid)
               = p2).
  { unfold Str.slice_from. rewrite <- length_app, app_assoc, skipn_app.
    rewrite skipn_all, Nat.sub_diag. reflexivity. }
  rewrite E1, E2. reflexivity.
Qed.





Lemma convert_passes s :
  convert_inline_markdown s
  = sub _md_two_space_break break_repl
      (sub _md_link link_repl
         (sub _md_em _em_sub
            (sub _md_strong _strong_sub (sub _md_code code_repl s)))).
Proof. destruct s; reflexivity. Qed.

Lemma forallb_first r s :
  forallb (fun c => negb (first r c)) s = true ->
  Forall (fun c => first r c = false) s.
Proof.
  rewrite forallb_forall. intros H. apply Forall_forall. intros c Hc.
  apply negb_true_iff. auto.
Qed.

Lemma plain_line_delimiter s c :
  plain_line s = true -> In c s -> delimiter c = false /\ N.eqb c LF = false.
Proof.
  unfold plain_line. rewrite forallb_forall. intros H Hc.
  specialize (H c Hc). apply andb_true_iff in H.
  destruct H as [H1 H2]. rewrite negb_true_iff in H1, H2. auto.
Qed.

Lemma plain_line_first r s :
  (forall c, delimiter c = false -> first r c = false) ->
  plain_line s = true -> Forall (fun c => first r c = false) s.
Proof.
  intros Hr Hs. apply Forall_forall. intros c Hc.
  apply Hr. apply (plain_line_delimiter s c Hs Hc).
Qed.


Lemma plain_line_no_lf s :
  plain_line s = true -> Forall (fun c => just LF c = false) s.
Proof.
  intros Hs. apply Forall_forall. intros c Hc.
  destruct (plain_line_delimiter s c Hs Hc) as [_ H].
  unfold just. rewrite N.eqb_sym. exact H.
Qed.


Lemma break_needs_lf : Needs.needs _md_two_space_break (just LF).
Proof. cbn. right. right. auto. Qed.

(** A pass is idle on a text in which no match can start. *)
Lemma pass_idle r repl s :
  0 < min_len r -> Forall (fun c => first r c = false) s -> sub r repl s = s.
Proof.
  intros Hm Hs. apply sub_no_match. apply finditer_first; assumption.
Qed.


(** Stretches of a text in which no match starts, and literal text *)
Ltac quiet Hfirst :=
  repeat (apply Forall_app; split);
  first [ apply (plain_line_first _ _ Hfirst); assumption
        | apply forallb_first; reflexivity ].





























Lemma break_not_before a mid_rest :
  a <> [] -> Forall (fun c => just LF c = false) a ->
  Str.startswith (lit "  \n") (a ++ lit "  \n" ++ mid_rest) = false.
Proof.
  intros Hne Ha.
  assert (Hlf : forall x, In x a -> N.eqb 10 x = false)
    by (rewrite Forall_forall in Ha; exact Ha).
  destruct a as [|x [|y [|z a']]]; [contradiction| | |];
    cbn -[N.eqb];
    repeat match goal with
           | |- context [N.eqb 10 ?c] =>
               rewrite (Hlf c) by (simpl; auto)
           end;
    rewrite ?andb_false_r; reflexivity.
Qed.

(** X24. A hard line break: two spaces and a line feed become a [br]
    element and a line feed; the text before and after is kept.  (The two
    texts are plain.) *)
Theorem two_spaces_become_break (p1 p2 : str) :
  plain_line p1 = true -> plain_line p2 = true ->
  convert_inline_markdown (p1 ++ lit "  \n" ++ p2)
  = p1 ++ lit "<br>\n" ++ p2.
Proof.
  intros H1 H2. rewrite convert_passes.
  rewrite (pass_idle _md_code); [ | cbn; lia | quiet first_code ].
  rewrite (pass_idle _md_strong); [ | cbn; lia | quiet first_strong ].
  rewrite (pass_idle _md_em); [ | cbn; lia | quiet first_em ].
  rewrite (pass_idle _md_link); [ | cbn; lia | quiet first_link ].
  assert (Hat : exists m,
            match_at _md_two_space_break (length p1) (prev_after None p1)
              (lit "  \n" ++ p2) = Some m
            /\ m_end m = length p1 + length (lit "  \n")).
  { eexists. split; [reflexivity|]. cbn. lia. }
  destruct Hat as (m & Hm & He).
  rewrite (sub_between _md_two_space_break break_repl p1 _ p2 m);
    [reflexivity | cbn; lia | | | discriminate | exact Hm | exact He].
  - intros a1 a2 pv' E Hne.
    destruct (match_at _md_two_space_break (0 + length a1) pv'
                (a2 ++ lit "  \n" ++ p2)) as [m'|] eqn:Em; [|reflexivity].
    apply break_match in Em.
    rewrite break_not_before in Em; [discriminate | exact Hne|].
    pose proof (plain_line_no_lf p1 H1) as F. rewrite E in F.
    apply Forall_app in F. apply F.
  - intros n a1 a2 pv' E Hne.
    apply (NeedsFacts.match_at_needs _ _ _ _ _ break_needs_lf).
    rewrite app_nil_r. pose proof (plain_line_no_lf p2 H2) as F.
    rewrite E in F. apply Forall_app in F. apply F.
Qed.

Lemma two_spaces_become_break_witness :
  convert_inline_markdown (lit "first line" ++ lit "  \n" ++ lit "second")
  = lit "first line" ++ lit "<br>\n" ++ lit "second".
Proof.
  apply (two_spaces_become_break (lit "first line") (lit "second"));
    reflexivity.
Defined.

End InlineMore.

Module StructureFacts.

Import Sem ReFacts Scan StrFacts Datetime Dates Sections Title Slug Structure.

(** What [(.+?)\s*$] captures holds no line feed. *)
Lemma line_tail_capture g s e :
  matches (line_tail g) s e ->
  exists w, caps e = (g, {| sp_start := pos s; sp_end := pos s + length w;
                            sp_text := w |}) :: caps s
            /\ Forall (fun c => dot c = true) w.
Proof.
  unfold line_tail. cbn [seq]. intros H.
  inversion H as [| |a b s0 s1 s2 Hg Ht| | | | | | | | |]; subst.
  destruct (matches_group Hg eq_refl) as (w & _ & Hp & Hc & _ & Hw).
  assert (Hcaps : caps e = caps s1)
    by (apply (matches_caps Ht); reflexivity).
  exists w. split.
  - rewrite Hcaps, Hc, Hp. reflexivity.
  - eapply Forall_impl; [|exact Hw]. intros c Hd. cbn in Hd.
    rewrite orb_diag in Hd. exact Hd.
Qed.

Lemma strip_trimmed_line w :
  Forall (fun c => dot c = true) w -> trimmed_line (Str.strip w).
Proof.
  intros Hw. split; [apply strip_idem|]. intros Hin.
  apply strip_incl in Hin. rewrite Forall_forall in Hw.
  specialize (Hw LF Hin). discriminate.
Qed.

Lemma group_of_caps m g sp cs :
  caps (m_final m) = (g, sp) :: cs -> group m g = Some (sp_text sp).
Proof.
  intros E. unfold group. rewrite E. simpl. rewrite N.eqb_refl. reflexivity.
Qed.

(** The text the title pattern captures *)
Lemma title_capture n pv s m :
  match_at title_re n pv s = Some m ->
  exists w, group m 1 = Some w /\ Forall (fun c => dot c = true) w.
Proof.
  intros H. apply match_at_span in H. destruct H as (_ & H & _).
  change title_re
    with (Cat Bol (Cat (Star true ws)
                       (Cat (Lit "#") (Cat (Plus true ws) (line_tail 1)))))
    in H.
  inversion H as [| |a1 b1 s0 s1 s2 H1 R1| | | | | | | | |]; subst.
  inversion R1 as [| |a2 b2 t0 t1 t2 H2 R2| | | | | | | | |]; subst.
  inversion R2 as [| |a3 b3 u0 u1 u2 H3 R3| | | | | | | | |]; subst.
  inversion R3 as [| |a4 b4 v0 v1 v2 H4 R4| | | | | | | | |]; subst.
  destruct (line_tail_capture 1 _ _ R4) as (w & Hc & Hw).
  exists w. split; [|exact Hw].
  apply (group_of_caps m 1 _ _ Hc).
Qed.

(** The text the heading pattern captures *)
Lemma heading_capture n pv s m :
  match_at heading_re n pv s = Some m ->
  exists w, group m 1 = Some w /\ Forall (fun c => dot c = true) w.
Proof.
  intros H. apply match_at_span in H. destruct H as (_ & H & _).
  change heading_re
    with (Cat Bol (Cat (Star true ws)
                       (Cat (word "##") (Cat (Plus true ws) (line_tail 1)))))
    in H.
  inversion H as [| |a1 b1 s0 s1 s2 H1 R1| | | | | | | | |]; subst.
  inversion R1 as [| |a2 b2 t0 t1 t2 H2 R2| | | | | | | | |]; subst.
  inversion R2 as [| |a3 b3 u0 u1 u2 H3 R3| | | | | | | | |]; subst.
  inversion R3 as [| |a4 b4 v0 v1 v2 H4 R4| | | | | | | | |]; subst.
  destruct (line_tail_capture 1 _ _ R4) as (w & Hc & Hw).
  exists w. split; [|exact Hw].
  apply (group_of_caps m 1 _ _ Hc).
Qed.

Lemma title_is_line md_text t app :
  extract_title_and_app md_text = Some (t, app) -> trimmed_line t.
Proof.
  unfold extract_title_and_app.
  destruct (search title_re md_text) as [m|] eqn:Hs; [|discriminate].
  intros [= <- _]. apply NeedsFacts.search_from_some in Hs.
  destruct Hs as (i & pv' & Hm).
  destruct (title_capture _ _ _ _ Hm) as (w & -> & Hw).
  apply strip_trimmed_line. exact Hw.
Qed.

Lemma sections_of_headings md_text : forall ms,
  Forall (fun m => exists w, group m 1 = Some w
                             /\ Forall (fun c => dot c = true) w) ms ->
  Forall (fun hb => trimmed_line (fst hb)) (sections_of md_text ms).
Proof.
  induction 1 as [|m ms (w & Hg & Hw) Hms IH]; [constructor|].
  cbn [sections_of]. constructor; [|exact IH].
  cbn [fst]. rewrite Hg. apply strip_trimmed_line. exact Hw.
Qed.

Lemma headings_are_lines md_text sec :
  In sec (parse_sections md_text) -> trimmed_line (heading sec).
Proof.
  unfold parse_sections. intros Hs. apply in_map_iff in Hs.
  destruct Hs as (hb & <- & Hin). cbn [heading].
  assert (F : Forall (fun hb => trimmed_line (fst hb))
                (sections_of md_text (finditer heading_re md_text))).
  { apply sections_of_headings. apply Forall_forall. intros m Hm.
    apply finditer_from_In in Hm. destruct Hm as (i & pv' & Hm).
    eapply heading_capture. exact Hm. }
  rewrite Forall_forall in F. apply F. exact Hin.
Qed.

(** X25. Whatever document [md_to_json_structure] converts, the result is
    well formed: the app id is a slug; the title and every section heading
    are single lines without white space at either end; every content
    entry is a non-empty line of that kind; the two dates of the metadata
    are the same text, the ISO form of the date returned beside the
    dictionary, which is a date of the calendar; version and locale are
    passed on as given. *)
Theorem converted_document_is_well_formed
    (lower : str -> str) (strftime : datetime -> str -> str)
    (md_text : str) (md_path : path) (v l : str)
    (p : policy) (dt : datetime) :
  md_to_json_structure lower strftime md_text md_path v l = Done (p, dt) ->
  is_slug (appId p) = true
  /\ trimmed_line (title p)
  /\ (forall sec, In sec (sections p) ->
        trimmed_line (heading sec)
        /\ forall b, In b (content sec) -> b <> [] /\ trimmed_line b)
  /\ lastUpdated (meta p) = strftime dt (lit "%Y-%m-%d")
  /\ effectiveDate (meta p) = lastUpdated (meta p)
  /\ parse_last_updated md_text = Ok dt
  /\ (1 <= month dt <= 12
      /\ 1 <= day dt <= days_in_month (year dt) (month dt))%Z
  /\ version (meta p) = v /\ locale (meta p) = l.
Proof.
  unfold md_to_json_structure.
  destruct (extract_title_and_app md_text) as [[t app]|] eqn:Et;
    [|discriminate].
  destruct (parse_last_updated md_text) as [d|e] eqn:Ed; [|discriminate].
  intros [= <- <-]. cbn [appId title sections meta version lastUpdated
                         effectiveDate locale].
  split.
  { unfold derive_app_id.
    assert (H : forall text, is_slug (slugify lower text) = true).
    { intros text.
      destruct (SlugFacts.slugify_cases lower text) as [-> | [_ H]];
        [reflexivity | exact H]. }
    destruct app as [[|c a]|]; try apply H;
      destruct (after_apps (parts md_path)); apply H. }
  split; [eapply title_is_line; exact Et|].
  split.
  { intros sec Hsec. split; [apply headings_are_lines with md_text; exact Hsec|].
    intros b Hb. unfold parse_sections in Hsec. apply in_map_iff in Hsec.
    destruct Hsec as (hb & <- & _). cbn [content] in Hb.
    destruct (SectionMore.content_blocks_entries _ _ Hb) as (H1 & H2 & H3).
    split; [exact H1 | split; assumption]. }
  repeat split; try reflexivity.
  all: unfold parse_last_updated in Ed;
    assert (V : (1 <= year d <= 9999 /\ 1 <= month d <= 12
                 /\ 1 <= day d <= days_in_month (year d) (month d))%Z);
    [ destruct (first_label patterns _);
      [ eapply DateMore.try_parse_valid; exact Ed
      | destruct (search pat_numeric _); [|discriminate];
        eapply DateMore.try_parse_valid; exact Ed ]
    | lia ].
Qed.

Lemma converted_document_is_well_formed_witness :
  exists p dt,
    md_to_json_structure ascii_lower (fun d _ => iso_date d)
      (lit "# Privacy Policy (Trail Pacing)\nLast Updated: 1 May 2024\n## Data\n- none\n")
      {| parts := []; parent_name := []; stem := [] |} (lit "1") (lit "en")
    = Done (p, dt)
    /\ is_slug (appId p) = true /\ trimmed_line (title p).
Proof.
  eexists. eexists. split; [vm_compute; reflexivity|].
  pose proof (converted_document_is_well_formed ascii_lower
    (fun d _ => iso_date d)
    (lit "# Privacy Policy (Trail Pacing)\nLast Updated: 1 May 2024\n## Data\n- none\n")
    {| parts := []; parent_name := []; stem := [] |} (lit "1") (lit "en")
    _ _ eq_refl) as H.
  destruct H as (H1 & H2 & _). split; [exact H1 | exact H2].
Defined.

End StructureFacts.

Module DateRoundTrip.

Import Sem ReFacts Scan LineFacts Datetime Dates DateShape DigitFacts.

Lemma below_ten k :
  (0 <= k <= 9)%Z ->
  k = 0%Z \/ k = 1%Z \/ k = 2%Z \/ k = 3%Z \/ k = 4%Z \/ k = 5%Z
  \/ k = 6%Z \/ k = 7%Z \/ k = 8%Z \/ k = 9%Z.
Proof. lia. Qed.

(** The digits the record is written with are decimal digits, with the
    value they stand for. *)
Lemma digit_decimal k :
  (0 <= k <= 9)%Z ->
  Unicode.isdecimal (digit k) = true /\ Unicode.decimal (digit k) = Some k.
Proof.
  intros H. apply below_ten in H.
  repeat (destruct H as [-> | H]; [split; reflexivity|]).
  subst k. split; reflexivity.
Qed.

Lemma digit_no_space k : (0 <= k <= 9)%Z -> Unicode.isspace (digit k) = false.
Proof.
  intros H. apply digit_not_space. apply digit_decimal. exact H.
Qed.

Lemma int_two_digits z :
  (0 <= z <= 99)%Z -> Str.int (two_digits z) = Some z.
Proof.
  intros H. unfold Str.int, two_digits.
  assert (H1 : (0 <= z / 10 <= 9)%Z) by (Z.div_mod_to_equations; lia).
  assert (H2 : (0 <= z mod 10 <= 9)%Z) by (Z.div_mod_to_equations; lia).
  rewrite strip_no_space
    by (repeat constructor; apply digit_no_space; assumption).
  unfold Str.int_digits. cbn [fold_left].
  rewrite (proj2 (digit_decimal _ H1)), (proj2 (digit_decimal _ H2)).
  f_equal. Z.div_mod_to_equations; lia.
Qed.

Lemma int_four_digits z :
  (0 <= z <= 9999)%Z -> Str.int (four_digits z) = Some z.
Proof.
  intros H. unfold Str.int, four_digits.
  assert (H1 : (0 <= z / 1000 <= 9)%Z) by (Z.div_mod_to_equations; lia).
  assert (H2 : (0 <= z / 100 mod 10 <= 9)%Z) by (Z.div_mod_to_equations; lia).
  assert (H3 : (0 <= z / 10 mod 10 <= 9)%Z) by (Z.div_mod_to_equations; lia).
  assert (H4 : (0 <= z mod 10 <= 9)%Z) by (Z.div_mod_to_equations; lia).
  rewrite strip_no_space
    by (repeat constructor; apply digit_no_space; assumption).
  unfold Str.int_digits. cbn [fold_left].
  rewrite (proj2 (digit_decimal _ H1)), (proj2 (digit_decimal _ H2)),
          (proj2 (digit_decimal _ H3)), (proj2 (digit_decimal _ H4)).
  f_equal. Z.div_mod_to_equations; lia.
Qed.


Lemma set_cap_two g n pv c1 c2 t cs :
  set_cap g {| pos := n; prev := pv; rest := c1 :: c2 :: t; caps := cs |}
    (adv (adv {| pos := n; prev := pv; rest := c1 :: c2 :: t; caps := cs |}
              c1 (c2 :: t)) c2 t)
  = {| pos := S (S n); prev := Some c2; rest := t;
       caps := (g, {| sp_start := n; sp_end := S (S n);
                      sp_text := [c1; c2] |}) :: cs |}.
Proof.
  unfold set_cap, adv. cbn [pos prev rest caps].
  replace (S (S n) - n) with 2 by lia. reflexivity.
Qed.

Ltac two_digit_case g Htd Hk :=
  vm_compute in Htd; injection Htd as <- <-;
  let v := eval vm_compute in g in change g with v in Hk;
  cbn; rewrite set_cap_two, Hk; reflexivity.

(** The day directive reads a day written with two digits. *)
Lemma day_match r k n pv d c1 c2 t cs e :
  directive (ch "d") = Some r -> (1 <= d <= 31)%Z ->
  two_digits d = [c1; c2] ->
  k {| pos := S (S n); prev := Some c2; rest := t;
       caps := (g_d, {| sp_start := n; sp_end := S (S n);
                        sp_text := [c1; c2] |}) :: cs |} = Some e ->
  mt r k {| pos := n; prev := pv; rest := c1 :: c2 :: t; caps := cs |}
  = Some e.
Proof.
  intros Hr Hd Htd Hk. injection Hr as <-.
  assert (C : (d = 1 \/ d = 2 \/ d = 3 \/ d = 4 \/ d = 5 \/ d = 6 \/ d = 7
              \/ d = 8 \/ d = 9 \/ d = 10 \/ d = 11 \/ d = 12 \/ d = 13
              \/ d = 14 \/ d = 15 \/ d = 16 \/ d = 17 \/ d = 18 \/ d = 19
              \/ d = 20 \/ d = 21 \/ d = 22 \/ d = 23 \/ d = 24 \/ d = 25
              \/ d = 26 \/ d = 27 \/ d = 28 \/ d = 29 \/ d = 30
              \/ d = 31)%Z) by lia.
  repeat (destruct C as [-> | C]; [two_digit_case g_d Htd Hk|]).
  subst d. two_digit_case g_d Htd Hk.
Qed.

(** The month directive reads a month written with two digits. *)
Lemma month_match r k n pv m c1 c2 t cs e :
  directive (ch "m") = Some r -> (1 <= m <= 12)%Z ->
  two_digits m = [c1; c2] ->
  k {| pos := S (S n); prev := Some c2; rest := t;
       caps := (g_m, {| sp_start := n; sp_end := S (S n);
                        sp_text := [c1; c2] |}) :: cs |} = Some e ->
  mt r k {| pos := n; prev := pv; rest := c1 :: c2 :: t; caps := cs |}
  = Some e.
Proof.
  intros Hr Hm Htd Hk. injection Hr as <-.
  assert (C : (m = 1 \/ m = 2 \/ m = 3 \/ m = 4 \/ m = 5 \/ m = 6 \/ m = 7
              \/ m = 8 \/ m = 9 \/ m = 10 \/ m = 11 \/ m = 12)%Z) by lia.
  repeat (destruct C as [-> | C]; [two_digit_case g_m Htd Hk|]).
  subst m. two_digit_case g_m Htd Hk.
Qed.

(** The year directive reads four digits. *)
Lemma year_match r k n pv c1 c2 c3 c4 t cs e :
  directive (ch "Y") = Some r ->
  dg c1 = true -> dg c2 = true -> dg c3 = true -> dg c4 = true ->
  k {| pos := S (S (S (S n))); prev := Some c4; rest := t;
       caps := (g_Y, {| sp_start := n; sp_end := S (S (S (S n)));
                        sp_text := [c1; c2; c3; c4] |}) :: cs |} = Some e ->
  mt r k {| pos := n; prev := pv; rest := c1 :: c2 :: c3 :: c4 :: t;
            caps := cs |} = Some e.
Proof.
  intros Hr H1 H2 H3 H4 Hk. injection Hr as <-.
  set (s0 := {| pos := n; prev := pv; rest := c1 :: c2 :: c3 :: c4 :: t;
                caps := cs |}).
  change (mt (Chr dg)
            (mt (Chr dg)
                (mt (Chr dg)
                    (mt (Chr dg) (fun s' => k (set_cap g_Y s0 s'))))) s0
          = Some e).
  subst s0.
  erewrite mt_chr_ok; [|reflexivity | exact H1].
  erewrite mt_chr_ok; [|reflexivity | exact H2].
  erewrite mt_chr_ok; [|reflexivity | exact H3].
  erewrite mt_chr_ok; [|reflexivity | exact H4].
  rewrite <- Hk. f_equal. unfold set_cap, adv. cbn [pos prev rest caps].
  replace (S (S (S (S n))) - n) with 4 by lia. reflexivity.
Qed.


Lemma numeric_pattern sep :
  sep = ch "/" \/ sep = ch "-" \/ sep = ch "." ->
  exists rd rm rY,
    directive (ch "d") = Some rd /\ directive (ch "m") = Some rm
    /\ directive (ch "Y") = Some rY
    /\ pattern [ch "%"; ch "d"; sep; ch "%"; ch "m"; sep; ch "%"; ch "Y"]
       = Some (Cat rd (Cat (Chr (just sep))
                 (Cat rm (Cat (Chr (just sep)) rY)))).
Proof.
  intros [-> | [-> | ->]]; do 3 eexists; repeat split; reflexivity.
Qed.

Lemma numeric_date_chars sep dt :
  (0 <= year dt <= 9999)%Z -> (0 <= month dt <= 99)%Z ->
  (0 <= day dt <= 99)%Z ->
  forall c, In c (numeric_date sep dt) ->
  c = sep \/ exists k, (0 <= k <= 9)%Z /\ c = digit k.
Proof.
  intros Hy Hm Hd c Hc. unfold numeric_date, two_digits, four_digits in Hc.
  simpl in Hc.
  repeat (destruct Hc as [<- | Hc];
          [first [ left; reflexivity
                 | right; eexists; split; [|reflexivity];
                   Z.div_mod_to_equations; lia ]|]).
  destruct Hc.
Qed.

(** The format with the separator [sep] reads the date written with it. *)
Lemma numeric_strptime sep dt :
  sep = ch "/" \/ sep = ch "-" \/ sep = ch "." ->
  make (year dt) (month dt) (day dt) = Some dt ->
  strptime (numeric_date sep dt)
    [ch "%"; ch "d"; sep; ch "%"; ch "m"; sep; ch "%"; ch "Y"]
  = Some dt.
Proof.
  intros Hsep Hmk.
  destruct (DateMore.make_valid _ _ _ _ Hmk) as (Hy & Hm & Hd).
  pose proof (DateMore.days_in_month_le (year dt) (month dt)) as Hdim.
  destruct (numeric_pattern sep Hsep) as (rd & rm & rY & Ed & Em & EY & Ep).
  unfold strptime. rewrite Ep. unfold match_, match_at.
  assert (Hdg : forall k, (0 <= k <= 9)%Z -> dg (digit k) = true)
    by (intros k Hk; apply digit_decimal; exact Hk).
  assert (Hmt : exists e,
            mt (Cat rd (Cat (Chr (just sep))
                  (Cat rm (Cat (Chr (just sep)) rY)))) Some
               {| pos := 0; prev := None; rest := numeric_date sep dt;
                  caps := [] |} = Some e
            /\ pos e = 10 /\ group {| m_start := 0; m_final := e |} g_Y
                             = Some (four_digits (year dt))
            /\ group {| m_start := 0; m_final := e |} g_m
               = Some (two_digits (month dt))
            /\ group {| m_start := 0; m_final := e |} g_d
               = Some (two_digits (day dt))).
  { eexists. split; [|repeat split].
    - change (mt (Cat rd (Cat (Chr (just sep))
                     (Cat rm (Cat (Chr (just sep)) rY)))) Some ?s)
        with (mt rd (mt (Chr (just sep))
                       (mt rm (mt (Chr (just sep)) (mt rY Some)))) s).
      apply (day_match rd _ 0 None (day dt) _ _ _ [] _ Ed);
        [lia | reflexivity|].
      erewrite mt_chr_ok;
        [|reflexivity | unfold just; apply N.eqb_refl].
      apply (month_match rm _ _ _ (month dt) _ _ _ _ _ Em);
        [lia | reflexivity|].
      erewrite mt_chr_ok;
        [|reflexivity | unfold just; apply N.eqb_refl].
      apply (year_match rY _ _ _ _ _ _ _ _ _ _ EY);
        [apply Hdg .. | reflexivity];
        Z.div_mod_to_equations; lia.
    - reflexivity.
    - reflexivity.
    - reflexivity.
    - reflexivity. }
  destruct Hmt as (e & -> & Hpos & HY & Hm' & Hd').
  unfold m_end. cbn [m_final]. rewrite Hpos.
  change (length (numeric_date sep dt)) with 10. cbn [Nat.eqb negb].
  unfold field_year, field_month, field_day. rewrite HY, Hm', Hd'.
  rewrite int_four_digits, !int_two_digits by lia.
  exact Hmk.
Qed.


(** A format with another separator does not read it. *)
Lemma numeric_strptime_other sep sep' dt :
  sep = ch "/" \/ sep = ch "-" \/ sep = ch "." ->
  sep' = ch "/" \/ sep' = ch "-" \/ sep' = ch "." ->
  sep <> sep' ->
  make (year dt) (month dt) (day dt) = Some dt ->
  strptime (numeric_date sep dt)
    [ch "%"; ch "d"; sep'; ch "%"; ch "m"; sep'; ch "%"; ch "Y"]
  = None.
Proof.
  intros Hsep Hsep' Hne Hmk.
  destruct (DateMore.make_valid _ _ _ _ Hmk) as (Hy & Hm & Hd).
  pose proof (DateMore.days_in_month_le (year dt) (month dt)) as Hdim.
  destruct (numeric_pattern sep' Hsep') as (rd & rm & rY & _ & _ & _ & Ep).
  unfold strptime. rewrite Ep. unfold match_.
  rewrite (NeedsFacts.match_at_needs _ (just sep')); [reflexivity | |].
  - cbn. right. left. auto.
  - apply Forall_forall. intros c Hc.
    destruct (numeric_date_chars sep dt ltac:(lia) ltac:(lia) ltac:(lia)
                c Hc) as [-> | (k & Hk & ->)].
    + unfold just. apply N.eqb_neq. congruence.
    + unfold just. apply N.eqb_neq. intros E.
      assert (Hge : (48 <= digit k)%N) by (unfold digit; lia).
      rewrite <- E in Hge.
      destruct Hsep' as [-> | [-> | ->]]; vm_compute in Hge; apply Hge;
        reflexivity.
Qed.

Lemma numeric_date_no_space sep dt :
  sep = ch "/" \/ sep = ch "-" \/ sep = ch "." ->
  make (year dt) (month dt) (day dt) = Some dt ->
  Forall (fun c => Unicode.isspace c = false) (numeric_date sep dt).
Proof.
  intros Hsep Hmk.
  destruct (DateMore.make_valid _ _ _ _ Hmk) as (Hy & Hm & Hd).
  pose proof (DateMore.days_in_month_le (year dt) (month dt)) as Hdim.
  apply Forall_forall. intros c Hc.
  destruct (numeric_date_chars sep dt ltac:(lia) ltac:(lia) ltac:(lia)
              c Hc) as [-> | (k & Hk & ->)].
  - destruct Hsep as [-> | [-> | ->]]; reflexivity.
  - apply digit_no_space. exact Hk.
Qed.

(** The loop over the formats reads a date written with digits. *)
Lemma try_formats_numeric sep dt :
  sep = ch "/" \/ sep = ch "-" \/ sep = ch "." ->
  make (year dt) (month dt) (day dt) = Some dt ->
  try_formats (numeric_date sep dt) fmts = Some dt.
Proof.
  intros Hsep Hmk.
  change fmts
    with ([ch "%"; ch "d"; ch "/"; ch "%"; ch "m"; ch "/"; ch "%"; ch "Y"]
          :: [ch "%"; ch "d"; ch "-"; ch "%"; ch "m"; ch "-"; ch "%"; ch "Y"]
          :: [ch "%"; ch "d"; ch "."; ch "%"; ch "m"; ch "."; ch "%"; ch "Y"]
          :: map lit ["%d %b %Y"; "%d %B %Y"]%string).
  cbn [try_formats].
  destruct Hsep as [-> | [-> | ->]].
  - rewrite numeric_strptime by auto. reflexivity.
  - rewrite (numeric_strptime_other (ch "-") (ch "/"))
      by (auto; discriminate).
    rewrite numeric_strptime by auto. reflexivity.
  - rewrite (numeric_strptime_other (ch ".") (ch "/"))
      by (auto; discriminate).
    rewrite (numeric_strptime_other (ch ".") (ch "-"))
      by (auto; discriminate).
    rewrite numeric_strptime by auto. reflexivity.
Qed.

(** X26. A round trip: every date of the calendar, written with two
    digits for the day, two for the month and four for the year and with
    a slash, a hyphen or a full stop between them, is parsed to that same
    date. *)
Theorem numeric_date_round_trip (sep : char) (dt : datetime) :
  sep = ch "/" \/ sep = ch "-" \/ sep = ch "." ->
  make (year dt) (month dt) (day dt) = Some dt ->
  _try_parse_date (numeric_date sep dt) = Ok dt.
Proof.
  intros Hsep Hmk. unfold _try_parse_date.
  rewrite strip_no_space by (apply numeric_date_no_space; assumption).
  rewrite try_formats_numeric by assumption.
  reflexivity.
Qed.

Lemma numeric_date_round_trip_witness :
  _try_parse_date (lit "29.02.2024")
  = Ok {| year := 2024; month := 2; day := 29 |}.
Proof.
  apply (numeric_date_round_trip (ch ".")
           {| year := 2024; month := 2; day := 29 |}).
  - right. right. reflexivity.
  - reflexivity.
Defined.

End DateRoundTrip.

Module LabelMore.

Import Sem ReFacts Scan StrFacts LineFacts DateSpec DigitFacts Datetime Dates.
Import DateShape DateRoundTrip.

Section Chain.

(** What is to hold of the state the match ends in *)
Variable P : st -> Prop.

Lemma ex_bol K s :
  line_start (prev s) = true ->
  (exists e, K s = Some e /\ P e) ->
  exists e, mt Bol K s = Some e /\ P e.
Proof. intros H. rewrite mt_bol_ok by exact H. auto. Qed.

Lemma ex_chr p K s c t :
  rest s = c :: t -> p c = true ->
  (exists e, K (adv s c t) = Some e /\ P e) ->
  exists e, mt (Chr p) K s = Some e /\ P e.
Proof. intros Hr Hc. rewrite (mt_chr_ok p K s c t Hr Hc). auto. Qed.

Lemma ex_opt p K s c t :
  rest s = c :: t -> p c = true ->
  (exists e, K (adv s c t) = Some e /\ P e) ->
  exists e, mt (Opt (Chr p)) K s = Some e /\ P e.
Proof.
  intros Hr Hc (e & He & HP). exists e. split; [|exact HP].
  unfold Opt. cbn [mt]. rewrite Hr, Hc, He. reflexivity.
Qed.

Lemma ex_greedy p K s a r :
  rest s = a ++ r ->
  Forall (fun c => p c = true) a ->
  match r with c :: _ => p c = false | [] => True end ->
  (exists e, K {| pos := pos s + length a; prev := prev_after (prev s) a;
                  rest := r; caps := caps s |} = Some e /\ P e) ->
  exists e, mt (Star true p) K s = Some e /\ P e.
Proof.
  intros Hr Ha Hh (e & He & HP). exists e. split; [|exact HP].
  rewrite mt_star_greedy, Hr. apply star_greedy_run; assumption.
Qed.

End Chain.



Lemma last_updated_steps s :
  mt pat_last_updated Some s
  = mt Bol
      (mt (Star true ws)
          (mt (Chr (Unicode.ieq (ch "l")))
          (mt (Chr (Unicode.ieq (ch "a")))
          (mt (Chr (Unicode.ieq (ch "s")))
          (mt (Chr (Unicode.ieq (ch "t")))
              (mt (Star true ws)
                  (mt (Chr (Unicode.ieq (ch "u")))
                  (mt (Chr (Unicode.ieq (ch "p")))
                  (mt (Chr (Unicode.ieq (ch "d")))
                  (mt (Chr (Unicode.ieq (ch "a")))
                  (mt (Chr (Unicode.ieq (ch "t")))
                  (mt (Chr (Unicode.ieq (ch "e")))
                  (mt (Chr (Unicode.ieq (ch "d")))
                      (mt (Star true ws)
                          (mt (Opt (Chr (oneof (lit ":-"))))
                              (mt (Star true ws)
                                  (mt (line_tail 1) Some)))))))))))))))))
      s.
Proof. reflexivity. Qed.

Lemma space_not_l c : ws c = true -> Unicode.ieq (ch "l") c = false.
Proof.
  intros H. destruct (Unicode.ieq (ch "l") c) eqn:E; [|reflexivity].
  unfold Unicode.ieq in E. cbn -[N.eqb] in E.
  rewrite ?orb_false_r, !orb_true_iff, ?andb_true_iff, !N.eqb_eq in E.
  destruct E as [-> | ->]; vm_compute in H; discriminate.
Qed.

(** The "last updated" pattern matches at the start of a line, over
    indentation, the label and white space, and captures the trimmed text
    that follows. *)
Lemma last_updated_at n pv a b body w tail :
  line_start pv = true ->
  Forall (fun c => ws c = true) a ->
  Forall (fun c => ws c = true) b ->
  body <> [] -> Str.strip body = body ->
  Forall (fun c => dot c = true) body ->
  Forall (fun c => ws c = true) w ->
  tail = [] \/ (exists t, tail = LF :: t) ->
  exists m,
    match_at pat_last_updated n pv
      (a ++ lit "Last Updated:" ++ b ++ body ++ w ++ tail) = Some m
    /\ group m 1 = Some body.
Proof.
  intros Hpv Ha Hb Hne Hs Hd Hw Ht.
  destruct (trimmed_ends body Hne Hs) as [(c0 & t0 & E0 & Hc0) Hlast].
  unfold match_at.
  enough (H : exists e,
            mt pat_last_updated Some
               {| pos := n; prev := pv;
                  rest := a ++ lit "Last Updated:" ++ b ++ body ++ w ++ tail;
                  caps := [] |} = Some e
            /\ (fun e => exists sp, caps e = [(1%N, sp)]
                                    /\ sp_text sp = body) e).
  { destruct H as (e & -> & sp & Hc & Ht'). eexists. split; [reflexivity|].
    unfold group. cbn [m_final]. rewrite Hc. cbn. rewrite Ht'.
    reflexivity. }
  rewrite last_updated_steps.
  apply ex_bol; [exact Hpv|].
  apply (ex_greedy _ ws _ _ a
           (lit "Last Updated:" ++ b ++ body ++ w ++ tail));
    [reflexivity | exact Ha | reflexivity|].
  do 4 (eapply ex_chr; [reflexivity | reflexivity|]).
  apply (ex_greedy _ ws _ _ [32%N]
           (lit "Updated:" ++ b ++ body ++ w ++ tail));
    [reflexivity | repeat constructor | reflexivity|].
  do 7 (eapply ex_chr; [reflexivity | reflexivity|]).
  apply (ex_greedy _ ws _ _ []
           (lit ":" ++ b ++ body ++ w ++ tail));
    [reflexivity | constructor | reflexivity|].
  eapply ex_opt; [reflexivity | reflexivity|].
  apply (ex_greedy _ ws _ _ b (body ++ w ++ tail));
    [reflexivity | exact Hb | rewrite E0; exact Hc0|].
  match goal with
  | |- exists e, mt (line_tail 1) Some ?s = Some e /\ _ =>
      destruct (capture_line 1 s body w tail eq_refl Hd Hlast Hw Ht)
        as (e & He & Hcaps)
  end.
  exists e. split; [exact He|]. eexists. split; [exact Hcaps | reflexivity].
Qed.

(** It matches nowhere before a character that is neither white space nor
    the letter L. *)
Lemma last_updated_not_at n pv u c v :
  Forall (fun x => ws x = true) u -> ws c = false ->
  Unicode.ieq (ch "l") c = false ->
  match_at pat_last_updated n pv (u ++ c :: v) = None.
Proof.
  intros Hu Hc Hl. unfold match_at. rewrite last_updated_steps.
  destruct (line_start pv) eqn:Hpv.
  - rewrite mt_bol_ok by exact Hpv. rewrite mt_star_greedy.
    cbn [pos prev rest caps].
    rewrite star_greedy_fail; [reflexivity | exact Hu | exact Hc |].
    intros a1 a2 pv' E. apply mt_chr_no. cbn [rest].
    destruct a2 as [|h a2]; cbn [app].
    + exact Hl.
    + apply space_not_l. rewrite Forall_forall in Hu. apply Hu.
      rewrite E. apply in_or_app. right. left. reflexivity.
  - rewrite mt_bol_no by exact Hpv. reflexivity.
Qed.

Lemma not_all_space s :
  forallb ws s = false ->
  exists u c v, s = u ++ c :: v /\ Forall (fun x => ws x = true) u
                /\ ws c = false /\ drop_while ws s = c :: v.
Proof.
  induction s as [|x s IH]; [discriminate|]. cbn [forallb].
  destruct (ws x) eqn:Hx.
  - simpl. intros H. destruct (IH H) as (u & c & v & -> & Hu & Hc & Hdw).
    exists (x :: u), c, v. repeat split; try assumption.
    + constructor; assumption.
    + cbn [app drop_while]. rewrite Hx. exact Hdw.
  - intros _. exists [], x, s. repeat split; try assumption.
    + constructor.
    + cbn [drop_while]. rewrite Hx. reflexivity.
Qed.

Lemma last_updated_search b body w tail : forall pre n pv,
  label_free (Unicode.ieq (ch "l")) pv pre = true ->
  opens_line pv pre = true ->
  Forall (fun c => ws c = true) b ->
  body <> [] -> Str.strip body = body ->
  Forall (fun c => dot c = true) body ->
  Forall (fun c => ws c = true) w ->
  tail = [] \/ (exists t, tail = LF :: t) ->
  exists m,
    search_from pat_last_updated n pv
      (pre ++ lit "Last Updated:" ++ b ++ body ++ w ++ tail) = Some m
    /\ group m 1 = Some body.
Proof.
  induction pre as [|c pre IH]; intros n pv Hf Ho Hb Hne Hs Hd Hw Ht.
  - simpl in Ho. rewrite orb_false_r, andb_true_r in Ho.
    destruct (last_updated_at n pv [] b body w tail Ho (Forall_nil _)
                Hb Hne Hs Hd Hw Ht) as (m & Hm & Hg).
    exists m. split; [apply search_from_here; exact Hm | exact Hg].
  - destruct (line_start pv && forallb ws (c :: pre)) eqn:Hhere.
    + apply andb_true_iff in Hhere. destruct Hhere as [Hpv Hall].
      destruct (last_updated_at n pv (c :: pre) b body w tail Hpv
                  (forallb_Forall _ _ Hall) Hb Hne Hs Hd Hw Ht)
        as (m & Hm & Hg).
      exists m. split; [apply search_from_here; exact Hm | exact Hg].
    + cbn [opens_line] in Ho. rewrite Hhere in Ho. simpl in Ho.
      cbn [label_free] in Hf. apply andb_true_iff in Hf.
      destruct Hf as [Hf0 Hf].
      assert (Hnone : match_at pat_last_updated n pv
                        ((c :: pre) ++ lit "Last Updated:" ++ b ++ body
                         ++ w ++ tail) = None).
      { apply andb_false_iff in Hhere. destruct Hhere as [Hpv | Hall].
        - unfold match_at. rewrite last_updated_steps.
          rewrite mt_bol_no by exact Hpv. reflexivity.
        - destruct (not_all_space _ Hall) as (u & y & v & E & Hu & Hy & Hdw).
          rewrite Hdw in Hf0.
          destruct (line_start pv) eqn:Hpv.
          + simpl in Hf0. apply negb_true_iff in Hf0.
            rewrite E, <- app_assoc.
            change ((y :: v) ++ ?x) with (y :: v ++ x).
            apply last_updated_not_at; assumption.
          + unfold match_at. rewrite last_updated_steps.
            rewrite mt_bol_no by exact Hpv. reflexivity. }
      change ((c :: pre) ++ ?x) with (c :: pre ++ x) in *.
      cbn [search_from]. rewrite Hnone.
      apply IH; assumption.
Qed.


Lemma no_lf_dot body :
  ~ In LF body -> Forall (fun c => dot c = true) body.
Proof.
  intros H. apply Forall_forall. intros c Hc. unfold dot, isnot.
  destruct (N.eqb LF c) eqn:E; [|reflexivity].
  apply N.eqb_eq in E. subst c. contradiction.
Qed.




(** X28. A dated document: when, dashes and the full-width colon
    normalised, no line of the document before the first line that starts
    with "Last Updated:" begins with the letter L, and that line goes on
    with a date of the calendar written in digits (day, month, year, with
    a slash, a hyphen or a full stop), the extractor returns that date. *)
Theorem dated_document_gives_its_date
    (md_text pre b w tail : str) (sep : char) (dt : datetime) :
  normalise md_text
  = pre ++ lit "Last Updated:" ++ b ++ numeric_date sep dt ++ w ++ tail ->
  label_free (Unicode.ieq (ch "l")) None pre = true ->
  opens_line None pre = true ->
  forallb ws b = true -> forallb ws w = true ->
  tail = [] \/ (exists t, tail = LF :: t) ->
  sep = ch "/" \/ sep = ch "-" \/ sep = ch "." ->
  make (year dt) (month dt) (day dt) = Some dt ->
  parse_last_updated md_text = Ok dt.
Proof.
  intros En Hf Ho Hb Hw Ht Hsep Hmk.
  pose proof (numeric_date_no_space sep dt Hsep Hmk) as Hns.
  assert (Hs : Str.strip (numeric_date sep dt) = numeric_date sep dt)
    by (apply strip_no_space; exact Hns).
  assert (Hlf : ~ In LF (numeric_date sep dt)).
  { intros Hin. rewrite Forall_forall in Hns. specialize (Hns LF Hin).
    discriminate. }
  destruct (last_updated_search b (numeric_date sep dt) w tail pre 0 None
              Hf Ho (forallb_Forall _ _ Hb) ltac:(discriminate) Hs
              (no_lf_dot _ Hlf) (forallb_Forall _ _ Hw) Ht)
    as (m & Hm & Hg).
  unfold parse_last_updated. rewrite En.
  unfold patterns, first_label, search. rewrite Hm, Hg.
  unfold _try_parse_date. cbn [text]. rewrite Hs.
  rewrite try_formats_numeric by assumption. reflexivity.
Qed.

Lemma dated_document_gives_its_date_witness :
  parse_last_updated
    (lit "# Privacy Policy\nLast Updated: 01/05/2024\n## Data\n- none\n")
  = Ok {| year := 2024; month := 5; day := 1 |}.
Proof.
  apply (dated_document_gives_its_date
           (lit "# Privacy Policy\nLast Updated: 01/05/2024\n## Data\n- none\n")
           (lit "# Privacy Policy\n") (lit " ") [] (lit "\n## Data\n- none\n")
           (ch "/") {| year := 2024; month := 5; day := 1 |});
    try reflexivity.
  - right. eexists. reflexivity.
  - left. reflexivity.
Defined.

End LabelMore.
